(** * Travel receipt parser: the extraction server

    A shallow embedding of the Express server of the repository (the
    source file with [postProcessFlight], [callLLM] and the two
    [/api/extract] routes) and the properties of its specification.

    - JavaScript strings are lists of UTF-16 code units.
    - Regular-expression literals are kept as regular expressions and run
      by a small backtracking matcher that follows the ECMAScript rules
      for the constructs the server uses.
    - JSON values are an inductive type; objects are finite maps.
    - The route handlers are written in a state-and-exception monad over
      the evaluation database, the clock and the uploads directory. *)

From Stdlib Require Import ZArith NArith Ascii String SpecFloat.
From stdpp Require Import gmap strings list fin_maps.

#[local] Set Warnings "-register-all".
#[local] Open Scope Z_scope.

(** ** Strings *)

Abbreviation code_unit := N (only parsing).
Abbreviation jsstring := (list N) (only parsing).

(** A string literal of the source, as code units. *)
Definition js (s : string) : jsstring :=
  (fun a => N_of_ascii a) <$> list_ascii_of_string s.

(** The double quote, which the literals above cannot hold. *)
Definition dquote : jsstring := [34%N].

Definition in_range (lo hi c : code_unit) : bool :=
  (N.leb lo c && N.leb c hi)%bool.

(** [\d] *)
Definition is_digit (c : code_unit) : bool := in_range 48 57 c.

(** [\w]: [A-Za-z0-9_] *)
Definition is_word (c : code_unit) : bool :=
  (in_range 65 90 c || in_range 97 122 c || in_range 48 57 c || N.eqb c 95)%bool.

(** [\s], which is also the set that [trim] strips: WhiteSpace and
    LineTerminator of ECMAScript. *)
Definition is_space (c : code_unit) : bool :=
  (in_range 9 13 c || N.eqb c 32 || N.eqb c 160 || N.eqb c 5760
   || in_range 8192 8202 c || N.eqb c 8232 || N.eqb c 8233 || N.eqb c 8239
   || N.eqb c 8287 || N.eqb c 12288 || N.eqb c 65279)%bool.

Fixpoint trimStart (s : jsstring) : jsstring :=
  match s with
  | c :: s' => if is_space c then trimStart s' else s
  | [] => []
  end.

Fixpoint trimEnd (s : jsstring) : jsstring :=
  match s with
  | c :: s' =>
      match trimEnd s' with
      | [] => if is_space c then [] else [c]
      | r => c :: r
      end
  | [] => []
  end.

(** [String.prototype.trim] *)
Definition trim (s : jsstring) : jsstring := trimEnd (trimStart s).

(** [String.prototype.slice(start, end)] *)
Definition slice (s : jsstring) (start stop : Z) : jsstring :=
  let len := Z.of_nat (length s) in
  let from := if start <? 0 then Z.max (len + start) 0 else Z.min start len in
  let to := if stop <? 0 then Z.max (len + stop) 0 else Z.min stop len in
  take (Z.to_nat (to - from)) (drop (Z.to_nat from) s).

Fixpoint starts_with (a s : jsstring) : bool :=
  match a, s with
  | [], _ => true
  | x :: a', y :: s' => (N.eqb x y && starts_with a' s')%bool
  | _ :: _, [] => false
  end.

(** The first offset of [s] at which [a] starts, counted from [i]. *)
Fixpoint find_from (a s : jsstring) (i : nat) : option nat :=
  if starts_with a s then Some i
  else match s with
       | [] => None
       | _ :: s' => find_from a s' (S i)
       end.

(** [s.indexOf(a, pos)]: the position is clamped to [0, s.length]; the
    result is -1 when there is no occurrence at or after it. *)
Definition indexOf (s a : jsstring) (pos : Z) : Z :=
  let start := Z.to_nat (Z.min (Z.max pos 0) (Z.of_nat (length s))) in
  match find_from a (drop start s) start with
  | Some k => Z.of_nat k
  | None => -1
  end.

(** ** Case mapping

    [toUpperCase] on the code units U+0000..U+00FF, after the Unicode
    default case mapping: a-z and the Latin-1 lower-case letters go to
    their capitals, U+00DF to the two letters SS, U+00FF to U+0178 and
    U+00B5 to U+039C. The server upper-cases only strings that went
    through the filter of [cleanNameAllCaps], which leaves no code unit
    above U+00FF (lemma [name_filter_latin1]); above that range this
    definition is the identity and is not meant to be used. *)
Definition upper_code_unit (c : code_unit) : jsstring :=
  if in_range 97 122 c then [(c - 32)%N]
  else if N.eqb c 181 then [924%N]
  else if N.eqb c 223 then [83%N; 83%N]
  else if N.eqb c 247 then [c]
  else if in_range 224 254 c then [(c - 32)%N]
  else if N.eqb c 255 then [376%N]
  else [c].

Definition toUpperCase (s : jsstring) : jsstring :=
  s ≫= upper_code_unit.

(** ** Regular expressions

    The syntax covers what the server's literals use: character classes,
    [\b], sequence, alternation, the greedy [?], and the greedy
    quantifier [{n,}] on a class. *)
Inductive regex :=
| Eps
| Chr (p : code_unit → bool)
| WordB
| Cat (r1 r2 : regex)
| Alt (r1 r2 : regex)
| Opt (r : regex)
| Rep (n : nat) (p : code_unit → bool).

(** A continuation receives the code unit before the position, the rest
    of the input, and the number of code units consumed so far. *)
Definition cont := option code_unit → jsstring → nat → option nat.

Fixpoint rep_class (p : code_unit → bool) (least : nat)
    (prev : option code_unit) (s : jsstring) (n : nat) (k : cont) : option nat :=
  match s with
  | c :: s' =>
      if p c then
        match rep_class p (Nat.pred least) (Some c) s' (S n) k with
        | Some r => Some r
        | None => if Nat.eqb least 0 then k prev s n else None
        end
      else if Nat.eqb least 0 then k prev s n else None
  | [] => if Nat.eqb least 0 then k prev s n else None
  end.

Definition word_before (prev : option code_unit) : bool :=
  match prev with Some c => is_word c | None => false end.

Definition word_here (s : jsstring) : bool :=
  match s with c :: _ => is_word c | [] => false end.

(** The backtracking matcher: [Some n] when the expression followed by
    the continuation matches, [n] being what the continuation answers. *)
Fixpoint run (r : regex) (prev : option code_unit) (s : jsstring) (n : nat)
    (k : cont) : option nat :=
  match r with
  | Eps => k prev s n
  | Chr p =>
      match s with
      | c :: s' => if p c then k (Some c) s' (S n) else None
      | [] => None
      end
  | WordB => if xorb (word_before prev) (word_here s) then k prev s n else None
  | Cat r1 r2 => run r1 prev s n (fun prev' s' n' => run r2 prev' s' n' k)
  | Alt r1 r2 =>
      match run r1 prev s n k with
      | Some x => Some x
      | None => run r2 prev s n k
      end
  | Opt r1 =>
      match run r1 prev s n k with
      | Some x => Some x
      | None => k prev s n
      end
  | Rep least p => rep_class p least prev s n k
  end.

(** The length of the match of [r] at the current position, if any. *)
Definition match_here (r : regex) (prev : option code_unit) (s : jsstring) : option nat :=
  run r prev s 0%nat (fun _ _ n => Some n).

(** [s.replace(/r/g, by)] for a replacement without [$]: matches are
    taken left to right; after an empty match the next code unit is
    copied and the search resumes behind it. [skip] counts the code units
    of the current match that are still to be dropped. *)
Fixpoint replace_go (r : regex) (by_ : jsstring) (skip : nat)
    (prev : option code_unit) (s : jsstring) : jsstring :=
  match skip with
  | S skip' =>
      match s with
      | c :: s' => replace_go r by_ skip' (Some c) s'
      | [] => []
      end
  | O =>
      match match_here r prev s with
      | Some (S n) =>
          by_ ++ match s with
                 | c :: s' => replace_go r by_ n (Some c) s'
                 | [] => []
                 end
      | Some O =>
          by_ ++ match s with
                 | c :: s' => c :: replace_go r by_ O (Some c) s'
                 | [] => []
                 end
      | None =>
          match s with
          | c :: s' => c :: replace_go r by_ O (Some c) s'
          | [] => []
          end
      end
  end.

Definition replace_all (r : regex) (by_ : jsstring) (s : jsstring) : jsstring :=
  replace_go r by_ O None s.

(** [/r/.test(s)]: is there a match at some position of [s]? *)
Fixpoint test_go (r : regex) (prev : option code_unit) (s : jsstring) : bool :=
  match match_here r prev s with
  | Some _ => true
  | None =>
      match s with
      | c :: s' => test_go r (Some c) s'
      | [] => false
      end
  end.

Definition test (r : regex) (s : jsstring) : bool := test_go r None s.

(** A literal, and a literal under the [i] flag. Without the [u] flag an
    ASCII letter matches exactly its two cases. *)
Definition chr (c : code_unit) : regex := Chr (N.eqb c).

Definition fold_case (c : code_unit) : code_unit :=
  if in_range 97 122 c then (c - 32)%N else c.

Definition chr_i (c : code_unit) : regex :=
  Chr (fun x => N.eqb (fold_case x) (fold_case c)).

Definition lit (s : string) : regex := foldr (fun c r => Cat (chr c) r) Eps (js s).
Definition lit_i (s : string) : regex := foldr (fun c r => Cat (chr_i c) r) Eps (js s).

(** ** JSON values

    What [JSON.parse] can return. A number is kept as a binary
    floating-point datum; the server only tests numbers for truthiness. *)
Inductive value :=
| VNull
| VBool (b : bool)
| VNum (x : spec_float)
| VStr (s : jsstring)
| VArr (elts : list value)
| VObj (props : gmap jsstring value).

Abbreviation object := (gmap jsstring value) (only parsing).

(** ToBoolean *)
Definition truthy (v : value) : bool :=
  match v with
  | VNull => false
  | VBool b => b
  | VNum (S754_zero _) | VNum S754_nan => false
  | VNum _ => true
  | VStr [] => false
  | VStr _ => true
  | VArr _ | VObj _ => true
  end.

(** [v === "lit"], on the result of a property read ([None] is
    [undefined]). *)
Definition is_string (v : option value) (s : jsstring) : bool :=
  match v with
  | Some (VStr x) => bool_decide (x = s)
  | _ => false
  end.

(** [k in obj], for an object whose prototype is [Object.prototype] and a
    key that [Object.prototype] does not have. *)
Definition has_key (k : jsstring) (obj : object) : bool :=
  match obj !! k with Some _ => true | None => false end.

(** ** Errors

    Everything the server throws is an [Error] with a message. The kind
    records the throw site, named after the taxonomy of the
    specification: [UpstreamError] for the provider call, [DecodeError]
    for the two throws that end [callLLM], [SchemaError] for
    [assertValidOutput], [TypeError] for a method call on a value that
    has no such method, [OcrError] for [extractTextFromImage] and
    [RecorderError] for [insertRun.run]. [BudgetExhausted] belongs to the
    model only: the scan loop of [postProcessFlight] is given a number of
    iterations, and lemma [scan_budget] shows it never runs out. *)
Inductive error_kind :=
| UpstreamError | DecodeError | SchemaError | TypeError | OcrError
| RecorderError | BudgetExhausted.

Record error := Err { kind : error_kind; message : jsstring }.

Inductive Result (A : Type) :=
| Ok (a : A)
| Throw (e : error).
Arguments Ok {A} a.
Arguments Throw {A} e.

#[export] Instance Result_ret : MRet Result := fun A a => Ok a.
#[export] Instance Result_bind : MBind Result := fun A B f m =>
  match m with
  | Ok a => f a
  | Throw e => Throw e
  end.
#[export] Instance Result_fmap : FMap Result := fun A B f m =>
  match m with
  | Ok a => Ok (f a)
  | Throw e => Throw e
  end.

(** ** The regular expressions of the source *)

(** [/\b(MR|MRS|MS|MISS|DR|PROF)\b\.?/gi] *)
Definition re_honorific : regex :=
  Cat WordB
    (Cat (Alt (lit_i "MR") (Alt (lit_i "MRS") (Alt (lit_i "MS")
            (Alt (lit_i "MISS") (Alt (lit_i "DR") (lit_i "PROF"))))))
       (Cat WordB (Opt (chr 46)))).

(** The class [[A-Za-zÀ-ÿ\s'-]], and [/[^A-Za-zÀ-ÿ\s'-]/g] *)
Definition name_class (c : code_unit) : bool :=
  (in_range 65 90 c || in_range 97 122 c || in_range 192 255 c
   || is_space c || N.eqb c 39 || N.eqb c 45)%bool.

Definition re_not_name : regex := Chr (fun c => negb (name_class c)).

(** [/\s+/g] *)
Definition re_spaces : regex := Rep 1 is_space.

(** [/[^\d\s]/g] *)
Definition re_not_digit_space : regex :=
  Chr (fun c => negb (is_digit c || is_space c)).

(** [/```json\s*/gi] and [/```/g] *)
Definition re_fence_json : regex := Cat (lit_i "```json") (Rep 0 is_space).
Definition re_fence : regex := lit "```".

(** [/\d/] *)
Definition re_digit : regex := Chr is_digit.

(** [/\u00A0/g], [/[ \t]+/g] and [/\n{3,}/g] *)
Definition re_nbsp : regex := chr 160.
Definition re_blanks : regex := Rep 1 (fun c => (N.eqb c 32 || N.eqb c 9)%bool).
Definition re_newlines : regex := Rep 3 (N.eqb 10).

(** ** Helpers of the server *)

Definition normalizeText (text : jsstring) (max : Z) : jsstring :=
  slice
    (trim
       (replace_all re_newlines [10%N; 10%N]
          (replace_all re_blanks (js " ")
             (replace_all re_nbsp (js " ") text))))
    0 max.

Definition cleanNameAllCaps (name : option value) : value :=
  match name with
  | Some (VStr s) =>
      if negb (truthy (VStr s)) then VNull
      else
        let stripped :=
          trim
            (replace_all re_spaces (js " ")
               (replace_all re_not_name (js " ")
                  (replace_all re_honorific [] s))) in
        if negb (truthy (VStr stripped)) then VNull
        else VStr (toUpperCase stripped)
  | _ => VNull
  end.

Definition cleanTicketNumber (t : option value) : value :=
  match t with
  | Some (VStr s) =>
      if negb (truthy (VStr s)) then VNull
      else
        let digits :=
          trim
            (replace_all re_spaces (js " ")
               (replace_all re_not_digit_space (js " ") s)) in
        if truthy (VStr digits) then VStr digits else VNull
  | _ => VNull
  end.

Definition stripCodeFences (s : jsstring) : jsstring :=
  if negb (truthy (VStr s)) then []
  else trim (replace_all re_fence [] (replace_all re_fence_json [] s)).

Definition open_brace : code_unit := 123%N.
Definition close_brace : code_unit := 125%N.

(** The [for] loop of [extractFirstJSONObject], from index [i] with the
    rest [s] of the string: the index at which the depth is zero after
    the update, if any. *)
Fixpoint brace_scan (s : jsstring) (depth : Z) (i : nat) : option nat :=
  match s with
  | [] => None
  | ch :: s' =>
      let depth :=
        if N.eqb ch open_brace then depth + 1
        else if N.eqb ch close_brace then depth - 1
        else depth in
      if depth =? 0 then Some i else brace_scan s' depth (S i)
  end.

Definition extractFirstJSONObject (raw : jsstring) : option jsstring :=
  let s := stripCodeFences raw in
  let start := indexOf s [open_brace] 0 in
  if start =? -1 then None
  else
    match brace_scan (drop (Z.to_nat start) s) 0 (Z.to_nat start) with
    | Some i => Some (slice s start (Z.of_nat i + 1))
    | None => None
    end.

Definition flight_keys : list jsstring :=
  js <$> ["passengerName"; "bookingReference"; "ticketNumber"; "tripType";
          "overallFrom"; "overallTo"; "departureDate"; "returnDate";
          "currency"; "totalPrice"]%string.

Definition hotel_keys : list jsstring :=
  js <$> ["guestName"; "hotelName"; "receiptNumber"; "hotelCity";
          "checkInDate"; "checkOutDate"; "currency"; "totalPrice"]%string.

(** [for (const k of keys) if (!(k in obj)) obj[k] = null] *)
Definition fill_missing (keys : list jsstring) (obj : object) : object :=
  foldl (fun o k => if has_key k o then o else <[k := VNull]> o) obj keys.

Definition ensureRequiredKeys (obj : value) : value :=
  match obj with
  | VObj props =>
      if is_string (props !! js "type") (js "flight") then
        VObj (fill_missing flight_keys props)
      else if is_string (props !! js "type") (js "hotel") then
        VObj (fill_missing hotel_keys props)
      else obj
  | _ => obj
  end.

(** [obj?.type] *)
Definition type_of_record (obj : value) : option value :=
  match obj with
  | VObj props => props !! js "type"
  | _ => None
  end.

(** The first key of [keys] that [obj] lacks. *)
Fixpoint first_missing (keys : list jsstring) (obj : object) : option jsstring :=
  match keys with
  | [] => None
  | k :: keys' => if has_key k obj then first_missing keys' obj else Some k
  end.

(** ** The world of a request

    One row of the table [eval_runs] (the key [id] is the position in the
    table), and the argument that the routes pass to [logEvalRun]. *)
Record eval_run := EvalRun {
  run_source_file : value;
  run_timestamp : Z;
  run_provider : jsstring;
  run_model : jsstring;
  run_docType_pred : value;
  run_groundTruth_docType : value;
  run_json_output : value;
  run_success : Z;
  run_parse_error : value;
  run_latency_ms : Z;
  run_ocr_used : Z;
  run_input_type : jsstring;
  run_input_chars : Z;
  run_notes : value
}.

Record log_row := LogRow {
  source_file : value;
  input_type : jsstring;
  input_chars : Z;
  ocr_used : bool;
  latency_ms : Z;
  success : bool;
  docType_pred : value;
  json_output : value;
  parse_error : value
}.

(** The state a request can change: the table [eval_runs], how often the
    clock was read, how often [insertRun.run] was called, and the files
    removed from the uploads directory. *)
Record world := World {
  db : list eval_run;
  ticks : nat;
  inserts : nat;
  unlinked : list jsstring
}.

(** What came back from the provider: [fetch] or [r.json()] rejected, the
    body has a truthy [error] (given with the message of line 386), or
    the body is read up to [choices[0].message.content ?? ""]. *)
Inductive chat_reply :=
| ChatThrows (e : error)
| ChatError (msg : jsstring)
| ChatContent (raw : jsstring).

Record response := Response { status : Z; body : value }.

(** The request of [/api/extract]: [req.body.text] and
    [req.body.source_file], [None] when absent. *)
Record extract_request := ExtractRequest {
  body_text : option value;
  body_source_file : option value
}.

(** [req.file], as multer leaves it. *)
Record upload := Upload {
  path : jsstring;
  originalname : jsstring;
  mimetype : jsstring
}.

Inductive request :=
| PostExtract (req : extract_request)
| PostExtractFile (file : option upload).

(** [x ?? d] *)
Definition nullish_or (x : option value) (d : value) : value :=
  match x with
  | None | Some VNull => d
  | Some v => v
  end.

(** Computations of a route: state passing with exceptions. *)
Definition M (A : Type) : Type := world → Result A * world.

#[export] Instance M_ret : MRet M := fun A a w => (Ok a, w).
#[export] Instance M_bind : MBind M := fun A B f m w =>
  match m w with
  | (Ok a, w') => f a w'
  | (Throw e, w') => (Throw e, w')
  end.

Definition lift {A} (r : Result A) : M A := fun w => (r, w).

(** [try { m } catch (e) { h e }] *)
Definition try_catch {A} (m : M A) (h : error → M A) : M A := fun w =>
  match m w with
  | (Ok a, w') => (Ok a, w')
  | (Throw e, w') => h e w'
  end.

(** [try { m } finally { f }], for an [f] that does not return. *)
Definition try_finally {A} (m : M A) (f : M ()) : M A := fun w =>
  match m w with
  | (r, w') =>
      match f w' with
      | (Ok _, w'') => (r, w'')
      | (Throw e, w'') => (Throw e, w'')
      end
  end.

(** [fs.unlink(path, () => {})] *)
Definition unlink (p : jsstring) : M () := fun w =>
  (Ok (), World (db w) (ticks w) (inserts w) (unlinked w ++ [p])).

Definition one_way : value := VStr (js "one_way").
Definition round_trip : value := VStr (js "round_trip").

(** ** The server *)

Section Server.

(** What the server takes from the engine and from its surroundings:
    Unicode lower-casing, [JSON.parse] ([None] when it throws) and
    [JSON.stringify]; the configuration read at start; the text of the
    prompt before the document; the provider and the OCR engine; the
    clock, by the number of earlier readings; and the outcome of each
    call of [insertRun.run], by the number of earlier calls ([None]:
    the row is inserted). *)
Variable toLowerCase : jsstring → jsstring.
Variable JSON_parse : jsstring → option value.
Variable JSON_stringify : value → jsstring.
Variables PROVIDER MODEL : jsstring.
Variable PROMPT_HEAD : jsstring.
Variable chat : jsstring → chat_reply.
Variable recognize : jsstring → Result jsstring.
Variable now : nat → Z.
Variable insert_outcome : nat → option error.

(** [Date.now()], and [new Date()] *)
Definition Date_now : M Z := fun w =>
  (Ok (now (ticks w)), World (db w) (S (ticks w)) (inserts w) (unlinked w)).

Definition flag (b : bool) : Z := if b then 1 else 0.

Definition logEvalRun (row : log_row) : M () := fun w =>
  let stored :=
    {| run_source_file := source_file row;
       run_timestamp := now (ticks w);
       run_provider := PROVIDER;
       run_model := MODEL;
       run_docType_pred := docType_pred row;
       run_groundTruth_docType := VNull;
       run_json_output := json_output row;
       run_success := flag (success row);
       run_parse_error := parse_error row;
       run_latency_ms := latency_ms row;
       run_ocr_used := flag (ocr_used row);
       run_input_type := input_type row;
       run_input_chars := input_chars row;
       run_notes := VNull |} in
  match insert_outcome (inserts w) with
  | None =>
      (Ok (), World (db w ++ [stored]) (S (ticks w)) (S (inserts w)) (unlinked w))
  | Some e =>
      (Throw e, World (db w) (S (ticks w)) (S (inserts w)) (unlinked w))
  end.

Definition buildPrompt (text : jsstring) : jsstring :=
  trim (PROMPT_HEAD ++ text ++ [10%N; 32%N; 32%N]).

(** [(x || "").toLowerCase()] *)
Definition lower_or_empty (x : option value) : Result jsstring :=
  match x with
  | Some v =>
      if truthy v then
        match v with
        | VStr s => Ok (toLowerCase s)
        | _ => Throw (Err TypeError (js "toLowerCase is not a function"))
        end
      else Ok (toLowerCase [])
  | None => Ok (toLowerCase [])
  end.

(** CHECK 1 and CHECK 2 of the scan, at an occurrence [cursor] of the
    origin. *)
Definition isRepetition (t b : jsstring) (cursor : Z) : bool :=
  let nextB := indexOf t b cursor in
  (negb (nextB =? -1) && (nextB - cursor <? 400))%bool.

Definition hasDigit (t : jsstring) (cursor : Z) : bool :=
  let snippet := slice t (Z.max 0 (cursor - 50)) (cursor + 100) in
  test re_digit snippet.

(** The [while] loop of [postProcessFlight], with a number of
    iterations: [Some (Some cursor)] when the loop returns round-trip
    at [cursor], [Some None] when the search for the origin fails, and
    [None] when the iterations are used up. *)
Fixpoint scanReturnLeg (budget : nat) (t a b : jsstring) (cursor : Z)
    : option (option Z) :=
  match budget with
  | O => None
  | S budget' =>
      let cursor := indexOf t a cursor in
      if cursor =? -1 then Some None
      else if (negb (isRepetition t b cursor) && hasDigit t cursor)%bool
      then Some (Some cursor)
      else scanReturnLeg budget' t a b (cursor + 1)
  end.

Definition postProcessFlight (flightObj : object) (originalText : value)
    : Result object :=
  let out := flightObj in
  let out := <[js "passengerName" := cleanNameAllCaps (out !! js "passengerName")]> out in
  let out := <[js "ticketNumber" := cleanTicketNumber (out !! js "ticketNumber")]> out in
  t ← lower_or_empty (Some originalText);
  a ← lower_or_empty (out !! js "overallFrom");
  b ← lower_or_empty (out !! js "overallTo");
  let out := <[js "tripType" := one_way]> out in
  if (negb (truthy (VStr a)) || negb (truthy (VStr b)))%bool then Ok out
  else
    let idxA := indexOf t a 0 in
    let idxB := indexOf t b idxA in
    if (negb (idxA =? -1) && negb (idxB =? -1))%bool then
      match scanReturnLeg (S (length t)) t a b idxB with
      | Some (Some _) => Ok (<[js "tripType" := round_trip]> out)
      | Some None => Ok (<[js "returnDate" := VNull]> out)
      | None => Throw (Err BudgetExhausted [])
      end
    else Ok (<[js "returnDate" := VNull]> out).

Definition props_of (obj : value) : object :=
  match obj with
  | VObj props => props
  | _ => ∅
  end.

Definition missing_key_message (what : string) (k : jsstring) : jsstring :=
  js what ++ js " output missing key " ++ dquote ++ k ++ dquote.

Definition assertValidOutput (obj : value) : Result () :=
  let t := type_of_record obj in
  if (negb (is_string t (js "flight")) && negb (is_string t (js "hotel")))%bool then
    Throw (Err SchemaError
             (js "Model output missing/invalid " ++ dquote ++ js "type" ++ dquote
              ++ js ": " ++ slice (JSON_stringify obj) 0 200))
  else
    _ ← (if is_string t (js "flight") then
           match first_missing flight_keys (props_of obj) with
           | Some k => Throw (Err SchemaError (missing_key_message "Flight" k))
           | None => Ok ()
           end
         else Ok ());
    if is_string t (js "hotel") then
      match first_missing hotel_keys (props_of obj) with
      | Some k => Throw (Err SchemaError (missing_key_message "Hotel" k))
      | None => Ok ()
      end
    else Ok ().

(** The end of [callLLM]: from the content of the reply to the parsed
    value. *)
Definition decode (raw : jsstring) : Result value :=
  match JSON_parse (stripCodeFences raw) with
  | Some v => Ok v
  | None =>
      match extractFirstJSONObject raw with
      | Some ((_ :: _) as jsonStr) =>
          match JSON_parse jsonStr with
          | Some v => Ok v
          | None =>
              Throw (Err DecodeError
                       (js "Invalid JSON from model (parse failed). Extracted: "
                        ++ slice jsonStr 0 200 ++ js "..."))
          end
      | _ =>
          Throw (Err DecodeError
                   (js "Invalid JSON from model (no object found). Raw: "
                    ++ slice raw 0 200 ++ js "..."))
      end
  end.

Definition callLLM (text : value) : Result value :=
  match text with
  | VStr s =>
      match chat (buildPrompt (normalizeText s 12000)) with
      | ChatThrows e => Throw e
      | ChatError msg => Throw (Err UpstreamError msg)
      | ChatContent raw => decode raw
      end
  | _ => Throw (Err TypeError (js "text.replace is not a function"))
  end.

Definition extractTextFromImage (p : jsstring) : Result jsstring := recognize p.

(** From the call of the model to the second validation, as both routes
    have it. *)
Definition extraction (text : value) : Result value :=
  data ← callLLM text;
  let data := ensureRequiredKeys data in
  _ ← assertValidOutput data;
  data ← (if is_string (type_of_record data) (js "flight")
          then VObj <$> postProcessFlight (props_of data) text
          else Ok data);
  let data := ensureRequiredKeys data in
  _ ← assertValidOutput data;
  Ok data.

Definition error_body (msg : jsstring) : value :=
  VObj {[ js "error" := VStr msg ]}.

Definition ok_body (data : value) : value :=
  VObj (<[js "ok" := VBool true]> {[ js "data" := data ]}).

(** [app.post("/api/extract", ...)] *)
Definition post_extract (req : extract_request) : M response :=
  t0 ← Date_now;
  let inputText := nullish_or (body_text req) (VStr []) in
  let source_file := nullish_or (body_source_file req) VNull in
  let inputChars :=
    match inputText with VStr s => Z.of_nat (length s) | _ => 0 end in
  try_catch
    (if negb (truthy inputText) then
       mret (Response 400 (error_body (js "Missing text")))
     else
       data ← lift (extraction inputText);
       t1 ← Date_now;
       let latency := t1 - t0 in
       _ ← logEvalRun
             {| source_file := source_file; input_type := js "text";
                input_chars := inputChars; ocr_used := false;
                latency_ms := latency; success := true;
                docType_pred := nullish_or (type_of_record data) VNull;
                json_output := VStr (JSON_stringify data);
                parse_error := VNull |};
       mret (Response 200 (ok_body data)))
    (fun e =>
       t1 ← Date_now;
       let latency := t1 - t0 in
       _ ← logEvalRun
             {| source_file := source_file; input_type := js "text";
                input_chars := inputChars; ocr_used := false;
                latency_ms := latency; success := false;
                docType_pred := VNull; json_output := VNull;
                parse_error := VStr (message e) |};
       mret (Response 500 (error_body (message e)))).

(** [app.post("/api/extract-file", upload.single("file"), ...)] *)
Definition post_extract_file (file : option upload) : M response :=
  t0 ← Date_now;
  let filePath := path <$> file in
  let source_file :=
    match file with Some f => VStr (originalname f) | None => VNull end in
  try_finally
    (try_catch
       (match file with
        | None => mret (Response 400 (error_body (js "Missing file")))
        | Some f =>
            if negb (starts_with (js "image/") (mimetype f)) then
              mret (Response 400 (error_body (js "Only images supported")))
            else
              ocrText ← lift (extractTextFromImage (path f));
              let inputChars := Z.of_nat (length ocrText) in
              data ← lift (extraction (VStr ocrText));
              t1 ← Date_now;
              let latency := t1 - t0 in
              _ ← logEvalRun
                    {| source_file := source_file; input_type := js "image";
                       input_chars := inputChars; ocr_used := true;
                       latency_ms := latency; success := true;
                       docType_pred := nullish_or (type_of_record data) VNull;
                       json_output := VStr (JSON_stringify data);
                       parse_error := VNull |};
              mret (Response 200 (ok_body data))
        end)
       (fun e =>
          t1 ← Date_now;
          let latency := t1 - t0 in
          _ ← logEvalRun
                {| source_file := source_file; input_type := js "image";
                   input_chars := 0; ocr_used := true;
                   latency_ms := latency; success := false;
                   docType_pred := VNull; json_output := VNull;
                   parse_error := VStr (message e) |};
          mret (Response 500 (error_body (message e)))))
    (match filePath with
     | Some ((_ :: _) as p) => unlink p
     | _ => mret ()
     end).

(** The two extraction routes. The result is the response sent;
    [Throw] means that the handler ended without sending one. *)
Definition serve (r : request) : M response :=
  match r with
  | PostExtract req => post_extract req
  | PostExtractFile file => post_extract_file file
  end.

End Server.

(** ** The trip classifier, in the words of the specification *)

(** [a] occurs in [t] at position [p]. *)
Definition occurs_at (t a : jsstring) (p : Z) : Prop :=
  ∃ pre post, t = pre ++ a ++ post ∧ Z.of_nat (length pre) = p.

(** [k] is the first occurrence of [a] in [t] at or after [from]. *)
Definition first_occurrence (t a : jsstring) (from k : Z) : Prop :=
  from ≤ k ∧ occurs_at t a k ∧ ∀ j, from ≤ j < k → ¬ occurs_at t a j.




(** Where a search starts: the position clamped to the string. *)
Definition clamp (t : jsstring) (pos : Z) : Z :=
  Z.min (Z.max pos 0) (Z.of_nat (length t)).

(** ** The decoder, in the words of the specification *)





(** ** Name cleanup, step by step *)

(** A text as words and separators. *)
Inductive token :=
| Word (w : jsstring)
| Sep (c : code_unit).

(** The words that the honorific expression sees: [\b] stands between a
    code unit of [A-Za-z0-9_] and one that is not, so its words are the
    maximal runs of [A-Za-z0-9_], and an accented letter is a
    separator. *)
Fixpoint tokens (s : jsstring) : list token :=
  match s with
  | [] => []
  | c :: s' =>
      if is_word c then
        match tokens s' with
        | Word w :: ts => Word (c :: w) :: ts
        | ts => Word [c] :: ts
        end
      else Sep c :: tokens s'
  end.

Definition token_text (tk : token) : jsstring :=
  match tk with
  | Word w => w
  | Sep c => [c]
  end.

Definition honorifics : list jsstring :=
  js <$> ["MR"; "MRS"; "MS"; "MISS"; "DR"; "PROF"]%string.

(** The word is one of the honorifics, in either case of each letter. *)
Definition is_honorific (w : jsstring) : bool :=
  bool_decide (fold_case <$> w ∈ honorifics).

Definition full_stop : code_unit := 46%N.

(** Drop each honorific word, with the full stop that follows it. *)
Fixpoint drop_honorifics (ts : list token) : list token :=
  match ts with
  | [] => []
  | Word w :: ts' =>
      if is_honorific w then
        match ts' with
        | Sep c :: ts'' =>
            if N.eqb c full_stop then drop_honorifics ts''
            else Sep c :: drop_honorifics ts''
        | _ => drop_honorifics ts'
        end
      else Word w :: drop_honorifics ts'
  | Sep c :: ts' => Sep c :: drop_honorifics ts'
  end.

(** What the [replace] with the honorific expression computes (lemma
    [replace_all_honorific]). *)
Definition strip_honorifics (s : jsstring) : jsstring :=
  drop_honorifics (tokens s) ≫= token_text.

(** The letters of the first two hundred and fifty-six code points:
    A-Z, a-z, and U+00C0..U+00FF without the signs U+00D7 and U+00F7. *)
Definition is_letter (c : code_unit) : bool :=
  (in_range 65 90 c || in_range 97 122 c
   || (in_range 192 255 c && negb (N.eqb c 215) && negb (N.eqb c 247)))%bool.

Definition apostrophe : code_unit := 39%N.
Definition hyphen : code_unit := 45%N.
Definition space : code_unit := 32%N.

(** What name cleanup keeps: letters, white space, hyphens, apostrophes. *)
Definition name_char (c : code_unit) : bool :=
  (is_letter c || is_space c || N.eqb c hyphen || N.eqb c apostrophe)%bool.

(** Every other character gives way to a space. *)
Definition restrict_to_name (s : jsstring) : jsstring :=
  (fun c => if name_char c then c else space) <$> s.

(** Each run of white space becomes one space; [in_run] says that the
    character before was white space. *)
Fixpoint collapse (in_run : bool) (s : jsstring) : jsstring :=
  match s with
  | [] => []
  | c :: s' =>
      if is_space c then
        if in_run then collapse true s' else space :: collapse true s'
      else c :: collapse false s'
  end.

(** The steps of [cleanNameAllCaps], on the words of the expression. *)
Definition cleanName_steps (s : jsstring) : value :=
  match trim (collapse false (restrict_to_name (strip_honorifics s))) with
  | [] => VNull
  | cleaned => VStr (toUpperCase cleaned)
  end.

(** ** Name cleanup, in the words of the specification *)

(** An accented letter. *)
Definition accented (c : code_unit) : bool :=
  (in_range 192 255 c && negb (N.eqb c 215) && negb (N.eqb c 247))%bool.

(** The characters of a word: letters, accented ones included, digits
    and the underscore. *)
Definition is_name_word (c : code_unit) : bool :=
  (is_letter c || is_digit c || N.eqb c 95)%bool.

(** [s] begins with a code unit of the class [p]. *)
Definition starts_in (p : code_unit → bool) (s : jsstring) : bool :=
  match s with
  | c :: _ => p c
  | [] => false
  end.

(** The input as words (maximal runs of word characters) and
    separators. *)
Fixpoint name_tokens (s : jsstring) : list token :=
  match s with
  | [] => []
  | c :: s' =>
      if is_name_word c then
        match name_tokens s' with
        | Word w :: ts => Word (c :: w) :: ts
        | ts => Word [c] :: ts
        end
      else Sep c :: name_tokens s'
  end.

(** Strip the honorific tokens, with the full stop that follows. *)
Definition strip_honorific_words (s : jsstring) : jsstring :=
  drop_honorifics (name_tokens s) ≫= token_text.

Definition cleanName_spec (s : jsstring) : value :=
  match trim (collapse false (restrict_to_name (strip_honorific_words s))) with
  | [] => VNull
  | cleaned => VStr (toUpperCase cleaned)
  end.

(** No honorific among the words of the expression stands directly next
    to an accented letter; [after_accent] says that the token before is
    one. *)
Fixpoint honorifics_apart (after_accent : bool) (ts : list token) : bool :=
  match ts with
  | [] => true
  | Word w :: ts' =>
      (negb (is_honorific w
             && (after_accent
                 || match ts' with
                    | Sep c :: _ => accented c
                    | _ => false
                    end))
       && honorifics_apart false ts')%bool
  | Sep c :: ts' => honorifics_apart (accented c) ts'
  end.

(** ASCII punctuation (the general categories P of Unicode). *)
Definition is_punctuation (c : code_unit) : bool :=
  bool_decide (c ∈ js "!#%&'()*,-./:;?@[\]_{}" ++ dquote).

(** The record before classification: the copy with the two cleaned
    fields and the default trip type. *)
Definition cleaned (flightObj : object) : object :=
  <[js "tripType" := one_way]>
    (<[js "ticketNumber" := cleanTicketNumber (flightObj !! js "ticketNumber")]>
       (<[js "passengerName" := cleanNameAllCaps (flightObj !! js "passengerName")]>
          flightObj)).

(** ** A sample environment

    Instances of what the server takes from outside, for running the
    server on concrete requests. [lower_latin1] is [toLowerCase] on the
    code units U+0000..U+00FF: A-Z and the capitals U+00C0..U+00DE go to
    their small letters; it is used on such strings only. *)
Definition lower_code_unit (c : code_unit) : code_unit :=
  if in_range 65 90 c then (c + 32)%N
  else if (in_range 192 222 c && negb (N.eqb c 215))%bool then (c + 32)%N
  else c.

Definition lower_latin1 (s : jsstring) : jsstring := lower_code_unit <$> s.

(** A flight as a model may return it for a document that names no
    origin: [overallFrom] is null, yet a return date is given. *)
Definition flight_without_origin : object :=
  <[js "type" := VStr (js "flight")]>
  (<[js "overallFrom" := VNull]>
  (<[js "overallTo" := VStr (js "PARIS")]>
  (<[js "tripType" := round_trip]>
  (<[js "returnDate" := VStr (js "2024-05-01")]> ∅)))).

(** London to Paris and back. *)
Definition flight_london_paris : object :=
  <[js "type" := VStr (js "flight")]>
  (<[js "overallFrom" := VStr (js "LONDON")]>
  (<[js "overallTo" := VStr (js "PARIS")]>
  (<[js "tripType" := VNull]>
  (<[js "returnDate" := VStr (js "2024-05-01")]> ∅)))).

Definition text_one_way : jsstring :=
  js "Flight from LONDON to PARIS on 2024-04-20, seat 12A".

Definition text_round_trip : jsstring :=
  js "Outbound LONDON to PARIS 2024-04-20. Return PARIS to LONDON 2024-05-01".

(** ** The validator, in the words of the specification *)

(** The required keys of a type tag. *)
Definition required_keys (tag : jsstring) : list jsstring :=
  if bool_decide (tag = js "flight") then flight_keys
  else if bool_decide (tag = js "hotel") then hotel_keys
  else [].

(** A hotel record as a model may return it, with two of its keys. *)
Definition hotel_partial : object :=
  <[js "type" := VStr (js "hotel")]>
  (<[js "hotelName" := VStr (js "Grand Plaza")]> ∅).

(** [JSON.stringify] and [JSON.parse] for the sample requests: the first
    answers with a fixed text, the second knows one document, the hotel
    object below, and rejects every other text. *)
Definition stringify_sample (v : value) : jsstring := js "{...}".

Definition hotel_json : jsstring :=
  js "{" ++ dquote ++ js "type" ++ dquote ++ js ":" ++ dquote ++ js "hotel" ++ dquote ++ js "}".

Definition hotel_parsed : value := VObj {[ js "type" := VStr (js "hotel") ]}.

Definition parse_sample (s : jsstring) : option value :=
  if bool_decide (s = hotel_json) then Some hotel_parsed else None.

(** A reply that wraps the object in a fence and in prose. *)
Definition fenced_reply : jsstring :=
  js "Here is the result:
```json
" ++ hotel_json ++ js "
```
Thanks!".

(** ** What the matcher computes on the literals of the source *)

(** The length of the longest prefix of [s] in the class [p]. *)
Fixpoint run_length (p : code_unit → bool) (s : jsstring) : nat :=
  match s with
  | c :: s' => if p c then S (run_length p s') else O
  | [] => O
  end.

(** [s] starts with [l], in either case of each letter. *)
Fixpoint ci_prefix (l s : jsstring) : bool :=
  match l, s with
  | [], _ => true
  | x :: l', y :: s' => (N.eqb (fold_case y) (fold_case x) && ci_prefix l' s')%bool
  | _ :: _, [] => false
  end.

(** The code unit before the position, after [consumed] was read. *)
Definition prev_after (prev : option code_unit) (consumed : jsstring) : option code_unit :=
  match last consumed with
  | Some c => Some c
  | None => prev
  end.

(** One for a full stop at the head of [s], zero otherwise. *)
Definition stop_here (s : jsstring) : nat :=
  match s with
  | c :: _ => if N.eqb full_stop c then 1%nat else 0%nat
  | [] => 0%nat
  end.

(** What [\b\.?] makes of a position behind a word character. *)
Definition after_word (s : jsstring) (n : nat) : option nat :=
  if word_here s then None else Some (n + stop_here s)%nat.

(** The match of one alternative of [re_honorific] at the head of [s]. *)
Definition honorific_at (l s : jsstring) : option nat :=
  if ci_prefix l s then after_word (drop (length l) s) (length l) else None.

(** The provider answers with the fenced reply; the OCR engine reads one
    line; the clock advances by a second per reading. *)
Definition chat_sample (prompt : jsstring) : chat_reply := ChatContent fenced_reply.

Definition recognize_sample (p : jsstring) : Result jsstring :=
  Ok (js "Grand Plaza, invoice 4711").

Definition now_sample (n : nat) : Z := 1000 * Z.of_nat n.

(** A recorder that works, and one whose first insertion fails. *)
Definition insert_works (n : nat) : option error := None.

Definition insert_fails_once (n : nat) : option error :=
  match n with
  | O => Some (Err RecorderError (js "database is locked"))
  | S _ => None
  end.

Definition world0 : world := World [] 0 0 [].

Definition request_hotel : extract_request :=
  ExtractRequest (Some (VStr (js "Grand Plaza, invoice 4711"))) None.

Definition request_empty : extract_request := ExtractRequest None None.

(** The two routes on the sample environment, for a given recorder. *)
Definition serve_sample (recorder : nat → option error) : request → M response :=
  serve lower_latin1 parse_sample stringify_sample (js "openai") (js "gpt-4o-mini")
    (js "Now extract from this document: ") chat_sample recognize_sample now_sample
    recorder.

Definition extraction_sample : value → Result value :=
  extraction lower_latin1 parse_sample stringify_sample
    (js "Now extract from this document: ") chat_sample.

(** ** The routes, in the words of the specification *)

Section Attempt.

Variable toLowerCase : jsstring → jsstring.
Variable JSON_parse : jsstring → option value.
Variable JSON_stringify : value → jsstring.
Variable PROMPT_HEAD : jsstring.
Variable chat : jsstring → chat_reply.
Variable recognize : jsstring → Result jsstring.

(** The extraction attempt of a request, the recorder left aside: [None]
    when the input checks turn the request away, otherwise the outcome
    of the pipeline (for a file, OCR first). *)
Definition attempt (r : request) : option (Result value) :=
  match r with
  | PostExtract req =>
      let inputText := nullish_or (body_text req) (VStr []) in
      if truthy inputText then
        Some (extraction toLowerCase JSON_parse JSON_stringify PROMPT_HEAD chat inputText)
      else None
  | PostExtractFile None => None
  | PostExtractFile (Some f) =>
      if starts_with (js "image/") (mimetype f) then
        Some (ocrText ← recognize (path f);
              extraction toLowerCase JSON_parse JSON_stringify PROMPT_HEAD chat
                (VStr ocrText))
      else None
  end.

End Attempt.

(** What a route does with an attempt [a], from a world [w] and for a
    recorder whose calls end as [recorder] says. *)
Inductive served (recorder : nat → option error) (w : world)
    (a : option (Result value)) : Result response * world → Prop :=
| Rejected (msg : jsstring) (w' : world) :
    a = None →
    db w' = db w →
    served recorder w a (Ok (Response 400 (error_body msg)), w')
| Succeeded (data : value) (stored : eval_run) (w' : world) :
    a = Some (Ok data) →
    recorder (inserts w) = None →
    db w' = db w ++ [stored] →
    run_success stored = 1 →
    served recorder w a (Ok (Response 200 (ok_body data)), w')
| Failed (e : error) (stored : eval_run) (w' : world) :
    a = Some (Throw e) →
    recorder (inserts w) = None →
    db w' = db w ++ [stored] →
    run_success stored = 0 →
    run_parse_error stored = VStr (message e) →
    served recorder w a (Ok (Response 500 (error_body (message e))), w')
| Unrecorded (data : value) (e : error) (stored : eval_run) (w' : world) :
    a = Some (Ok data) →
    recorder (inserts w) = Some e →
    recorder (S (inserts w)) = None →
    db w' = db w ++ [stored] →
    run_success stored = 0 →
    run_parse_error stored = VStr (message e) →
    served recorder w a (Ok (Response 500 (error_body (message e))), w')
| EscapedFailure (e0 e : error) (w' : world) :
    a = Some (Throw e0) →
    recorder (inserts w) = Some e →
    db w' = db w →
    served recorder w a (Throw e, w')
| EscapedSuccess (data : value) (e1 e : error) (w' : world) :
    a = Some (Ok data) →
    recorder (inserts w) = Some e1 →
    recorder (S (inserts w)) = Some e →
    db w' = db w →
    served recorder w a (Throw e, w').

(** A response of success: status 200, [ok] true, and the data. *)
Definition success_response (resp : response) : Prop :=
  status resp = 200
  ∧ props_of (body resp) !! js "ok" = Some (VBool true)
  ∧ (∃ data, props_of (body resp) !! js "data" = Some data)
  ∧ props_of (body resp) !! js "error" = None.

(** A response of failure: status 400 or 500 and one message, without a
    flag [ok] and without data. *)
Definition failure_response (resp : response) : Prop :=
  (status resp = 400 ∨ status resp = 500)
  ∧ (∃ msg, props_of (body resp) !! js "error" = Some (VStr msg))
  ∧ props_of (body resp) !! js "ok" = None
  ∧ props_of (body resp) !! js "data" = None.

(** ** Further samples *)

(** A value that is truthy and has no [toLowerCase]: a number, a
    boolean, an array or an object. *)
Definition not_a_string (v : value) : Prop :=
  truthy v = true ∧ ∀ s, v ≠ VStr s.

(** The flight from London to Paris after completion. *)
Definition flight_complete : object := fill_missing flight_keys flight_london_paris.

(** A flight whose origin came back as the number one. *)
Definition flight_numeric_origin : object :=
  <[js "type" := VStr (js "flight")]>
  (<[js "overallFrom" := VNum (S754_finite false 1 0)]>
  (<[js "overallTo" := VStr (js "PARIS")]> ∅)).

(** The uploaded file that a request leaves in the uploads directory. *)
Definition uploads_of (r : request) : list jsstring :=
  match r with
  | PostExtractFile (Some f) =>
      match path f with
      | [] => []
      | p => [p]
      end
  | _ => []
  end.

Definition request_numeric_text : extract_request :=
  ExtractRequest (Some (VNum (S754_finite false 5 0))) None.

(** A provider that reports an error, whatever the prompt. *)
Definition chat_overloaded (prompt : jsstring) : chat_reply :=
  ChatError (js "Rate limit reached").

Definition upload_sample : upload :=
  Upload (js "uploads/3f9a") (js "receipt.png") (js "image/png").

(** ** Shapes of cleaned strings *)

(** No two neighbours of [l] are both in the class [p]. *)
Fixpoint no_double (p : code_unit → bool) (l : jsstring) : bool :=
  match l with
  | a :: l' =>
      (negb (p a && match l' with b :: _ => p b | [] => false end)
       && no_double p l')%bool
  | [] => true
  end.

(** [l] is empty, or begins and ends outside the class [p]. *)
Definition ends_outside (p : code_unit → bool) (l : jsstring) : Prop :=
  match l with
  | [] => True
  | a :: _ => p a = false ∧ ∃ b, last l = Some b ∧ p b = false
  end.

(** Each run of the class [p] becomes the one code unit [by_]; [in_run]
    says that the code unit before was in the class. *)
Fixpoint squeeze (p : code_unit → bool) (by_ : code_unit) (in_run : bool)
    (s : jsstring) : jsstring :=
  match s with
  | [] => []
  | c :: s' =>
      if p c then
        if in_run then squeeze p by_ true s' else by_ :: squeeze p by_ true s'
      else c :: squeeze p by_ false s'
  end.

(** The text of a cleaned value: empty for null. *)
Definition text_of (v : value) : jsstring :=
  match v with
  | VStr s => s
  | _ => []
  end.

(** The code units of a cleaned name: the capitals A-Z, the Latin-1
    capitals U+00C0..U+00DE (the sign U+00D7 is among them), the sign
    U+00F7, U+0178, the space, the apostrophe and the hyphen. *)
Definition cleaned_name_char (c : code_unit) : bool :=
  (in_range 65 90 c || in_range 192 222 c || N.eqb c 247 || N.eqb c 376
   || N.eqb c 32 || N.eqb c 39 || N.eqb c 45)%bool.

(** ** Text of a PDF, as the batch runner reads it *)

Definition newline : code_unit := 10%N.

(** The class of [/[ \t]+/g]. *)
Definition is_blank (c : code_unit) : bool := (N.eqb c 32 || N.eqb c 9)%bool.

(** Every run of the class [p] in [l] is shorter than [n]. *)
Fixpoint runs_below (p : code_unit → bool) (n : nat) (l : jsstring) : bool :=
  match l with
  | [] => true
  | _ :: l' => ((run_length p l <? n)%nat && runs_below p n l')%bool
  end.

(** [Array.prototype.join] on strings. *)
Fixpoint join (sep : jsstring) (l : list jsstring) : jsstring :=
  match l with
  | [] => []
  | x :: l' =>
      match l' with
      | [] => x
      | _ :: _ => x ++ sep ++ join sep l'
      end
  end.

(** [it && typeof it.str === "string" ? it.str : ""] *)
Definition str_of_item (it : value) : jsstring :=
  match it with
  | VObj props =>
      match props !! js "str" with
      | Some (VStr s) => s
      | _ => []
      end
  | _ => []
  end.

(** [extractTextFromPdf] of the batch runner, on the text items of the
    pages of the document: the items of a page are joined by a space,
    each page is followed by two line feeds, and the whole is cleaned
    by the three replacements and the trim that [normalizeText] has
    too. *)
Definition extractTextFromPdf (pages : list (list value)) : jsstring :=
  let fullText :=
    foldl (fun fullText items =>
             fullText ++ join (js " ") (str_of_item <$> items) ++ [newline; newline])
          [] pages in
  trim
    (replace_all re_newlines [newline; newline]
       (replace_all re_blanks (js " ")
          (replace_all re_nbsp (js " ") fullText))).

(** [normalized] in [onPickFile] of the web client: the same cleaning,
    on the text that the client has read from the pages. *)
Definition normalized (text : jsstring) : jsstring :=
  trim
    (replace_all re_newlines [newline; newline]
       (replace_all re_blanks (js " ")
          (replace_all re_nbsp (js " ") text))).

(** A text with a no-break space, tabs, a run of four line feeds and
    white space at both ends. *)
Definition text_ragged : jsstring :=
  ([32; 9] ++ js "Flight" ++ [160; 9; 32] ++ js "BA117" ++ [10; 10; 10; 10]
   ++ js "London  to   Paris" ++ [9; 10])%N.

(** ** Code fences *)

Definition backtick : code_unit := 96%N.

(** The fence [```]. *)
Definition fence : jsstring := [backtick; backtick; backtick].

(** ** The web client *)

(** What [fetch] resolves to, as the client reads it: [r.status],
    [r.statusText], and the text of the body (the empty string when
    [r.text()] rejects). *)
Record http_reply := HttpReply {
  reply_status : Z;
  reply_statusText : jsstring;
  reply_text : jsstring
}.

(** [r.ok] *)
Definition reply_ok (r : http_reply) : bool :=
  ((200 <=? reply_status r) && (reply_status r <=? 299))%bool.

(** ToBoolean of a property read ([None] is [undefined]). *)
Definition truthy_prop (v : option value) : bool :=
  match v with
  | Some x => truthy x
  | None => false
  end.

Section Client.

Variable JSON_parse : jsstring → option value.

(** [String(v)] for a value that is not a string, and the decimal of a
    status. *)
Variable ToString : value → jsstring.
Variable Number_toString : Z → jsstring.

(** The message of [new Error(v)]. *)
Definition error_message (v : value) : jsstring :=
  match v with
  | VStr s => s
  | _ => ToString v
  end.

(** What [callTextExtraction] and [callFileOcrExtraction] do with the
    reply of their [fetch]; they differ in the message [failed] only.
    [inl] is the message of the error thrown, [inr] the value returned. *)
Definition read_reply (failed : jsstring) (r : http_reply) : jsstring + value :=
  let data :=
    if truthy (VStr (reply_text r)) then
      match JSON_parse (reply_text r) with
      | Some v => v
      | None => VNull
      end
    else VNull in
  if negb (reply_ok r) then
    inl (error_message
           (nullish_or (props_of data !! js "error")
              (VStr (js "HTTP " ++ Number_toString (reply_status r) ++ js " "
                     ++ reply_statusText r))))
  else if negb (truthy_prop (props_of data !! js "ok")) then
    inl (error_message (nullish_or (props_of data !! js "error") (VStr failed)))
  else
    match props_of data !! js "data" with
    | None | Some VNull => inl (js "Backend returned invalid data (missing type)")
    | Some d =>
        let type := props_of d !! js "type" in
        if (negb (truthy_prop type)
            || negb (is_string type (js "flight") || is_string type (js "hotel")))%bool
        then inl (js "Backend returned invalid data (missing type)")
        else inr d
    end.

Definition callTextExtraction (r : http_reply) : jsstring + value :=
  read_reply (js "Extraction failed") r.

Definition callFileOcrExtraction (r : http_reply) : jsstring + value :=
  read_reply (js "OCR extraction failed") r.

End Client.

(** A reply that carries the response of the server: its status, and a
    text that the client's [JSON.parse] reads as its body. *)
Definition carries (parse : jsstring → option value) (rep : http_reply)
    (resp : response) : Prop :=
  reply_status rep = status resp
  ∧ reply_text rep ≠ []
  ∧ parse (reply_text rep) = Some (body resp).

(** The reply to the sample request, and a [JSON.parse] that knows its
    text. *)
Definition quoted (s : jsstring) : jsstring := dquote ++ s ++ dquote.

Definition reply_sample : http_reply :=
  HttpReply 200 (js "OK")
    (js "{" ++ quoted (js "ok") ++ js ":true," ++ quoted (js "data") ++ js ":{"
     ++ quoted (js "type") ++ js ":" ++ quoted (js "hotel") ++ js ","
     ++ join (js ",") ((fun k => quoted k ++ js ":null") <$> hotel_keys) ++ js "}}").

Definition parse_reply_sample (s : jsstring) : option value :=
  if bool_decide (s = reply_text reply_sample)
  then Some (ok_body (ensureRequiredKeys hotel_parsed))
  else None.

(** ** Cleaned fields *)

(** The values that a cleaned passenger name can have. *)
Definition clean_name (v : value) : Prop :=
  v = VNull
  ∨ ∃ d, v = VStr d
         ∧ d ≠ []
         ∧ Forall (fun c => cleaned_name_char c = true) d
         ∧ no_double is_space d = true
         ∧ ends_outside is_space d.

(** The values that a cleaned ticket number can have. *)
Definition clean_ticket (v : value) : Prop :=
  v = VNull
  ∨ ∃ d, v = VStr d
         ∧ d ≠ []
         ∧ Forall (fun c => is_digit c = true ∨ c = space) d
         ∧ no_double is_space d = true
         ∧ ends_outside is_space d.

(** A flight as a model may return it, with a name and a ticket number
    that need cleaning; the text of that answer, and a [JSON.parse] and
    a provider that know it. *)
Definition flight_raw : object :=
  <[js "passengerName" := VStr (js "Mr. John O'Neil 2nd")]>
  (<[js "ticketNumber" := VStr (js "ETKT 125-2345678901")]> flight_london_paris).

Definition member (k v : jsstring) : jsstring := quoted k ++ js ":" ++ v.

Definition flight_json : jsstring :=
  js "{"
  ++ join (js ",")
       [member (js "type") (quoted (js "flight"));
        member (js "passengerName") (quoted (js "Mr. John O'Neil 2nd"));
        member (js "ticketNumber") (quoted (js "ETKT 125-2345678901"));
        member (js "overallFrom") (quoted (js "LONDON"));
        member (js "overallTo") (quoted (js "PARIS"));
        member (js "tripType") (js "null");
        member (js "returnDate") (quoted (js "2024-05-01"))]
  ++ js "}".

Definition parse_flight_sample (s : jsstring) : option value :=
  if bool_decide (s = flight_json) then Some (VObj flight_raw) else None.

Definition chat_flight_sample (prompt : jsstring) : chat_reply := ChatContent flight_json.

(** What the pipeline makes of it for the text of the round trip. *)
Definition flight_served : value :=
  VObj (<[js "tripType" := round_trip]>
          (<[js "ticketNumber" := VStr (js "125 2345678901")]>
             (<[js "passengerName" := VStr (js "JOHN O'NEIL ND")]>
                (fill_missing flight_keys flight_raw)))).

(** ** The batch runner *)

(** [x || d] on a property read. *)
Definition truthy_or (x : option value) (d : value) : value :=
  match x with
  | Some v => if truthy v then v else d
  | None => d
  end.

(** The line that [main] prints for a file. *)
Inductive batch_line :=
| LineSkip
| LineOk
| LineFail (msg : jsstring).

Section Batch.

Variable JSON_parse : jsstring → option value.
Variable ToString : value → jsstring.
Variable Number_toString : Z → jsstring.

(** [fetch] on the route [/api/extract], for the body that holds [text]
    and [source_file]: the reply, or the error it rejects with. *)
Variable fetch : extract_request → Result http_reply.

(** [postExtract]: [inl] is the message of the error thrown, [inr] the
    value returned ([None] is [undefined]). *)
Definition postExtract (text source_file : jsstring) : jsstring + option value :=
  match fetch (ExtractRequest (Some (VStr text)) (Some (VStr source_file))) with
  | Throw e => inl (message e)
  | Ok r =>
      let data :=
        match JSON_parse (reply_text r) with
        | Some v => v
        | None => VObj ∅
        end in
      if (negb (reply_ok r) || negb (truthy_prop (props_of data !! js "ok")))%bool then
        inl (error_message ToString
               (truthy_or (props_of data !! js "error")
                  (VStr (js "HTTP " ++ Number_toString (reply_status r)))))
      else inr (props_of data !! js "data")
  end.

(** One turn of the loop of [main], on what [extractTextFromPdf] gave
    for the file. *)
Definition batch_file (extracted : Result jsstring) (fileName : jsstring) : batch_line :=
  match extracted with
  | Throw e => LineFail (message e)
  | Ok text =>
      if (negb (truthy (VStr text)) || (Z.of_nat (length text) <? 40))%bool then LineSkip
      else
        match postExtract text fileName with
        | inl msg => LineFail msg
        | inr _ => LineOk
        end
  end.

End Batch.

(** A transport that answers every request with the sample reply. *)
Definition fetch_sample (req : extract_request) : Result http_reply := Ok reply_sample.

(** ** Further samples for the trip classifier and the decoder *)





(** * Properties *)

(** ** Occurrences and [indexOf] *)

Lemma starts_with_app (a s : jsstring) :
  starts_with a s = true ↔ ∃ post, s = a ++ post.
Proof.
  revert s. induction a as [|x a IH]; intros s; simpl.
  - split; [intros _; by exists s | done].
  - destruct s as [|y s]; simpl.
    + split; [done | intros [post H]; discriminate].
    + rewrite andb_true_iff, N.eqb_eq, IH. split.
      * intros [-> [post ->]]. by exists post.
      * intros [post H]. injection H as -> ->. eauto.
Qed.

Lemma occurs_at_drop (t a : jsstring) (p : Z) :
  occurs_at t a p ↔
  0 ≤ p ≤ Z.of_nat (length t) ∧ starts_with a (drop (Z.to_nat p) t) = true.
Proof.
  unfold occurs_at. rewrite starts_with_app. split.
  - intros (pre & post & -> & <-). rewrite Nat2Z.id, drop_app_length.
    rewrite length_app. split; [lia | by exists post].
  - intros [Hp [post Hpost]].
    exists (take (Z.to_nat p) t), post. split.
    + by rewrite <- Hpost, take_drop.
    + rewrite length_take. lia.
Qed.

Lemma occurs_at_bound (t a : jsstring) (p : Z) :
  occurs_at t a p → 0 ≤ p ∧ p + Z.of_nat (length a) ≤ Z.of_nat (length t).
Proof.
  intros (pre & post & -> & <-). rewrite !length_app. lia.
Qed.

Lemma find_from_Some (a s : jsstring) (i k : nat) :
  find_from a s i = Some k →
  (i ≤ k ≤ i + length s)%nat
  ∧ starts_with a (drop (k - i) s) = true
  ∧ ∀ j, (j < k - i)%nat → starts_with a (drop j s) = false.
Proof.
  revert i. induction s as [|c s IH]; intros i; simpl.
  - destruct (starts_with a []) eqn:E; [|done].
    intros [= <-]. rewrite Nat.sub_diag. simpl. repeat split; [lia | lia | done | lia].
  - destruct (starts_with a (c :: s)) eqn:E.
    + intros [= <-]. rewrite Nat.sub_diag. simpl. repeat split; [lia | lia | done | lia].
    + intros H. apply IH in H as (Hk & Hs & Hj).
      replace (k - i)%nat with (S (k - S i)) by lia. simpl.
      repeat split; [lia | lia | done |].
      intros [|j] Hlt; simpl; [done | apply Hj; lia].
Qed.

Lemma find_from_None (a s : jsstring) (i : nat) :
  find_from a s i = None →
  ∀ j, (j ≤ length s)%nat → starts_with a (drop j s) = false.
Proof.
  revert i. induction s as [|c s IH]; intros i; simpl.
  - destruct (starts_with a []) eqn:E; [done|].
    intros _ j Hj. by rewrite drop_nil.
  - destruct (starts_with a (c :: s)) eqn:E; [done|].
    intros H [|j] Hj; simpl; [done|]. eapply IH; [done | lia].
Qed.

Lemma indexOf_found (t a : jsstring) (pos : Z) :
  indexOf t a pos ≠ -1 → first_occurrence t a (clamp t pos) (indexOf t a pos).
Proof.
  unfold indexOf, first_occurrence. fold (clamp t pos).
  assert (0 ≤ clamp t pos ≤ Z.of_nat (length t)) as Hc by (unfold clamp; lia).
  destruct (find_from _ _ _) as [k|] eqn:E; [intros _ | done].
  apply find_from_Some in E as (Hk & Hs & Hj).
  rewrite length_drop in Hk. rewrite drop_drop in Hs.
  split; [lia|]. split.
  - apply occurs_at_drop. rewrite Nat2Z.id. split; [lia|].
    by replace k with (Z.to_nat (clamp t pos) + (k - Z.to_nat (clamp t pos)))%nat by lia.
  - intros j Hjr [_ Hocc]%occurs_at_drop.
    specialize (Hj (Z.to_nat j - Z.to_nat (clamp t pos))%nat ltac:(lia)).
    rewrite drop_drop in Hj.
    replace (Z.to_nat (clamp t pos) + (Z.to_nat j - Z.to_nat (clamp t pos)))%nat
      with (Z.to_nat j) in Hj by lia.
    congruence.
Qed.

Lemma indexOf_none (t a : jsstring) (pos : Z) :
  indexOf t a pos = -1 → ∀ j, clamp t pos ≤ j → ¬ occurs_at t a j.
Proof.
  unfold indexOf. fold (clamp t pos).
  assert (0 ≤ clamp t pos ≤ Z.of_nat (length t)) as Hc by (unfold clamp; lia).
  destruct (find_from _ _ _) as [k|] eqn:E; [lia | intros _].
  intros j Hj [Hb Hocc]%occurs_at_drop.
  pose proof (find_from_None _ _ _ E (Z.to_nat j - Z.to_nat (clamp t pos))%nat) as H.
  rewrite length_drop, drop_drop in H.
  replace (Z.to_nat (clamp t pos) + (Z.to_nat j - Z.to_nat (clamp t pos)))%nat
    with (Z.to_nat j) in H by lia.
  rewrite H in Hocc; [done | lia].
Qed.

Lemma first_occurrence_unique (t a : jsstring) (from k k' : Z) :
  first_occurrence t a from k → first_occurrence t a from k' → k = k'.
Proof.
  intros (H1 & H2 & H3) (H1' & H2' & H3').
  destruct (Z.lt_trichotomy k k') as [Hlt | [-> | Hlt]]; [|done|].
  - destruct (H3' k); [lia | done].
  - destruct (H3 k'); [lia | done].
Qed.

(** The search finds an occurrence exactly when there is one. *)
Lemma indexOf_first (t a : jsstring) (pos k : Z) :
  0 ≤ pos → first_occurrence t a pos k → indexOf t a pos = k.
Proof.
  intros Hpos Hk.
  assert (occurs_at t a k) as Hocc by apply Hk.
  pose proof (occurs_at_bound _ _ _ Hocc) as Hb.
  destruct (decide (indexOf t a pos = -1)) as [E|E].
  - destruct (indexOf_none _ _ _ E k); [unfold clamp; destruct Hk; lia | done].
  - apply indexOf_found in E.
    assert (clamp t pos = pos) as Hcl by (unfold clamp; destruct Hk; lia).
    rewrite Hcl in E. eapply first_occurrence_unique; eauto.
Qed.

(** ** The two checks of the scan *)


Lemma run_Chr_here (q : code_unit → bool) (prev : option code_unit) (s : jsstring) :
  match_here (Chr q) prev s =
  match s with
  | c :: _ => if q c then Some 1%nat else None
  | [] => None
  end.
Proof. by destruct s. Qed.





(** ** The scan *)



(** The iterations given to the loop are never used up. *)
Lemma scan_budget (t a b : jsstring) (budget : nat) (c : Z) :
  a ≠ [] → 0 ≤ c → (length t - Z.to_nat c < budget)%nat →
  scanReturnLeg budget t a b c ≠ None.
Proof.
  intros Ha. revert c.
  induction budget as [|budget IH]; intros c Hc Hbud; [lia|].
  simpl.
  destruct (Z.eqb_spec (indexOf t a c) (-1)) as [|E]; [done|].
  apply indexOf_found in E as (Hge & Hocc' & _).
  pose proof (occurs_at_bound _ _ _ Hocc') as Hb.
  assert (0 < length a)%nat by (destruct a; [done | simpl; lia]).
  destruct (negb _ && _)%bool; [done|].
  apply IH; unfold clamp in Hge; lia.
Qed.

(** ** Flight post-processing *)

Lemma bind_Ok {A B} (a : A) (f : A → Result B) : (Ok a ≫= f) = f a.
Proof. reflexivity. Qed.

Lemma bind_Throw {A B} (e : error) (f : A → Result B) : (Throw e ≫= f) = Throw e.
Proof. reflexivity. Qed.

Ltac key_ne := let H := fresh in intro H; vm_compute in H; discriminate H.

Section PostProcess.

Variable toLowerCase : jsstring → jsstring.

Lemma lower_or_empty_str (s : jsstring) :
  lower_or_empty toLowerCase (Some (VStr s)) = Ok (toLowerCase s).
Proof. by destruct s. Qed.

Lemma postProcessFlight_cities (flightObj : object) (text from to : jsstring) :
  flightObj !! js "overallFrom" = Some (VStr from) →
  flightObj !! js "overallTo" = Some (VStr to) →
  toLowerCase from ≠ [] → toLowerCase to ≠ [] →
  postProcessFlight toLowerCase flightObj (VStr text) =
  let t := toLowerCase text in
  let a := toLowerCase from in
  let b := toLowerCase to in
  let idxA := indexOf t a 0 in
  let idxB := indexOf t b idxA in
  if (negb (idxA =? -1) && negb (idxB =? -1))%bool then
    match scanReturnLeg (S (length t)) t a b idxB with
    | Some (Some _) => Ok (<[js "tripType" := round_trip]> (cleaned flightObj))
    | Some None => Ok (<[js "returnDate" := VNull]> (cleaned flightObj))
    | None => Throw (Err BudgetExhausted [])
    end
  else Ok (<[js "returnDate" := VNull]> (cleaned flightObj)).
Proof.
  intros Hfrom Hto Ha Hb. unfold postProcessFlight.
  rewrite lower_or_empty_str.
  rewrite !lookup_insert_ne by key_ne.
  rewrite Hfrom, Hto, !lower_or_empty_str, !bind_Ok.
  destruct (toLowerCase from) as [|x a] eqn:Ea; [exfalso; by apply Ha|].
  destruct (toLowerCase to) as [|y b] eqn:Eb; [exfalso; by apply Hb|].
  cbn [truthy negb orb]. reflexivity.
Qed.

Lemma cleaned_frame (flightObj : object) (k : jsstring) :
  k ∉ [js "passengerName"; js "ticketNumber"; js "tripType"] →
  cleaned flightObj !! k = flightObj !! k.
Proof.
  intros Hk. repeat (apply not_elem_of_cons in Hk as [? Hk]).
  unfold cleaned. rewrite !lookup_insert_ne by congruence. reflexivity.
Qed.

(** Every way out of [postProcessFlight]: what it returns is the cleaned
    record, classified round-trip, or one-way with or without the return
    date reset. *)
Lemma postProcessFlight_Ok (flightObj : object) (originalText : value) (out : object) :
  postProcessFlight toLowerCase flightObj originalText = Ok out →
  out = <[js "tripType" := round_trip]> (cleaned flightObj)
  ∨ out = <[js "returnDate" := VNull]> (cleaned flightObj)
  ∨ out = cleaned flightObj.
Proof.
  unfold postProcessFlight, cleaned.
  rewrite !lookup_insert_ne by key_ne.
  destruct (lower_or_empty _ (Some originalText)) as [t|];
    [rewrite bind_Ok; cbv beta | rewrite bind_Throw; discriminate].
  destruct (lower_or_empty _ (_ !! js "overallFrom")) as [a|];
    [rewrite bind_Ok; cbv beta | rewrite bind_Throw; discriminate].
  destruct (lower_or_empty _ (_ !! js "overallTo")) as [b|];
    [rewrite bind_Ok; cbv beta | rewrite bind_Throw; discriminate].
  destruct (negb (truthy (VStr a)) || negb (truthy (VStr b)))%bool;
    [intros [= <-]; auto|].
  destruct (negb (indexOf t a 0 =? -1) && _)%bool; [|intros [= <-]; auto].
  destruct (scanReturnLeg _ _ _ _ _) as [[p|]|]; [| |discriminate]; intros [= <-]; auto.
Qed.

(** C10: the record returned by [postProcessFlight] has tripType
    "one_way" or "round_trip", and every field other than passengerName,
    ticketNumber, tripType and returnDate is as in the input. *)
Theorem postProcessFlight_frame
    (flightObj : object) (originalText : value) (out : object) :
  postProcessFlight toLowerCase flightObj originalText = Ok out →
  (out !! js "tripType" = Some one_way ∨ out !! js "tripType" = Some round_trip)
  ∧ ∀ k, k ∉ [js "passengerName"; js "ticketNumber"; js "tripType"; js "returnDate"] →
         out !! k = flightObj !! k.
Proof.
  intros H.
  assert (∀ k, k ∉ [js "passengerName"; js "ticketNumber"; js "tripType"; js "returnDate"] →
               k ≠ js "returnDate" ∧ cleaned flightObj !! k = flightObj !! k) as Hframe.
  { intros k Hk. split.
    - intros ->. apply Hk. repeat constructor.
    - apply cleaned_frame. intros Hin. apply Hk.
      repeat (apply elem_of_cons in Hin as [->|Hin]; [repeat constructor|]).
      by apply elem_of_nil in Hin. }
  apply postProcessFlight_Ok in H as [-> | [-> | ->]].
  - split; [right; apply lookup_insert_eq|].
    intros k Hk. destruct (Hframe k Hk) as [_ <-].
    repeat (apply not_elem_of_cons in Hk as [? Hk]).
    rewrite lookup_insert_ne by congruence. reflexivity.
  - split; [left; rewrite lookup_insert_ne by key_ne; apply lookup_insert_eq|].
    intros k Hk. destruct (Hframe k Hk) as [? <-].
    rewrite lookup_insert_ne by congruence. reflexivity.
  - split; [left; apply lookup_insert_eq | apply Hframe].
Qed.

(** The record is returned whenever the two cities and the text are
    strings or absent: the method call on line 278 to 280 has a string to
    work on, and the loop ends. *)
Lemma postProcessFlight_returns (flightObj : object) (text from to : jsstring) :
  flightObj !! js "overallFrom" = Some (VStr from) →
  flightObj !! js "overallTo" = Some (VStr to) →
  ∃ out, postProcessFlight toLowerCase flightObj (VStr text) = Ok out.
Proof.
  intros Hfrom Hto.
  destruct (decide (toLowerCase from = [])) as [Ea|Ea];
    [|destruct (decide (toLowerCase to = [])) as [Eb|Eb]].
  - unfold postProcessFlight. rewrite !lookup_insert_ne by key_ne.
    rewrite Hfrom, Hto, !lower_or_empty_str, !bind_Ok, Ea.
    cbn [truthy negb orb]. eauto.
  - unfold postProcessFlight. rewrite !lookup_insert_ne by key_ne.
    rewrite Hfrom, Hto, !lower_or_empty_str, !bind_Ok, Eb.
    cbn [truthy negb]. rewrite orb_true_r. eauto.
  - rewrite (postProcessFlight_cities _ _ _ _ Hfrom Hto Ea Eb). cbv zeta.
    destruct (negb _ && negb _)%bool eqn:Hfound; [|eauto].
    apply andb_true_iff in Hfound as [_ HB%negb_true_iff%Z.eqb_neq].
    apply indexOf_found in HB as (HgeB & HoccB & _).
    pose proof (occurs_at_bound _ _ _ HoccB) as HbB.
    destruct (scanReturnLeg _ _ _ _ _) as [[p|]|] eqn:Hscan; [eauto | eauto |].
    apply scan_budget in Hscan; [done | done | lia | lia].
Qed.


Lemma forward_leg_missing (t a b : jsstring) (iA iB : Z) :
  (negb (indexOf t a 0 =? -1) && negb (indexOf t b (indexOf t a 0) =? -1))%bool = false →
  first_occurrence t a 0 iA → first_occurrence t b iA iB → False.
Proof.
  intros Hmiss HA HB.
  pose proof (indexOf_first _ _ _ _ (Z.le_refl 0) HA) as EA.
  assert (0 ≤ iA) as HiA by (destruct HA; lia).
  pose proof (indexOf_first _ _ _ _ HiA HB) as EB.
  assert (0 ≤ iB) as HiB by (destruct HB; lia).
  rewrite EA, EB in Hmiss.
  destruct (Z.eqb_spec iA (-1)); [lia|]. destruct (Z.eqb_spec iB (-1)); [lia|].
  discriminate.
Qed.



(** With both cities known the one-way record has no return date: the
    early return of line 285 is the one way around line 316. *)
Lemma one_way_null_when_cities_known
    (flightObj : object) (text from to : jsstring) (out : object) :
  flightObj !! js "overallFrom" = Some (VStr from) →
  flightObj !! js "overallTo" = Some (VStr to) →
  toLowerCase from ≠ [] →
  toLowerCase to ≠ [] →
  postProcessFlight toLowerCase flightObj (VStr text) = Ok out →
  out !! js "tripType" = Some one_way →
  out !! js "returnDate" = Some VNull.
Proof.
  intros Hfrom Hto Ha Hb.
  rewrite (postProcessFlight_cities _ _ _ _ Hfrom Hto Ha Hb). cbv zeta.
  destruct (negb _ && negb _)%bool;
    [destruct (scanReturnLeg _ _ _ _ _) as [[p|]|]; [| |discriminate]|];
    intros [= <-]; try (intros _; apply lookup_insert_eq).
  rewrite lookup_insert_eq. intros H. by vm_compute in H.
Qed.

End PostProcess.

(** ** The classifier on sample documents *)



(** C1: [postProcessFlight] on a flight whose origin is null: the record
    is returned by the early return of line 285, one-way, with the return
    date of the model still in it. *)
Lemma one_way_with_return_date :
  ∃ out, postProcessFlight lower_latin1 flight_without_origin (VStr text_one_way) = Ok out
         ∧ out !! js "tripType" = Some one_way
         ∧ out !! js "returnDate" = Some (VStr (js "2024-05-01")).
Proof.
  exists (cleaned flight_without_origin).
  split; [vm_compute; reflexivity|]. split; vm_compute; reflexivity.
Qed.

Lemma postProcessFlight_frame_witness :
  ∃ out, postProcessFlight lower_latin1 flight_london_paris (VStr text_round_trip) = Ok out
         ∧ (out !! js "tripType" = Some one_way ∨ out !! js "tripType" = Some round_trip)
         ∧ ∀ k, k ∉ [js "passengerName"; js "ticketNumber"; js "tripType"; js "returnDate"] →
                out !! k = flight_london_paris !! k.
Proof.
  exists (<[js "tripType" := round_trip]> (cleaned flight_london_paris)).
  assert (postProcessFlight lower_latin1 flight_london_paris (VStr text_round_trip)
          = Ok (<[js "tripType" := round_trip]> (cleaned flight_london_paris))) as H
    by (vm_compute; reflexivity).
  split; [exact H|].
  exact (postProcessFlight_frame lower_latin1 flight_london_paris _ _ H).
Defined.




(** ** Completion and validation *)

Lemma has_key_is_Some (k : jsstring) (obj : object) :
  has_key k obj = true ↔ is_Some (obj !! k).
Proof.
  unfold has_key. destruct (obj !! k); split; intros H; try done; by destruct H.
Qed.

Lemma fill_missing_lookup (keys : list jsstring) (obj : object) (k : jsstring) :
  fill_missing keys obj !! k =
  if decide (k ∈ keys) then Some (default VNull (obj !! k)) else obj !! k.
Proof.
  unfold fill_missing. revert obj.
  induction keys as [|k0 keys IH]; intros obj.
  - cbn [foldl]. destruct (decide (k ∈ [])) as [Hin|_]; [by apply elem_of_nil in Hin | done].
  - cbn [foldl]. rewrite IH.
    assert ((if has_key k0 obj then obj else <[k0:=VNull]> obj) !! k
            = if decide (k = k0) then Some (default VNull (obj !! k)) else obj !! k) as Hstep.
    { unfold has_key. destruct (decide (k = k0)) as [->|Hne].
      - destruct (obj !! k0) eqn:E; [by rewrite E | by rewrite lookup_insert_eq].
      - destruct (obj !! k0); [done | by rewrite lookup_insert_ne]. }
    rewrite Hstep.
    destruct (decide (k ∈ keys)) as [Hin|Hnin], (decide (k = k0)) as [->|Hne],
      (decide (_ ∈ k0 :: keys)) as [Hin'|Hnin'];
      try reflexivity; try (by destruct (obj !! k0)).
    all: try (exfalso; apply Hnin'; apply elem_of_cons; by auto).
    apply elem_of_cons in Hin' as [?|?]; done.
Qed.

Lemma first_missing_None (keys : list jsstring) (obj : object) :
  (∀ k, k ∈ keys → is_Some (obj !! k)) → first_missing keys obj = None.
Proof.
  induction keys as [|k keys IH]; intros Hall; [done|].
  cbn [first_missing].
  assert (has_key k obj = true) as ->
    by (apply has_key_is_Some, Hall, elem_of_cons; auto).
  apply IH. intros k' Hk'. apply Hall, elem_of_cons. auto.
Qed.

Lemma first_missing_fill (keys : list jsstring) (obj : object) :
  first_missing keys (fill_missing keys obj) = None.
Proof.
  apply first_missing_None. intros k Hk.
  rewrite fill_missing_lookup, decide_True by done. by eexists.
Qed.

Lemma fill_missing_keeps (keys : list jsstring) (obj : object) (k : jsstring) (v : value) :
  obj !! k = Some v → fill_missing keys obj !! k = Some v.
Proof.
  intros H. rewrite fill_missing_lookup, H. by destruct (decide _).
Qed.

Section Validation.

Variable JSON_stringify : value → jsstring.

Lemma assertValidOutput_flight (props : object) :
  props !! js "type" = Some (VStr (js "flight")) →
  first_missing flight_keys props = None →
  assertValidOutput JSON_stringify (VObj props) = Ok ().
Proof.
  intros Ht Hm. unfold assertValidOutput, type_of_record, props_of.
  rewrite Ht, Hm. reflexivity.
Qed.

Lemma assertValidOutput_hotel (props : object) :
  props !! js "type" = Some (VStr (js "hotel")) →
  first_missing hotel_keys props = None →
  assertValidOutput JSON_stringify (VObj props) = Ok ().
Proof.
  intros Ht Hm. unfold assertValidOutput, type_of_record, props_of.
  rewrite Ht, Hm. reflexivity.
Qed.

(** C7: for an object tagged flight or hotel, completion gives every
    missing required key of the tag the value null, leaves the other keys
    as they are, and the completed object passes validation; for an
    object whose type tag is neither flight nor hotel, validation throws
    a schema error. *)
Theorem completion_then_validation (obj : value) :
  (∀ props tag,
     obj = VObj props →
     props !! js "type" = Some (VStr tag) →
     tag ∈ [js "flight"; js "hotel"] →
     ∃ props',
       ensureRequiredKeys obj = VObj props'
       ∧ (∀ k, k ∈ required_keys tag → props' !! k = Some (default VNull (props !! k)))
       ∧ (∀ k, k ∉ required_keys tag → props' !! k = props !! k)
       ∧ assertValidOutput JSON_stringify (VObj props') = Ok ())
  ∧ ((∀ tag, type_of_record obj = Some (VStr tag) → tag ∉ [js "flight"; js "hotel"]) →
     ∃ msg, assertValidOutput JSON_stringify obj = Throw (Err SchemaError msg)).
Proof.
  split.
  - intros props tag -> Ht Htag.
    assert (tag = js "flight" ∨ tag = js "hotel") as [->| ->].
    { apply elem_of_cons in Htag as [?|Htag]; [by left|].
      apply elem_of_cons in Htag as [?|Htag]; [by right|]. by apply elem_of_nil in Htag. }
    + exists (fill_missing flight_keys props).
      unfold ensureRequiredKeys, is_string. rewrite Ht.
      rewrite bool_decide_eq_true_2 by reflexivity.
      change (required_keys (js "flight")) with flight_keys.
      split; [reflexivity|]. split; [|split].
      * intros k Hk. by rewrite fill_missing_lookup, decide_True.
      * intros k Hk. by rewrite fill_missing_lookup, decide_False.
      * apply assertValidOutput_flight; [by apply fill_missing_keeps|].
        apply first_missing_fill.
    + exists (fill_missing hotel_keys props).
      unfold ensureRequiredKeys, is_string. rewrite Ht.
      rewrite bool_decide_eq_false_2 by key_ne.
      rewrite bool_decide_eq_true_2 by reflexivity.
      change (required_keys (js "hotel")) with hotel_keys.
      split; [reflexivity|]. split; [|split].
      * intros k Hk. by rewrite fill_missing_lookup, decide_True.
      * intros k Hk. by rewrite fill_missing_lookup, decide_False.
      * apply assertValidOutput_hotel; [by apply fill_missing_keeps|].
        apply first_missing_fill.
  - intros Hout. unfold assertValidOutput.
    assert (is_string (type_of_record obj) (js "flight") = false
            ∧ is_string (type_of_record obj) (js "hotel") = false) as [-> ->].
    { unfold is_string.
      destruct (type_of_record obj) as [[| | |s| |]|] eqn:E; try (split; reflexivity).
      specialize (Hout s eq_refl).
      split; apply bool_decide_eq_false_2; intros ->; apply Hout.
      - apply list_elem_of_here.
      - apply list_elem_of_further, list_elem_of_here. }
    cbn [negb andb]. eauto.
Qed.

End Validation.

Lemma completion_then_validation_witness :
  ∃ props',
    ensureRequiredKeys (VObj hotel_partial) = VObj props'
    ∧ (∀ k, k ∈ required_keys (js "hotel") →
            props' !! k = Some (default VNull (hotel_partial !! k)))
    ∧ (∀ k, k ∉ required_keys (js "hotel") → props' !! k = hotel_partial !! k)
    ∧ assertValidOutput stringify_sample (VObj props') = Ok ().
Proof.
  destruct (completion_then_validation stringify_sample (VObj hotel_partial)) as [H _].
  apply (H hotel_partial (js "hotel")).
  - reflexivity.
  - vm_compute; reflexivity.
  - apply list_elem_of_further, list_elem_of_here.
Defined.

(** ** The decoder *)











(** ** The matcher on classes *)

Lemma replace_go_Chr (q : code_unit → bool) (by_ : jsstring)
    (prev : option code_unit) (s : jsstring) :
  replace_go (Chr q) by_ 0 prev s = s ≫= (fun c => if q c then by_ else [c]).
Proof.
  revert prev. induction s as [|c s IH]; intros prev; [done|].
  cbn [replace_go]. rewrite run_Chr_here, bind_cons.
  destruct (q c); rewrite IH; [done | reflexivity].
Qed.

Lemma replace_all_Chr_space (q : code_unit → bool) (s : jsstring) :
  replace_all (Chr q) (js " ") s = (fun c => if q c then space else c) <$> s.
Proof.
  unfold replace_all. rewrite replace_go_Chr.
  induction s as [|c s IH]; [done|].
  rewrite bind_cons, fmap_cons, IH. by destruct (q c).
Qed.

Lemma rep_class_greedy (p : code_unit → bool) (least : nat)
    (prev : option code_unit) (s : jsstring) (n : nat) :
  rep_class p least prev s n (fun _ _ m => Some m) =
  if decide (least ≤ run_length p s)%nat then Some (n + run_length p s)%nat else None.
Proof.
  revert least prev n. induction s as [|c s IH]; intros least prev n; cbn [rep_class run_length].
  - destruct least; cbn [Nat.eqb].
    + rewrite decide_True by lia. f_equal; lia.
    + rewrite decide_False by lia. done.
  - destruct (p c).
    + rewrite IH. destruct (decide (Nat.pred least ≤ run_length p s)%nat).
      * rewrite decide_True by lia. f_equal; lia.
      * rewrite decide_False by lia. destruct least; [lia | done].
    + destruct least; cbn [Nat.eqb].
      * rewrite decide_True by lia. f_equal; lia.
      * rewrite decide_False by lia. done.
Qed.

Lemma replace_go_skip (r : regex) (by_ u v : jsstring) (prev : option code_unit) :
  replace_go r by_ (length u) prev (u ++ v) = replace_go r by_ 0 (prev_after prev u) v.
Proof.
  revert prev. induction u as [|c u IH]; intros prev; [done|].
  cbn [length app replace_go]. rewrite IH. f_equal.
  unfold prev_after. rewrite last_cons. by destruct (last u).
Qed.

(** A replacement by the empty string only removes. *)
Lemma replace_go_remove_Forall (P : code_unit → Prop) (r : regex) (skip : nat)
    (prev : option code_unit) (s : jsstring) :
  Forall P s → Forall P (replace_go r [] skip prev s).
Proof.
  intros Hs. revert skip prev.
  induction Hs as [|c s Hc Hs IH]; intros skip prev.
  - destruct skip; cbn [replace_go]; [|done]. by destruct (match_here r prev []) as [[|]|].
  - destruct skip; cbn [replace_go]; [|apply IH].
    destruct (match_here r prev (c :: s)) as [[|n]|]; cbn [app]; auto.
Qed.

(** ** White space *)

Lemma collapse_replace (s : jsstring) (prev : option code_unit) :
  replace_go re_spaces (js " ") 0 prev s = collapse false s
  ∧ replace_go re_spaces (js " ") (run_length is_space s) prev s = collapse true s.
Proof.
  revert prev. induction s as [|c s IH]; intros prev; [done|].
  assert (replace_go re_spaces (js " ") 0 prev (c :: s) = collapse false (c :: s)) as H0.
  { cbn [replace_go collapse]. unfold match_here, re_spaces. cbn [run].
    rewrite rep_class_greedy. cbn [run_length].
    destruct (is_space c).
    - rewrite decide_True by lia. cbn [Nat.add].
      change (js " " ++ ?l) with (space :: l). f_equal. apply IH.
    - rewrite decide_False by lia. f_equal. apply IH. }
  split; [exact H0|].
  cbn [run_length]. destruct (is_space c) eqn:E.
  - cbn [replace_go collapse]. rewrite E. apply IH.
  - rewrite H0. cbn [collapse]. by rewrite E.
Qed.

Lemma replace_all_spaces (s : jsstring) :
  replace_all re_spaces (js " ") s = collapse false s.
Proof. apply collapse_replace. Qed.

(** ** The honorific expression *)

Lemma prev_after_cons (prev : option code_unit) (c : code_unit) (u : jsstring) :
  prev_after prev (c :: u) = prev_after (Some c) u.
Proof. unfold prev_after. rewrite last_cons. by destruct (last u). Qed.

Lemma run_lit_i (l : jsstring) (prev : option code_unit) (s : jsstring) (n : nat) (k : cont) :
  run (foldr (fun c r => Cat (chr_i c) r) Eps l) prev s n k =
  if ci_prefix l s
  then k (prev_after prev (take (length l) s)) (drop (length l) s) (n + length l)%nat
  else None.
Proof.
  revert prev s n. induction l as [|x l IH]; intros prev s n.
  - cbn [foldr run ci_prefix length]. rewrite take_0, drop_0, Nat.add_0_r. done.
  - cbn [foldr run]. unfold chr_i at 1. cbn [run].
    destruct s as [|c s]; [done|]. cbn [ci_prefix].
    destruct (N.eqb (fold_case c) (fold_case x)); [|done].
    rewrite IH. cbn [andb length]. destruct (ci_prefix l s); [|done].
    rewrite firstn_cons, prev_after_cons, skipn_cons. f_equal. lia.
Qed.

Lemma run_boundary_stop (prev : option code_unit) (s : jsstring) (n : nat) :
  run (Cat WordB (Opt (chr 46))) prev s n (fun _ _ m => Some m) =
  if xorb (word_before prev) (word_here s) then Some (n + stop_here s)%nat else None.
Proof.
  cbn [run]. destruct (xorb _ _); [|done].
  unfold chr. cbn [run]. destruct s as [|c s]; cbn [stop_here]; [f_equal; lia|].
  unfold full_stop. destruct (N.eqb 46 c); f_equal; lia.
Qed.

Lemma fold_case_upper (x : code_unit) :
  in_range 65 90 x = true → fold_case x = x.
Proof.
  unfold fold_case, in_range. intros [H1 H2]%andb_true_iff.
  apply N.leb_le in H1, H2.
  destruct (N.leb_spec 97 x); [lia|]. done.
Qed.

Lemma fold_case_word (c x : code_unit) :
  in_range 65 90 x = true → fold_case c = x → is_word c = true.
Proof.
  unfold fold_case, is_word, in_range. intros [H1 H2]%andb_true_iff.
  apply N.leb_le in H1, H2. intros Hc.
  destruct (N.leb_spec 97 c), (N.leb_spec c 122), (N.leb_spec 65 c), (N.leb_spec c 90);
    cbn [andb orb] in *; try done; lia.
Qed.

Lemma ci_prefix_last_word (l s : jsstring) (prev : option code_unit) :
  l ≠ [] → forallb (in_range 65 90) l = true → ci_prefix l s = true →
  word_before (prev_after prev (take (length l) s)) = true.
Proof.
  revert s prev. induction l as [|x l IH]; intros s prev Hne Hup Hpre; [done|].
  destruct s as [|c s]; [done|].
  cbn [forallb ci_prefix length] in *.
  apply andb_true_iff in Hup as [Hx Hup]. apply andb_true_iff in Hpre as [Hc Hpre].
  apply N.eqb_eq in Hc. rewrite (fold_case_upper x Hx) in Hc.
  rewrite firstn_cons, prev_after_cons.
  destruct l as [|x' l].
  - rewrite take_0. cbn. by eapply fold_case_word.
  - by apply IH.
Qed.

Lemma honorific_alternative (l : jsstring) (prev : option code_unit) (s : jsstring) :
  l ≠ [] → forallb (in_range 65 90) l = true →
  run (foldr (fun c r => Cat (chr_i c) r) Eps l) prev s 0
    (fun prev' s' n' => run (Cat WordB (Opt (chr 46))) prev' s' n' (fun _ _ m => Some m))
  = honorific_at l s.
Proof.
  intros Hne Hup. rewrite run_lit_i. unfold honorific_at, after_word.
  destruct (ci_prefix l s) eqn:Hpre; [|done].
  rewrite run_boundary_stop, (ci_prefix_last_word l s prev Hne Hup Hpre).
  cbn [xorb Nat.add]. by destruct (word_here _).
Qed.

(** The expression at one position: a word boundary, then the first
    alternative that is followed by a boundary, with its full stop. *)
Lemma match_here_honorific (prev : option code_unit) (s : jsstring) :
  match_here re_honorific prev s =
  if xorb (word_before prev) (word_here s) then
    match honorific_at (js "MR") s with Some x => Some x | None =>
    match honorific_at (js "MRS") s with Some x => Some x | None =>
    match honorific_at (js "MS") s with Some x => Some x | None =>
    match honorific_at (js "MISS") s with Some x => Some x | None =>
    match honorific_at (js "DR") s with Some x => Some x | None =>
    honorific_at (js "PROF") s end end end end end
  else None.
Proof.
  unfold match_here, re_honorific. cbn [run].
  destruct (xorb _ _); [|done].
  unfold lit_i.
  rewrite !honorific_alternative by (key_ne || (vm_compute; reflexivity)).
  reflexivity.
Qed.

Lemma honorific_at_word (l w rest : jsstring) :
  forallb (in_range 65 90) l = true →
  Forall (fun c => is_word c = true) w →
  word_here rest = false →
  honorific_at l (w ++ rest) =
  if bool_decide (fold_case <$> w = l) then Some (length w + stop_here rest)%nat else None.
Proof.
  unfold honorific_at, after_word.
  revert w. induction l as [|x l IH]; intros w Hup Hw Hrest.
  - cbn [ci_prefix length]. rewrite drop_0, Nat.add_0_l.
    destruct w as [|c w].
    + cbn [app fmap list_fmap length]. rewrite Hrest. by rewrite bool_decide_eq_true_2.
    + apply Forall_cons in Hw as [Hc _]. cbn [app word_here]. rewrite Hc.
      by rewrite bool_decide_eq_false_2.
  - cbn [forallb] in Hup. apply andb_true_iff in Hup as [Hx Hup].
    destruct w as [|c w].
    + cbn [app fmap list_fmap]. rewrite bool_decide_eq_false_2 by done.
      destruct rest as [|c rest]; [done|]. cbn [ci_prefix].
      destruct (N.eqb_spec (fold_case c) (fold_case x)) as [E|]; [|done].
      rewrite (fold_case_upper x Hx) in E.
      cbn [word_here] in Hrest. rewrite (fold_case_word c x Hx E) in Hrest. done.
    + apply Forall_cons in Hw as [Hc Hw].
      cbn [app ci_prefix length]. rewrite skipn_cons, fmap_cons.
      rewrite (fold_case_upper x Hx).
      destruct (N.eqb_spec (fold_case c) x) as [E|E]; cbn [andb].
      * specialize (IH w Hup Hw Hrest).
        destruct (decide (fold_case <$> w = l)) as [El|El].
        -- rewrite bool_decide_eq_true_2 in IH by done.
           rewrite bool_decide_eq_true_2 by congruence.
           destruct (ci_prefix l (w ++ rest)); [|done].
           destruct (word_here _); [done|]. injection IH as IH. f_equal. lia.
        -- rewrite bool_decide_eq_false_2 in IH by done.
           rewrite bool_decide_eq_false_2 by congruence.
           destruct (ci_prefix l (w ++ rest)); [|done].
           by destruct (word_here _).
      * rewrite bool_decide_eq_false_2 by congruence. done.
Qed.

Lemma bool_decide_elem_cons (x y : jsstring) (l : list jsstring) :
  bool_decide (x ∈ y :: l) = (bool_decide (x = y) || bool_decide (x ∈ l))%bool.
Proof. rewrite <- bool_decide_or. apply bool_decide_ext, elem_of_cons. Qed.

Lemma bool_decide_elem_nil (x : jsstring) : bool_decide (x ∈ @nil jsstring) = false.
Proof. apply bool_decide_eq_false_2, not_elem_of_nil. Qed.

Lemma match_here_word (prev : option code_unit) (w rest : jsstring) :
  Forall (fun c => is_word c = true) w →
  word_here rest = false →
  match_here re_honorific prev (w ++ rest) =
  if (negb (word_before prev) && is_honorific w)%bool
  then Some (length w + stop_here rest)%nat else None.
Proof.
  intros Hw Hrest. rewrite match_here_honorific.
  rewrite !(honorific_at_word _ w rest) by (done || (vm_compute; reflexivity)).
  assert (is_honorific w = true → xorb (word_before prev) (word_here (w ++ rest))
                                  = negb (word_before prev)) as Hx.
  { intros Hh. destruct w as [|c w]; [by vm_compute in Hh|].
    apply Forall_cons in Hw as [Hc _]. cbn [app word_here]. rewrite Hc.
    by destruct (word_before prev). }
  unfold is_honorific in *. change honorifics with
    [js "MR"; js "MRS"; js "MS"; js "MISS"; js "DR"; js "PROF"] in *.
  rewrite !bool_decide_elem_cons, bool_decide_elem_nil in *.
  destruct (bool_decide (fold_case <$> w = js "MR")),
    (bool_decide (fold_case <$> w = js "MRS")),
    (bool_decide (fold_case <$> w = js "MS")),
    (bool_decide (fold_case <$> w = js "MISS")),
    (bool_decide (fold_case <$> w = js "DR")),
    (bool_decide (fold_case <$> w = js "PROF"));
    cbn [orb] in *; try rewrite Hx by reflexivity;
    destruct (word_before prev); try reflexivity;
    destruct (word_here (w ++ rest)); reflexivity.
Qed.

(** ** Words and separators *)

Lemma span_word (s : jsstring) :
  ∃ w rest, s = w ++ rest ∧ Forall (fun c => is_word c = true) w ∧ word_here rest = false.
Proof.
  induction s as [|c s (w & rest & -> & Hw & Hrest)].
  - by exists [], [].
  - destruct (is_word c) eqn:E.
    + exists (c :: w), rest. split; [done|]. split; [by constructor | done].
    + exists [], (c :: w ++ rest). split; [done|]. split; [constructor | done].
Qed.

Lemma tokens_sep (c : code_unit) (s : jsstring) :
  is_word c = false → tokens (c :: s) = Sep c :: tokens s.
Proof. intros E. cbn [tokens]. by rewrite E. Qed.

Lemma tokens_not_word (rest : jsstring) :
  word_here rest = false →
  match tokens rest with Word _ :: _ => False | _ => True end.
Proof.
  destruct rest as [|c rest]; [done|]. cbn [word_here]. intros E.
  by rewrite tokens_sep.
Qed.

Lemma tokens_word (w rest : jsstring) :
  w ≠ [] → Forall (fun c => is_word c = true) w → word_here rest = false →
  tokens (w ++ rest) = Word w :: tokens rest.
Proof.
  intros Hne Hw Hrest. induction Hw as [|c w Hc Hw IH]; [done|].
  cbn [app tokens]. rewrite Hc. destruct w as [|c' w].
  - cbn [app]. pose proof (tokens_not_word rest Hrest) as H.
    by destruct (tokens rest) as [|[]].
  - by rewrite IH.
Qed.

Lemma is_honorific_nil : is_honorific [] = false.
Proof. by vm_compute. Qed.

Lemma match_here_not_word (prev : option code_unit) (s : jsstring) :
  word_here s = false → match_here re_honorific prev s = None.
Proof.
  intros Hs. change s with ([] ++ s).
  rewrite match_here_word by done. by rewrite is_honorific_nil, andb_false_r.
Qed.

Lemma replace_go_in_word (prev : option code_unit) (u v : jsstring) :
  word_before prev = true →
  Forall (fun c => is_word c = true) u →
  word_here v = false →
  replace_go re_honorific [] 0 prev (u ++ v) =
  u ++ replace_go re_honorific [] 0 (prev_after prev u) v.
Proof.
  intros Hprev Hu Hv. revert prev Hprev.
  induction Hu as [|c u Hc Hu IH]; intros prev Hprev; [done|].
  rewrite prev_after_cons.
  change (replace_go re_honorific [] 0 prev ((c :: u) ++ v)) with
    (match match_here re_honorific prev ((c :: u) ++ v) with
     | Some (S n) => [] ++ replace_go re_honorific [] n (Some c) (u ++ v)
     | Some O => [] ++ c :: replace_go re_honorific [] 0 (Some c) (u ++ v)
     | None => c :: replace_go re_honorific [] 0 (Some c) (u ++ v)
     end).
  rewrite match_here_word by (by constructor || done).
  rewrite Hprev. cbn [negb andb app]. f_equal. by apply IH.
Qed.

(** The [replace] with the honorific expression drops the honorific
    words with their full stops, and nothing else. *)
Lemma replace_honorific_tokens (n : nat) (s : jsstring) (prev : option code_unit) :
  (length s ≤ n)%nat →
  word_before prev = false ∨ word_here s = false →
  replace_go re_honorific [] 0 prev s = strip_honorifics s.
Proof.
  revert s prev. induction n as [|n IH]; intros s prev Hlen Hpos.
  { destruct s; [|simpl in Hlen; lia].
    cbn [replace_go]. by rewrite match_here_not_word. }
  destruct (span_word s) as (w & rest & -> & Hw & Hrest).
  destruct w as [|c w].
  - destruct rest as [|d rest].
    + cbn [replace_go app]. by rewrite match_here_not_word.
    + cbn [app word_here] in *.
      change (replace_go re_honorific [] 0 prev (d :: rest)) with
        (match match_here re_honorific prev (d :: rest) with
         | Some (S n) => [] ++ replace_go re_honorific [] n (Some d) rest
         | Some O => [] ++ d :: replace_go re_honorific [] 0 (Some d) rest
         | None => d :: replace_go re_honorific [] 0 (Some d) rest
         end).
      rewrite match_here_not_word by done.
      rewrite IH by (simpl in *; (lia || by left)).
      unfold strip_honorifics. rewrite tokens_sep by done. reflexivity.
  - apply Forall_cons in Hw as Hcw. destruct Hcw as [Hc Hw'].
    assert (word_before prev = false) as Hprev.
    { destruct Hpos as [|Hpos]; [done|]. cbn [app word_here] in Hpos. congruence. }
    rewrite length_app in Hlen. cbn [length] in Hlen.
    unfold strip_honorifics. rewrite tokens_word by done.
    change (replace_go re_honorific [] 0 prev ((c :: w) ++ rest)) with
      (match match_here re_honorific prev ((c :: w) ++ rest) with
       | Some (S n) => [] ++ replace_go re_honorific [] n (Some c) (w ++ rest)
       | Some O => [] ++ c :: replace_go re_honorific [] 0 (Some c) (w ++ rest)
       | None => c :: replace_go re_honorific [] 0 (Some c) (w ++ rest)
       end).
    rewrite match_here_word by done.
    rewrite Hprev. cbn [negb andb drop_honorifics].
    destruct (is_honorific (c :: w)) eqn:Hh.
    + cbn [length Nat.add app].
      destruct rest as [|d rest].
      * cbn [stop_here]. rewrite Nat.add_0_r, replace_go_skip.
        rewrite IH by (simpl in *; (lia || by right)). reflexivity.
      * cbn [stop_here word_here] in *. rewrite tokens_sep by done.
        rewrite (N.eqb_sym d full_stop).
        destruct (N.eqb full_stop d) eqn:Ed.
        -- replace (w ++ d :: rest) with ((w ++ [d]) ++ rest) by (by rewrite <- app_assoc).
           replace (length w + 1)%nat with (length (w ++ [d]))
             by (rewrite length_app; simpl; lia).
           rewrite replace_go_skip. unfold prev_after. rewrite last_snoc.
           rewrite IH; [done | simpl in *; lia | by left].
        -- rewrite Nat.add_0_r, replace_go_skip.
           rewrite IH; [|simpl in *; lia | by right].
           unfold strip_honorifics. rewrite tokens_sep by done. reflexivity.
    + rewrite replace_go_in_word by done.
      rewrite bind_cons. cbn [token_text app]. f_equal. f_equal.
      apply IH; [simpl in *; lia | by right].
Qed.

Lemma replace_all_honorific (s : jsstring) :
  replace_all re_honorific [] s = strip_honorifics s.
Proof. apply (replace_honorific_tokens (length s)); [lia | by left]. Qed.

(** ** Name cleanup *)

Lemma name_class_name_char (c : code_unit) :
  c ≠ 215%N → c ≠ 247%N → name_class c = name_char c.
Proof.
  intros H1 H2. unfold name_class, name_char, is_letter, hyphen, apostrophe.
  destruct (N.eqb_spec c 215); [done|]. destruct (N.eqb_spec c 247); [done|].
  cbn [negb].
  by destruct (in_range 65 90 c), (in_range 97 122 c), (in_range 192 255 c),
    (is_space c), (N.eqb c 39), (N.eqb c 45).
Qed.

Lemma replace_all_not_name (x : jsstring) :
  Forall (fun c => c ≠ 215%N ∧ c ≠ 247%N) x →
  replace_all re_not_name (js " ") x = restrict_to_name x.
Proof.
  intros Hx. unfold re_not_name, restrict_to_name. rewrite replace_all_Chr_space.
  apply Forall_fmap_ext_1. eapply Forall_impl; [exact Hx|].
  intros c [H1 H2]. cbv beta. rewrite (name_class_name_char c H1 H2).
  by destruct (name_char c).
Qed.

Lemma collapse_spaces (x : jsstring) :
  Forall (fun c => is_space c = true) x →
  collapse true x = [] ∧ (collapse false x = [] ∨ collapse false x = [space]).
Proof.
  induction 1 as [|c x Hc Hx [IH1 IH2]]; [by split; [|left]|].
  cbn [collapse]. rewrite Hc, IH1. by split; [|right].
Qed.

Lemma trimStart_Forall (P : code_unit → Prop) (x : jsstring) :
  Forall P x → Forall P (trimStart x).
Proof.
  induction 1 as [|c x Hc Hx IH]; [done|]. cbn [trimStart].
  destruct (is_space c); [done | by constructor].
Qed.

Lemma trimEnd_Forall (P : code_unit → Prop) (x : jsstring) :
  Forall P x → Forall P (trimEnd x).
Proof.
  induction 1 as [|c x Hc Hx IH]; [done|]. cbn [trimEnd].
  destruct (trimEnd x); [destruct (is_space c); by repeat constructor | by constructor].
Qed.

Lemma collapse_Forall (x : jsstring) (in_run : bool) :
  Forall (fun c => name_class c = true) x →
  Forall (fun c => c = space ∨ (name_class c = true ∧ is_space c = false))
    (collapse in_run x).
Proof.
  intros Hx. revert in_run. induction Hx as [|c x Hc Hx IH]; intros in_run; [done|].
  cbn [collapse]. destruct (is_space c) eqn:E.
  - destruct in_run; [apply IH | constructor; [by left | apply IH]].
  - constructor; [by right | apply IH].
Qed.

(** What [cleanNameAllCaps] hands to [toUpperCase] has no code unit
    above U+00FF. *)
Lemma name_filter_latin1 (x : jsstring) :
  Forall (fun c => (c < 256)%N)
    (trim (replace_all re_spaces (js " ") (replace_all re_not_name (js " ") x))).
Proof.
  unfold trim. eapply Forall_impl.
  - apply trimEnd_Forall, trimStart_Forall. rewrite replace_all_spaces.
    apply collapse_Forall. unfold re_not_name. rewrite replace_all_Chr_space.
    apply Forall_fmap, Forall_forall. intros c _. cbv beta. unfold compose.
    by destruct (name_class c) eqn:E.
  - intros c [->|[Hc Hs]]; [done|].
    unfold name_class, in_range in Hc. rewrite Hs in Hc.
    repeat (apply orb_true_iff in Hc as [Hc|Hc]); try done;
      repeat (apply andb_true_iff in Hc as [? Hc]);
      repeat match goal with
             | H : N.leb _ _ = true |- _ => apply N.leb_le in H
             | H : N.eqb _ _ = true |- _ => apply N.eqb_eq in H
             end; lia.
Qed.

Lemma cleanNameAllCaps_refines (s : jsstring) :
  Forall (fun c => c ≠ 215%N ∧ c ≠ 247%N) s →
  cleanNameAllCaps (Some (VStr s)) = cleanName_steps s.
Proof.
  intros Hs. unfold cleanNameAllCaps, cleanName_steps.
  rewrite replace_all_honorific, replace_all_spaces.
  rewrite replace_all_not_name
    by (rewrite <- replace_all_honorific; by apply replace_go_remove_Forall).
  destruct s as [|c s]; [done|]. cbn [truthy negb].
  by destruct (trim _).
Qed.

(** C9: a hyphen is an input of punctuation only, and its cleanup is the
    hyphen, not null; a full stop between two letters leaves a space
    behind; and the letters Mr before an accented letter, which are no
    honorific token, are taken out of the name (U+00E1 is the letter a
    with the acute accent, U+00C1 its capital). *)
Lemma cleanNameAllCaps_keeps_hyphen :
  forallb is_punctuation (js "-") = true
  ∧ cleanNameAllCaps (Some (VStr (js "-"))) = VStr (js "-")
  ∧ cleanNameAllCaps (Some (VStr (js "A.B"))) = VStr (js "A B")
  ∧ cleanNameAllCaps (Some (VStr (js "Jason Mr" ++ [225%N] ++ js "z")))
    = VStr (js "JASON " ++ [193%N] ++ js "Z").
Proof. by vm_compute. Qed.

(** ** The routes *)

Section Routes.

Variable toLowerCase : jsstring → jsstring.
Variable JSON_parse : jsstring → option value.
Variable JSON_stringify : value → jsstring.
Variables PROVIDER MODEL PROMPT_HEAD : jsstring.
Variable chat : jsstring → chat_reply.
Variable recognize : jsstring → Result jsstring.
Variable now : nat → Z.
Variable insert_outcome : nat → option error.

#[local] Abbreviation logEvalRun' := (logEvalRun PROVIDER MODEL now insert_outcome).
#[local] Abbreviation extraction' :=
  (extraction toLowerCase JSON_parse JSON_stringify PROMPT_HEAD chat).
#[local] Abbreviation post_extract' :=
  (post_extract toLowerCase JSON_parse JSON_stringify PROVIDER MODEL PROMPT_HEAD
     chat now insert_outcome).
#[local] Abbreviation post_extract_file' :=
  (post_extract_file toLowerCase JSON_parse JSON_stringify PROVIDER MODEL PROMPT_HEAD
     chat recognize now insert_outcome).
#[local] Abbreviation serve' :=
  (serve toLowerCase JSON_parse JSON_stringify PROVIDER MODEL PROMPT_HEAD
     chat recognize now insert_outcome).

Lemma logEvalRun_inserted (row : log_row) (d : list eval_run) (t i : nat) (u : list jsstring) :
  insert_outcome i = None →
  ∃ stored,
    run_success stored = flag (success row)
    ∧ run_parse_error stored = parse_error row
    ∧ logEvalRun' row (World d t i u) = (Ok (), World (d ++ [stored]) (S t) (S i) u).
Proof.
  intros H. unfold logEvalRun. cbn [inserts db ticks unlinked]. rewrite H.
  eexists. split; [|split; [|reflexivity]]; reflexivity.
Qed.

Lemma logEvalRun_failed (row : log_row) (d : list eval_run) (t i : nat) (u : list jsstring)
    (e : error) :
  insert_outcome i = Some e →
  logEvalRun' row (World d t i u) = (Throw e, World d (S t) (S i) u).
Proof.
  intros H. unfold logEvalRun. cbn [inserts db ticks unlinked]. by rewrite H.
Qed.

Ltac route_step :=
  cbv beta iota delta [mbind M_bind mret M_ret Date_now lift db ticks inserts unlinked
                       try_catch try_finally unlink fmap option_fmap option_map].

Ltac record_failure d t i u E :=
  lazymatch goal with
  | |- context [logEvalRun _ _ _ _ ?row (World d ?t' ?i' u)] =>
      rewrite (logEvalRun_failed row d t' i' u _ E); route_step
  end.

Ltac record_row d t i u E stored :=
  lazymatch goal with
  | |- context [logEvalRun _ _ _ _ ?row (World d ?t' ?i' u)] =>
      let Hs := fresh "Hs" in
      let Hp := fresh "Hp" in
      let Heq := fresh "Heq" in
      destruct (logEvalRun_inserted row d t' i' u E) as (stored & Hs & Hp & Heq);
      rewrite Heq; route_step
  end.

#[local] Abbreviation attempt' :=
  (attempt toLowerCase JSON_parse JSON_stringify PROMPT_HEAD chat recognize).

Lemma post_extract_served (req : extract_request) (w : world) :
  served insert_outcome w (attempt' (PostExtract req)) (post_extract' req w).
Proof.
  destruct w as [d t i u]. unfold post_extract, attempt. route_step.
  destruct (truthy _); cbn [negb].
  2: { by apply Rejected. }
  destruct (extraction' _) as [data|e]; route_step.
  - destruct (insert_outcome i) as [e1|] eqn:E1.
    + record_failure d t i u E1.
      destruct (insert_outcome (S i)) as [e2|] eqn:E2.
      * record_failure d t i u E2. by eapply EscapedSuccess.
      * record_row d t i u E2 stored. by eapply Unrecorded.
    + record_row d t i u E1 stored. by eapply Succeeded.
  - destruct (insert_outcome i) as [e1|] eqn:E1.
    + record_failure d t i u E1. by eapply EscapedFailure.
    + record_row d t i u E1 stored. by eapply Failed.
Qed.

Lemma post_extract_file_served (file : option upload) (w : world) :
  served insert_outcome w (attempt' (PostExtractFile file)) (post_extract_file' file w).
Proof.
  destruct w as [d t i u]. unfold post_extract_file, attempt. route_step.
  destruct file as [f|]; [|by apply Rejected].
  destruct (starts_with _ _); cbn [negb].
  2: { destruct (path f); by apply Rejected. }
  unfold extractTextFromImage.
  destruct (recognize (path f)) as [ocrText|e]; rewrite ?bind_Ok, ?bind_Throw; route_step.
  - destruct (extraction' _) as [data|e]; route_step.
    + destruct (insert_outcome i) as [e1|] eqn:E1.
      * record_failure d t i u E1.
        destruct (insert_outcome (S i)) as [e2|] eqn:E2.
        -- record_failure d t i u E2.
           destruct (path f); by eapply EscapedSuccess.
        -- record_row d t i u E2 stored. destruct (path f); by eapply Unrecorded.
      * record_row d t i u E1 stored. destruct (path f); by eapply Succeeded.
    + destruct (insert_outcome i) as [e1|] eqn:E1.
      * record_failure d t i u E1.
        destruct (path f); by eapply EscapedFailure.
      * record_row d t i u E1 stored. destruct (path f); by eapply Failed.
  - destruct (insert_outcome i) as [e1|] eqn:E1.
    + record_failure d t i u E1.
      destruct (path f); by eapply EscapedFailure.
    + record_row d t i u E1 stored. destruct (path f); by eapply Failed.
Qed.

(** Every request is served in one of the six ways. *)
Lemma serve_served (r : request) (w : world) :
  served insert_outcome w (attempt' r) (serve' r w).
Proof.
  destruct r; [apply post_extract_served | apply post_extract_file_served].
Qed.

Lemma ok_body_success (data : value) : success_response (Response 200 (ok_body data)).
Proof.
  unfold success_response, ok_body. cbn [status body props_of].
  split; [done|]. split; [apply lookup_insert_eq|]. split.
  - exists data. rewrite lookup_insert_ne by key_ne. apply lookup_singleton_eq.
  - rewrite lookup_insert_ne by key_ne. apply lookup_singleton_ne. key_ne.
Qed.

Lemma error_body_failure (st : Z) (msg : jsstring) :
  st = 400 ∨ st = 500 → failure_response (Response st (error_body msg)).
Proof.
  intros Hst. unfold failure_response, error_body. cbn [status body props_of].
  split; [done|]. split; [exists msg; apply lookup_singleton_eq|].
  split; apply lookup_singleton_ne; key_ne.
Qed.

(** C2 (amended): when the extraction of a request succeeds and the
    recorder works, the caller receives the result with status 200; when
    the recorder fails on the record of the success, the handler of
    failures runs: if its own record is written, the caller receives
    status 500 with the message of the recorder, and if that record fails
    too, the exception leaves the handler and no response is sent. *)
Theorem recorder_failure_reaches_caller (r : request) (w : world) (data : value) :
  attempt' r = Some (Ok data) →
  (insert_outcome (inserts w) = None →
   ∃ w', serve' r w = (Ok (Response 200 (ok_body data)), w'))
  ∧ (∀ e, insert_outcome (inserts w) = Some e →
       (insert_outcome (S (inserts w)) = None →
        ∃ w', serve' r w = (Ok (Response 500 (error_body (message e))), w'))
       ∧ (∀ e2, insert_outcome (S (inserts w)) = Some e2 →
            ∃ w', serve' r w = (Throw e2, w'))).
Proof.
  intros Ha. pose proof (serve_served r w) as H. rewrite Ha in H.
  remember (serve' r w) as res eqn:Hres. clear Hres.
  destruct H as [msg w' Hn Hdb
                |data' stored w' Hd Hrec Hdb Hs
                |e' stored w' Hd Hrec Hdb Hs Hp
                |data' e' stored w' Hd Hrec1 Hrec2 Hdb Hs Hp
                |e0 e' w' Hd Hrec Hdb
                |data' e1 e' w' Hd Hrec1 Hrec2 Hdb]; try discriminate.
  - injection Hd as <-. split; [eauto | intros e He; congruence].
  - injection Hd as <-. split; [congruence|]. intros e He.
    assert (e = e') as -> by congruence. split; [eauto | intros e2 He2; congruence].
  - split; [congruence|]. intros e He. split; [congruence|].
    intros e2 He2. assert (e2 = e') as -> by congruence. eauto.
Qed.

(** C3 (amended): with a recorder that works, every request gets a
    response, and one row is appended to the table before it when the
    request passed the input checks, whether the extraction succeeded
    (status 200, row of success) or failed (status 500, row of failure
    with the message); a request that the input checks turn away gets
    status 400 and no row. *)
Theorem one_row_per_attempt (r : request) (w : world) :
  (∀ n, insert_outcome n = None) →
  ∃ resp w',
    serve' r w = (Ok resp, w')
    ∧ match attempt' r with
      | None => status resp = 400 ∧ db w' = db w
      | Some (Ok _) =>
          status resp = 200
          ∧ ∃ stored, db w' = db w ++ [stored] ∧ run_success stored = 1
      | Some (Throw e) =>
          status resp = 500
          ∧ ∃ stored, db w' = db w ++ [stored] ∧ run_success stored = 0
                      ∧ run_parse_error stored = VStr (message e)
      end.
Proof.
  intros Hworks. pose proof (serve_served r w) as H.
  remember (serve' r w) as res eqn:Hres. clear Hres.
  destruct H as [msg w' Hn Hdb
                |data' stored w' Hd Hrec Hdb Hs
                |e' stored w' Hd Hrec Hdb Hs Hp
                |data' e' stored w' Hd Hrec1 Hrec2 Hdb Hs Hp
                |e0 e' w' Hd Hrec Hdb
                |data' e1 e' w' Hd Hrec1 Hrec2 Hdb];
    try (rewrite Hworks in *; discriminate).
  - do 2 eexists. split; [reflexivity|]. by rewrite Hn.
  - do 2 eexists. split; [reflexivity|]. rewrite Hd. eauto.
  - do 2 eexists. split; [reflexivity|]. rewrite Hd. eauto.
Qed.

(** C4 (amended): a response of the extraction routes is either a
    success, with status 200, [ok] true and [data], or a failure, with
    status 400 or 500 and one [error] message, and then without [ok]. *)
Theorem response_shape (r : request) (w w' : world) (resp : response) :
  serve' r w = (Ok resp, w') →
  success_response resp ∨ failure_response resp.
Proof.
  intros Hserve. pose proof (serve_served r w) as H. rewrite Hserve in H.
  inversion H; subst.
  - right. apply error_body_failure. by left.
  - left. apply ok_body_success.
  - right. apply error_body_failure. by right.
  - right. apply error_body_failure. by right.
Qed.

End Routes.

(** ** The routes on sample requests *)

(** C2: the extraction of the sample request succeeds, the first
    insertion of the recorder fails, and the caller receives status 500
    with the message of the recorder. *)
Lemma recorder_failure_becomes_error :
  extraction_sample (VStr (js "Grand Plaza, invoice 4711"))
  = Ok (ensureRequiredKeys hotel_parsed)
  ∧ fst (serve_sample insert_fails_once (PostExtract request_hotel) world0)
    = Ok (Response 500 (error_body (js "database is locked"))).
Proof. split; vm_compute; reflexivity. Qed.

(** C3: a request without text is answered, and the table is as
    before. *)
Lemma rejected_request_leaves_no_row :
  fst (serve_sample insert_works (PostExtract request_empty) world0)
  = Ok (Response 400 (error_body (js "Missing text")))
  ∧ db (snd (serve_sample insert_works (PostExtract request_empty) world0)) = db world0.
Proof. split; vm_compute; reflexivity. Qed.

(** C4: the response to a request without text has no [ok]. *)
Lemma failure_response_has_no_ok :
  ∃ resp,
    fst (serve_sample insert_works (PostExtract request_empty) world0) = Ok resp
    ∧ props_of (body resp) !! js "ok" = None.
Proof.
  exists (Response 400 (error_body (js "Missing text"))).
  split; vm_compute; reflexivity.
Qed.

Lemma recorder_failure_reaches_caller_witness :
  ∃ w', serve_sample insert_fails_once (PostExtract request_hotel) world0
        = (Ok (Response 500 (error_body (js "database is locked"))), w').
Proof.
  assert (attempt lower_latin1 parse_sample stringify_sample
            (js "Now extract from this document: ") chat_sample recognize_sample
            (PostExtract request_hotel)
          = Some (Ok (ensureRequiredKeys hotel_parsed))) as Ha
    by (vm_compute; reflexivity).
  destruct (recorder_failure_reaches_caller lower_latin1 parse_sample stringify_sample
              (js "openai") (js "gpt-4o-mini") (js "Now extract from this document: ")
              chat_sample recognize_sample now_sample insert_fails_once
              (PostExtract request_hotel) world0 _ Ha) as [_ H].
  destruct (H (Err RecorderError (js "database is locked")) eq_refl) as [H1 _].
  exact (H1 eq_refl).
Defined.

Lemma one_row_per_attempt_witness :
  ∃ resp w',
    serve_sample insert_works (PostExtract request_hotel) world0 = (Ok resp, w')
    ∧ status resp = 200
    ∧ ∃ stored, db w' = db world0 ++ [stored] ∧ run_success stored = 1.
Proof.
  exact (one_row_per_attempt lower_latin1 parse_sample stringify_sample
           (js "openai") (js "gpt-4o-mini") (js "Now extract from this document: ")
           chat_sample recognize_sample now_sample insert_works
           (PostExtract request_hotel) world0 (fun n => eq_refl)).
Defined.

Lemma response_shape_witness :
  success_response (Response 400 (error_body (js "Missing text")))
  ∨ failure_response (Response 400 (error_body (js "Missing text"))).
Proof.
  apply (response_shape lower_latin1 parse_sample stringify_sample
           (js "openai") (js "gpt-4o-mini") (js "Now extract from this document: ")
           chat_sample recognize_sample now_sample insert_works
           (PostExtract request_empty) world0 (World [] 1 0 [])).
  vm_compute. reflexivity.
Defined.

(** * Further properties *)

(** ** Completion and validation, continued *)

Lemma first_missing_present (keys : list jsstring) (obj : object) :
  first_missing keys obj = None → ∀ k, k ∈ keys → is_Some (obj !! k).
Proof.
  induction keys as [|k0 keys IH]; intros Hm k Hk; [by apply elem_of_nil in Hk|].
  cbn [first_missing] in Hm. destruct (has_key k0 obj) eqn:E; [|done].
  apply elem_of_cons in Hk as [->|Hk]; [by apply has_key_is_Some | by apply IH].
Qed.

Lemma fill_missing_present (keys : list jsstring) (obj : object) :
  (∀ k, k ∈ keys → is_Some (obj !! k)) → fill_missing keys obj = obj.
Proof.
  intros Hall. apply map_eq. intros k. rewrite fill_missing_lookup.
  destruct (decide (k ∈ keys)) as [Hk|]; [|done].
  by destruct (Hall k Hk) as [v ->].
Qed.

Lemma fill_missing_twice (keys : list jsstring) (obj : object) :
  fill_missing keys (fill_missing keys obj) = fill_missing keys obj.
Proof.
  apply fill_missing_present. intros k Hk.
  rewrite fill_missing_lookup, decide_True by done. by eexists.
Qed.

(** X1: completion is idempotent: a second pass of [ensureRequiredKeys]
    changes nothing. *)
Theorem ensureRequiredKeys_idempotent (obj : value) :
  ensureRequiredKeys (ensureRequiredKeys obj) = ensureRequiredKeys obj.
Proof.
  destruct obj as [| | | | |props]; try reflexivity.
  assert (∀ tag : jsstring,
            is_string (props !! js "type") tag = true →
            ∀ keys, is_string (fill_missing keys props !! js "type") tag = true) as Hkeep.
  { intros tag Ht keys. unfold is_string in *.
    destruct (props !! js "type") as [[| | |s| |]|] eqn:Et; try done.
    by rewrite (fill_missing_keeps _ _ _ _ Et). }
  destruct (is_string (props !! js "type") (js "flight")) eqn:Ef.
  - assert (ensureRequiredKeys (VObj props) = VObj (fill_missing flight_keys props)) as ->
      by (unfold ensureRequiredKeys; by rewrite Ef).
    unfold ensureRequiredKeys. by rewrite (Hkeep _ Ef), fill_missing_twice.
  - destruct (is_string (props !! js "type") (js "hotel")) eqn:Eh.
    + assert (ensureRequiredKeys (VObj props) = VObj (fill_missing hotel_keys props)) as ->
        by (unfold ensureRequiredKeys; by rewrite Ef, Eh).
      unfold ensureRequiredKeys.
      assert (is_string (fill_missing hotel_keys props !! js "type") (js "flight") = false)
        as ->.
      { unfold is_string in *.
        destruct (props !! js "type") as [[| | |s| |]|] eqn:Et; try done.
        by rewrite (fill_missing_keeps _ _ _ _ Et). }
      by rewrite (Hkeep _ Eh), fill_missing_twice.
    + assert (ensureRequiredKeys (VObj props) = VObj props) as ->
        by (unfold ensureRequiredKeys; by rewrite Ef, Eh).
      unfold ensureRequiredKeys. by rewrite Ef, Eh.
Qed.

Section ValidationMore.

Variable JSON_stringify : value → jsstring.

(** What validation has checked when it returns. *)
Lemma assertValidOutput_Ok_inv (obj : value) :
  assertValidOutput JSON_stringify obj = Ok () →
  ∃ props tag,
    obj = VObj props
    ∧ props !! js "type" = Some (VStr tag)
    ∧ tag ∈ [js "flight"; js "hotel"]
    ∧ ∀ k, k ∈ required_keys tag → is_Some (props !! k).
Proof.
  unfold assertValidOutput.
  destruct (is_string (type_of_record obj) (js "flight")) eqn:Ef;
    [|destruct (is_string (type_of_record obj) (js "hotel")) eqn:Eh];
    cbn [negb andb]; [| |discriminate].
  - unfold is_string in Ef.
    destruct obj as [| | | | |props]; try done. cbn [type_of_record props_of] in *.
    destruct (props !! js "type") as [[| | |s| |]|] eqn:Et; try done.
    apply bool_decide_eq_true_1 in Ef as ->.
    destruct (first_missing flight_keys props) eqn:Em;
      [rewrite bind_Throw; discriminate|]. intros _.
    exists props, (js "flight"). split; [done|]. split; [done|].
    split; [apply list_elem_of_here|]. by apply first_missing_present.
  - unfold is_string in Eh.
    destruct obj as [| | | | |props]; try done. cbn [type_of_record props_of] in *.
    destruct (props !! js "type") as [[| | |s| |]|] eqn:Et; try done.
    apply bool_decide_eq_true_1 in Eh as ->. rewrite bind_Ok.
    destruct (first_missing hotel_keys props) eqn:Em; [discriminate|]. intros _.
    exists props, (js "hotel"). split; [done|]. split; [done|].
    split; [apply list_elem_of_further, list_elem_of_here|].
    by apply first_missing_present.
Qed.

(** X2: validation passes exactly on the objects tagged flight or hotel
    that have every required key of their tag. *)
Theorem assertValidOutput_Ok_iff (obj : value) :
  assertValidOutput JSON_stringify obj = Ok ()
  ↔ ∃ props tag,
      obj = VObj props
      ∧ props !! js "type" = Some (VStr tag)
      ∧ tag ∈ [js "flight"; js "hotel"]
      ∧ ∀ k, k ∈ required_keys tag → is_Some (props !! k).
Proof.
  split; [apply assertValidOutput_Ok_inv|].
  - intros (props & tag & -> & Ht & Htag & Hall).
    apply elem_of_cons in Htag as [->|Htag].
    + apply assertValidOutput_flight; [done|]. by apply first_missing_None.
    + apply elem_of_cons in Htag as [->|Htag]; [|by apply elem_of_nil in Htag].
      apply assertValidOutput_hotel; [done|]. by apply first_missing_None.
Qed.

End ValidationMore.

(** ** Flight post-processing, continued *)

Section PostProcessMore.

Variable toLowerCase : jsstring → jsstring.
Variable JSON_stringify : value → jsstring.

Lemma cleaned_keeps (flightObj : object) (k : jsstring) :
  is_Some (flightObj !! k) → is_Some (cleaned flightObj !! k).
Proof.
  intros Hk. unfold cleaned.
  repeat (rewrite lookup_insert; case_decide; [by eexists|]). done.
Qed.

(** X3: [postProcessFlight] never removes a key, and the record it
    returns always has passengerName, ticketNumber and tripType. *)
Theorem postProcessFlight_keeps_keys
    (flightObj : object) (originalText : value) (out : object) :
  postProcessFlight toLowerCase flightObj originalText = Ok out →
  (∀ k, is_Some (flightObj !! k) → is_Some (out !! k))
  ∧ is_Some (out !! js "passengerName")
  ∧ is_Some (out !! js "ticketNumber")
  ∧ is_Some (out !! js "tripType").
Proof.
  intros H.
  assert (is_Some (cleaned flightObj !! js "passengerName")
          ∧ is_Some (cleaned flightObj !! js "ticketNumber")
          ∧ is_Some (cleaned flightObj !! js "tripType")) as (Hp & Ht & Htt).
  { unfold cleaned. split; [|split].
    - rewrite !lookup_insert_ne by key_ne. rewrite lookup_insert_eq. by eexists.
    - rewrite lookup_insert_ne by key_ne. rewrite lookup_insert_eq. by eexists.
    - rewrite lookup_insert_eq. by eexists. }
  assert (∀ (k0 : jsstring) (v : value) (m : object) (k : jsstring),
            is_Some (m !! k) → is_Some (<[k0 := v]> m !! k)) as Hins.
  { intros k0 v m k Hk. rewrite lookup_insert. case_decide; [by eexists | done]. }
  apply postProcessFlight_Ok in H as [-> | [-> | ->]].
  - split; [intros k Hk; apply Hins; by apply cleaned_keeps|]. auto.
  - split; [intros k Hk; apply Hins; by apply cleaned_keeps|]. auto.
  - split; [intros k Hk; by apply cleaned_keeps|]. auto.
Qed.

(** X4: the trip type of the model has no influence: with any other
    value under tripType the outcome is the same. *)
Theorem postProcessFlight_ignores_tripType
    (flightObj : object) (originalText v : value) :
  postProcessFlight toLowerCase (<[js "tripType" := v]> flightObj) originalText
  = postProcessFlight toLowerCase flightObj originalText.
Proof.
  assert (cleaned (<[js "tripType" := v]> flightObj) = cleaned flightObj) as Hc.
  { unfold cleaned. rewrite !(lookup_insert_ne _ (js "tripType")) by key_ne.
    apply map_eq. intros k. rewrite !lookup_insert.
    repeat case_decide; reflexivity. }
  unfold postProcessFlight. rewrite !lookup_insert_ne by key_ne.
  unfold cleaned in Hc. rewrite !(lookup_insert_ne _ (js "tripType")) in Hc by key_ne.
  destruct (lower_or_empty _ (Some originalText)) as [t|];
    [rewrite !bind_Ok; cbv beta | by rewrite !bind_Throw].
  destruct (lower_or_empty _ (flightObj !! js "overallFrom")) as [a|];
    [rewrite !bind_Ok; cbv beta | by rewrite !bind_Throw].
  destruct (lower_or_empty _ (flightObj !! js "overallTo")) as [b|];
    [rewrite !bind_Ok; cbv beta | by rewrite !bind_Throw].
  cbv zeta. by rewrite Hc.
Qed.

(** X5: a city that is truthy and not a string (a number, say) makes
    [postProcessFlight] throw a type error, whatever the text. *)
Theorem postProcessFlight_city_not_string
    (flightObj : object) (text : jsstring) (k : jsstring) (v : value) :
  k ∈ [js "overallFrom"; js "overallTo"] →
  flightObj !! k = Some v →
  not_a_string v →
  ∃ e, postProcessFlight toLowerCase flightObj (VStr text) = Throw e
       ∧ kind e = TypeError.
Proof.
  intros Hk Hv [Htruthy Hns].
  assert (∃ e, lower_or_empty toLowerCase (Some v) = Throw e ∧ kind e = TypeError)
    as (e & He & Hkind).
  { unfold lower_or_empty. rewrite Htruthy.
    destruct v; try (eexists; split; reflexivity). by destruct (Hns s). }
  unfold postProcessFlight. rewrite lower_or_empty_str, bind_Ok.
  rewrite !lookup_insert_ne by key_ne.
  apply elem_of_cons in Hk as [->|Hk].
  - rewrite Hv, He, bind_Throw. eauto.
  - apply elem_of_cons in Hk as [->|Hk]; [|by apply elem_of_nil in Hk].
    rewrite Hv, He.
    destruct (lower_or_empty toLowerCase (flightObj !! js "overallFrom")) as [a|e'] eqn:Ea.
    + rewrite bind_Ok, bind_Throw. eauto.
    + rewrite bind_Throw. exists e'. split; [done|].
      unfold lower_or_empty in Ea.
      destruct (flightObj !! js "overallFrom") as [v'|]; [|done].
      destruct (truthy v'); [|done]. destruct v'; try done; by injection Ea as <-.
Qed.

(** X6: the second completion and validation of the routes never act on
    a flight: after a first validation, what [postProcessFlight] returns
    is complete and valid as it is. *)
Theorem recheck_after_postProcessFlight
    (props : object) (originalText : value) (out : object) :
  assertValidOutput JSON_stringify (VObj props) = Ok () →
  props !! js "type" = Some (VStr (js "flight")) →
  postProcessFlight toLowerCase props originalText = Ok out →
  ensureRequiredKeys (VObj out) = VObj out
  ∧ assertValidOutput JSON_stringify (VObj out) = Ok ().
Proof.
  intros Hvalid Htype Hpost.
  assert (first_missing flight_keys props = None) as Hm.
  { unfold assertValidOutput in Hvalid. cbn [type_of_record props_of] in Hvalid.
    rewrite Htype in Hvalid. unfold is_string in Hvalid.
    rewrite bool_decide_eq_true_2 in Hvalid by done. cbn [negb andb] in Hvalid.
    destruct (first_missing flight_keys props); [by rewrite bind_Throw in Hvalid | done]. }
  assert (out !! js "type" = Some (VStr (js "flight"))) as Htype'.
  { assert (cleaned props !! js "type" = Some (VStr (js "flight"))) as Hc.
    { rewrite cleaned_frame; [done|].
      repeat (apply not_elem_of_cons; split; [key_ne|]). apply not_elem_of_nil. }
    apply postProcessFlight_Ok in Hpost as [-> | [-> | ->]];
      [by rewrite lookup_insert_ne by key_ne
      |by rewrite lookup_insert_ne by key_ne
      |done]. }
  assert (∀ k, k ∈ flight_keys → is_Some (out !! k)) as Hall.
  { intros k Hk. apply postProcessFlight_Ok in Hpost.
    pose proof (first_missing_present _ _ Hm k Hk) as Hin.
    assert (∀ (k0 : jsstring) (v : value) (m : object),
              is_Some (m !! k) → is_Some (<[k0 := v]> m !! k)) as Hins.
    { intros k0 v m Hk0. rewrite lookup_insert. case_decide; [by eexists | done]. }
    destruct Hpost as [-> | [-> | ->]];
      [apply Hins | apply Hins |]; by apply cleaned_keeps. }
  split.
  - unfold ensureRequiredKeys, is_string. rewrite Htype'.
    rewrite bool_decide_eq_true_2 by done. by rewrite fill_missing_present.
  - apply assertValidOutput_flight; [done|]. by apply first_missing_None.
Qed.

End PostProcessMore.

Lemma postProcessFlight_keeps_keys_witness :
  ∃ out,
    postProcessFlight lower_latin1 flight_london_paris (VStr text_round_trip) = Ok out
    ∧ (∀ k, is_Some (flight_london_paris !! k) → is_Some (out !! k))
    ∧ is_Some (out !! js "passengerName")
    ∧ is_Some (out !! js "ticketNumber")
    ∧ is_Some (out !! js "tripType").
Proof.
  exists (<[js "tripType" := round_trip]> (cleaned flight_london_paris)).
  assert (postProcessFlight lower_latin1 flight_london_paris (VStr text_round_trip)
          = Ok (<[js "tripType" := round_trip]> (cleaned flight_london_paris))) as H
    by (vm_compute; reflexivity).
  split; [exact H|].
  exact (postProcessFlight_keeps_keys lower_latin1 flight_london_paris _ _ H).
Defined.

Lemma recheck_after_postProcessFlight_witness :
  ensureRequiredKeys (VObj (<[js "tripType" := round_trip]> (cleaned flight_complete)))
  = VObj (<[js "tripType" := round_trip]> (cleaned flight_complete))
  ∧ assertValidOutput stringify_sample
      (VObj (<[js "tripType" := round_trip]> (cleaned flight_complete))) = Ok ().
Proof.
  apply (recheck_after_postProcessFlight lower_latin1 stringify_sample flight_complete
           (VStr text_round_trip)).
  - vm_compute; reflexivity.
  - vm_compute; reflexivity.
  - vm_compute; reflexivity.
Defined.

Lemma postProcessFlight_city_not_string_witness :
  ∃ e, postProcessFlight lower_latin1 flight_numeric_origin (VStr text_one_way) = Throw e
       ∧ kind e = TypeError.
Proof.
  apply (postProcessFlight_city_not_string lower_latin1 flight_numeric_origin text_one_way
           (js "overallFrom") (VNum (S754_finite false 1 0))).
  - apply list_elem_of_here.
  - vm_compute; reflexivity.
  - split; [reflexivity | discriminate].
Defined.

(** ** The pipeline *)

Lemma fmap_Ok {A B} (f : A → B) (a : A) : f <$> Ok a = Ok (f a).
Proof. reflexivity. Qed.

Lemma fmap_Throw {A B} (f : A → B) (e : error) : f <$> (Throw e : Result A) = Throw e.
Proof. reflexivity. Qed.

Lemma type_of_ensureRequiredKeys (obj : value) :
  type_of_record (ensureRequiredKeys obj) = type_of_record obj.
Proof.
  destruct obj as [| | | | |props]; try reflexivity.
  assert (∀ tag keys, is_string (props !! js "type") tag = true →
                      fill_missing keys props !! js "type" = props !! js "type") as Hkeep.
  { intros tag keys Ht. unfold is_string in Ht.
    destruct (props !! js "type") as [v|] eqn:Et; [|discriminate].
    by apply fill_missing_keeps. }
  unfold ensureRequiredKeys.
  destruct (is_string _ (js "flight")) eqn:Ef; [exact (Hkeep _ _ Ef)|].
  destruct (is_string _ (js "hotel")) eqn:Eh; [exact (Hkeep _ _ Eh) | reflexivity].
Qed.

Lemma ensureRequiredKeys_keeps (props : object) (k : jsstring) (v : value) :
  props !! k = Some v → props_of (ensureRequiredKeys (VObj props)) !! k = Some v.
Proof.
  intros Hk. unfold ensureRequiredKeys.
  destruct (is_string _ _); [by apply fill_missing_keeps|].
  destruct (is_string _ _); [by apply fill_missing_keeps | done].
Qed.

Section Pipeline.

Variable toLowerCase : jsstring → jsstring.
Variable JSON_parse : jsstring → option value.
Variable JSON_stringify : value → jsstring.
Variable PROMPT_HEAD : jsstring.
Variable chat : jsstring → chat_reply.

#[local] Abbreviation extraction' :=
  (extraction toLowerCase JSON_parse JSON_stringify PROMPT_HEAD chat).

(** X7: what a successful extraction returns is an object tagged flight
    or hotel that has every required key of its tag, and a flight among
    it has tripType "one_way" or "round_trip". *)
Theorem extraction_result_valid (text data : value) :
  extraction' text = Ok data →
  ∃ props tag,
    data = VObj props
    ∧ props !! js "type" = Some (VStr tag)
    ∧ tag ∈ [js "flight"; js "hotel"]
    ∧ (∀ k, k ∈ required_keys tag → is_Some (props !! k))
    ∧ (tag = js "flight" →
       props !! js "tripType" = Some one_way
       ∨ props !! js "tripType" = Some round_trip).
Proof.
  unfold extraction.
  destruct (callLLM _ _ _ text) as [d0|]; [rewrite bind_Ok | by rewrite bind_Throw].
  cbv zeta beta.
  destruct (assertValidOutput _ (ensureRequiredKeys d0)) as [[]|];
    [rewrite bind_Ok | by rewrite bind_Throw].
  destruct (is_string (type_of_record (ensureRequiredKeys d0)) (js "flight")) eqn:Ef.
  - destruct (postProcessFlight _ _ _) as [out|] eqn:Hp;
      [rewrite fmap_Ok, bind_Ok | by rewrite fmap_Throw, bind_Throw].
    remember (ensureRequiredKeys (VObj out)) as d eqn:Hd.
    destruct (assertValidOutput _ d) as [[]|] eqn:Hv;
      [rewrite bind_Ok | by rewrite bind_Throw].
    intros [= <-].
    destruct (assertValidOutput_Ok_inv _ _ Hv) as (props & tag & Hobj & Ht & Htag & Hall).
    exists props, tag. split; [done|]. split; [done|]. split; [done|]. split; [done|].
    intros _.
    assert (props = props_of (ensureRequiredKeys (VObj out))) as ->
      by (by rewrite <- Hd, Hobj).
    apply postProcessFlight_Ok in Hp as [-> | [-> | ->]].
    + right. apply ensureRequiredKeys_keeps, lookup_insert_eq.
    + left. apply ensureRequiredKeys_keeps.
      rewrite lookup_insert_ne by key_ne. apply lookup_insert_eq.
    + left. apply ensureRequiredKeys_keeps, lookup_insert_eq.
  - rewrite bind_Ok.
    remember (ensureRequiredKeys (ensureRequiredKeys d0)) as d eqn:Hd.
    destruct (assertValidOutput _ d) as [[]|] eqn:Hv;
      [rewrite bind_Ok | by rewrite bind_Throw].
    intros [= <-].
    destruct (assertValidOutput_Ok_inv _ _ Hv) as (props & tag & Hobj & Ht & Htag & Hall).
    exists props, tag. split; [done|]. split; [done|]. split; [done|]. split; [done|].
    intros ->. exfalso.
    assert (is_string (type_of_record d) (js "flight") = true) as Hf.
    { rewrite Hobj. cbn [type_of_record]. rewrite Ht. cbn [is_string].
      by apply bool_decide_eq_true_2. }
    rewrite Hd, type_of_ensureRequiredKeys, Ef in Hf. discriminate Hf.
Qed.

End Pipeline.

Lemma extraction_result_valid_witness :
  ∃ props tag,
    ensureRequiredKeys hotel_parsed = VObj props
    ∧ props !! js "type" = Some (VStr tag)
    ∧ tag ∈ [js "flight"; js "hotel"]
    ∧ (∀ k, k ∈ required_keys tag → is_Some (props !! k))
    ∧ (tag = js "flight" →
       props !! js "tripType" = Some one_way
       ∨ props !! js "tripType" = Some round_trip).
Proof.
  apply (extraction_result_valid lower_latin1 parse_sample stringify_sample
           (js "Now extract from this document: ") chat_sample
           (VStr (js "Grand Plaza, invoice 4711"))).
  vm_compute. reflexivity.
Defined.

(** ** The routes, continued *)

Section RoutesMore.

Variable toLowerCase : jsstring → jsstring.
Variable JSON_parse : jsstring → option value.
Variable JSON_stringify : value → jsstring.
Variables PROVIDER MODEL PROMPT_HEAD : jsstring.
Variable chat : jsstring → chat_reply.
Variable recognize : jsstring → Result jsstring.
Variable now : nat → Z.
Variable insert_outcome : nat → option error.

#[local] Abbreviation logEvalRun' := (logEvalRun PROVIDER MODEL now insert_outcome).
#[local] Abbreviation extraction' :=
  (extraction toLowerCase JSON_parse JSON_stringify PROMPT_HEAD chat).
#[local] Abbreviation attempt' :=
  (attempt toLowerCase JSON_parse JSON_stringify PROMPT_HEAD chat recognize).
#[local] Abbreviation post_extract' :=
  (post_extract toLowerCase JSON_parse JSON_stringify PROVIDER MODEL PROMPT_HEAD
     chat now insert_outcome).
#[local] Abbreviation post_extract_file' :=
  (post_extract_file toLowerCase JSON_parse JSON_stringify PROVIDER MODEL PROMPT_HEAD
     chat recognize now insert_outcome).
#[local] Abbreviation serve' :=
  (serve toLowerCase JSON_parse JSON_stringify PROVIDER MODEL PROMPT_HEAD
     chat recognize now insert_outcome).

(** X8: the table of evaluation runs only grows: a request leaves the
    rows that were there as they are, in place, and adds at most one,
    whatever the recorder does. *)
Theorem eval_runs_append_only (r : request) (w : world) :
  db w `prefix_of` db (snd (serve' r w))
  ∧ (length (db (snd (serve' r w))) ≤ S (length (db w)))%nat.
Proof.
  pose proof (serve_served toLowerCase JSON_parse JSON_stringify PROVIDER MODEL
                PROMPT_HEAD chat recognize now insert_outcome r w) as H.
  destruct (serve' r w) as [res w'].
  inversion H as [msg w1 Hn Hdb
                 |data' stored w1 Hd Hrec Hdb Hs
                 |e' stored w1 Hd Hrec Hdb Hs Hp
                 |data' e' stored w1 Hd Hrec1 Hrec2 Hdb Hs Hp
                 |e0 e' w1 Hd Hrec Hdb
                 |data' e1 e' w1 Hd Hrec1 Hrec2 Hdb]; subst; cbn [snd]; rewrite Hdb;
    rewrite ?length_app; cbn [length]; (split; [|lia]);
    first [reflexivity | by apply prefix_app_r].
Qed.

Ltac handler_step :=
  cbv beta iota delta [mbind M_bind mret M_ret Date_now lift db ticks inserts unlinked
                       try_catch try_finally unlink fmap option_fmap option_map].

Ltac recorder_case d u :=
  lazymatch goal with
  | |- context [logEvalRun _ _ _ _ ?row (World d ?t' ?i' u)] =>
      let E := fresh "E" in
      let stored := fresh "stored" in
      let Hs := fresh "Hs" in
      let Hp := fresh "Hp" in
      let Heq := fresh "Heq" in
      destruct (insert_outcome i') as [?|] eqn:E;
      [rewrite (logEvalRun_failed PROVIDER MODEL now insert_outcome row d t' i' u _ E)
      |destruct (logEvalRun_inserted PROVIDER MODEL now insert_outcome row d t' i' u E)
         as (stored & Hs & Hp & Heq); rewrite Heq];
      handler_step
  end.

(** X9: the upload of [/api/extract-file] is removed on every way out
    of the handler, once, and [/api/extract] removes nothing. *)
Theorem upload_removed_on_every_path (r : request) (w : world) :
  unlinked (snd (serve' r w)) = unlinked w ++ uploads_of r.
Proof.
  destruct w as [d t i u]. destruct r as [req|file]; cbn [serve uploads_of].
  - rewrite app_nil_r. unfold post_extract. handler_step.
    destruct (negb (truthy _)); [reflexivity|].
    destruct (extraction' _) as [data|e]; handler_step;
      repeat recorder_case d u; reflexivity.
  - unfold post_extract_file. handler_step.
    destruct file as [f|]; [|by rewrite app_nil_r].
    destruct (negb (starts_with _ _)).
    { destruct (path f); cbn [snd unlinked]; by rewrite ?app_nil_r. }
    unfold extractTextFromImage.
    destruct (recognize (path f)) as [ocrText|e]; handler_step;
      [destruct (extraction' _) as [data|e]; handler_step|];
      repeat recorder_case d u;
      destruct (path f); cbn [snd unlinked]; by rewrite ?app_nil_r.
Qed.

(** X10: a request whose text is truthy and not a string (a number, an
    array, an object) is not turned away with status 400: it fails in
    [normalizeText] before the provider is called, is answered with
    status 500, and is recorded as a failure, with zero input
    characters and the message of the error. *)
Theorem text_not_a_string_is_a_failure (req : extract_request) (w : world) (v : value) :
  body_text req = Some v →
  not_a_string v →
  insert_outcome (inserts w) = None →
  ∃ w' stored,
    post_extract' req w
    = (Ok (Response 500 (error_body (js "text.replace is not a function"))), w')
    ∧ db w' = db w ++ [stored]
    ∧ run_success stored = 0
    ∧ run_input_chars stored = 0
    ∧ run_parse_error stored = VStr (js "text.replace is not a function").
Proof.
  intros Hv [Htruthy Hns] Hrec. destruct w as [d t i u]. cbn [inserts ticks db] in *.
  assert (nullish_or (Some v) (VStr []) = v) as Hnull by (by destruct v).
  assert (extraction' v = Throw (Err TypeError (js "text.replace is not a function")))
    as Hext.
  { unfold extraction, callLLM. destruct v; try (by rewrite bind_Throw).
    by destruct (Hns s). }
  unfold post_extract. handler_step. rewrite Hv, Hnull, Htruthy, Hext. cbn [negb].
  handler_step. unfold logEvalRun. cbn [inserts ticks db unlinked]. rewrite Hrec.
  do 2 eexists. split; [reflexivity|]. cbn [db]. split; [reflexivity|].
  split; [reflexivity|]. split; [|reflexivity].
  cbn [run_input_chars input_chars]. destruct v; try reflexivity. by destruct (Hns s).
Qed.

(** X11: an error that the provider reports reaches the caller and the
    table word for word: status 500, the message as [error], and a row
    of failure with the message as [parse_error]. *)
Theorem provider_error_verbatim
    (req : extract_request) (w : world) (s msg : jsstring) :
  body_text req = Some (VStr s) →
  s ≠ [] →
  chat (buildPrompt PROMPT_HEAD (normalizeText s 12000)) = ChatError msg →
  insert_outcome (inserts w) = None →
  ∃ w' stored,
    post_extract' req w = (Ok (Response 500 (error_body msg)), w')
    ∧ db w' = db w ++ [stored]
    ∧ run_success stored = 0
    ∧ run_parse_error stored = VStr msg.
Proof.
  intros Hv Hs Hchat Hrec.
  assert (attempt' (PostExtract req) = Some (Throw (Err UpstreamError msg))) as Ha.
  { unfold attempt. rewrite Hv. cbn [nullish_or].
    destruct s as [|c s]; [done|]. cbn [truthy]. f_equal.
    unfold extraction, callLLM. by rewrite Hchat, bind_Throw. }
  pose proof (post_extract_served toLowerCase JSON_parse JSON_stringify PROVIDER MODEL
                PROMPT_HEAD chat recognize now insert_outcome req w) as H.
  rewrite Ha in H. destruct (post_extract' req w) as [res w'].
  inversion H as [msg' w1 Hn Hdb
                 |data' stored w1 Hd Hrec' Hdb Hst
                 |e' stored w1 Hd Hrec' Hdb Hst Hp
                 |data' e' stored w1 Hd Hrec1 Hrec2 Hdb Hst Hp
                 |e0 e' w1 Hd Hrec' Hdb
                 |data' e1 e' w1 Hd Hrec1 Hrec2 Hdb]; subst; try discriminate;
    try congruence.
  injection Hd as <-. eauto 10.
Qed.

(** X12: the row of a success agrees with the response: it has
    success 1 and holds the serialization of the data that is returned
    and their type tag, no error, the time between the two readings of
    the clock around the extraction, and the configuration of the
    server. *)
Theorem success_row_agrees_with_response
    (req : extract_request) (w : world) (data : value) :
  truthy (nullish_or (body_text req) (VStr [])) = true →
  extraction' (nullish_or (body_text req) (VStr [])) = Ok data →
  insert_outcome (inserts w) = None →
  ∃ w' stored,
    post_extract' req w = (Ok (Response 200 (ok_body data)), w')
    ∧ db w' = db w ++ [stored]
    ∧ run_success stored = 1
    ∧ run_json_output stored = VStr (JSON_stringify data)
    ∧ run_docType_pred stored = nullish_or (type_of_record data) VNull
    ∧ run_parse_error stored = VNull
    ∧ run_latency_ms stored = now (S (ticks w)) - now (ticks w)
    ∧ run_ocr_used stored = 0
    ∧ run_input_type stored = js "text"
    ∧ run_provider stored = PROVIDER
    ∧ run_model stored = MODEL.
Proof.
  intros Htruthy Hext Hrec. destruct w as [d t i u]. cbn [inserts ticks db] in *.
  unfold post_extract. handler_step. rewrite Htruthy, Hext. cbn [negb]. handler_step.
  unfold logEvalRun. cbn [inserts ticks db unlinked]. rewrite Hrec.
  do 2 eexists. split; [reflexivity|]. cbn [db]. split; [reflexivity|].
  repeat split.
Qed.

End RoutesMore.

Lemma text_not_a_string_is_a_failure_witness :
  ∃ w' stored,
    post_extract lower_latin1 parse_sample stringify_sample (js "openai")
      (js "gpt-4o-mini") (js "Now extract from this document: ") chat_sample
      now_sample insert_works request_numeric_text world0
    = (Ok (Response 500 (error_body (js "text.replace is not a function"))), w')
    ∧ db w' = db world0 ++ [stored]
    ∧ run_success stored = 0
    ∧ run_input_chars stored = 0
    ∧ run_parse_error stored = VStr (js "text.replace is not a function").
Proof.
  apply (text_not_a_string_is_a_failure lower_latin1 parse_sample stringify_sample
           (js "openai") (js "gpt-4o-mini") (js "Now extract from this document: ")
           chat_sample now_sample insert_works
           request_numeric_text world0 (VNum (S754_finite false 5 0))).
  - reflexivity.
  - split; [reflexivity | discriminate].
  - reflexivity.
Defined.

Lemma provider_error_verbatim_witness :
  ∃ w' stored,
    post_extract lower_latin1 parse_sample stringify_sample (js "openai")
      (js "gpt-4o-mini") (js "Now extract from this document: ") chat_overloaded
      now_sample insert_works request_hotel world0
    = (Ok (Response 500 (error_body (js "Rate limit reached"))), w')
    ∧ db w' = db world0 ++ [stored]
    ∧ run_success stored = 0
    ∧ run_parse_error stored = VStr (js "Rate limit reached").
Proof.
  apply (provider_error_verbatim lower_latin1 parse_sample stringify_sample
           (js "openai") (js "gpt-4o-mini") (js "Now extract from this document: ")
           chat_overloaded recognize_sample now_sample insert_works
           request_hotel world0 (js "Grand Plaza, invoice 4711")).
  - reflexivity.
  - vm_compute; discriminate.
  - reflexivity.
  - reflexivity.
Defined.

Lemma success_row_agrees_with_response_witness :
  ∃ w' stored,
    post_extract lower_latin1 parse_sample stringify_sample (js "openai")
      (js "gpt-4o-mini") (js "Now extract from this document: ") chat_sample
      now_sample insert_works request_hotel world0
    = (Ok (Response 200 (ok_body (ensureRequiredKeys hotel_parsed))), w')
    ∧ db w' = db world0 ++ [stored]
    ∧ run_success stored = 1
    ∧ run_json_output stored = VStr (stringify_sample (ensureRequiredKeys hotel_parsed))
    ∧ run_docType_pred stored
      = nullish_or (type_of_record (ensureRequiredKeys hotel_parsed)) VNull
    ∧ run_parse_error stored = VNull
    ∧ run_latency_ms stored = now_sample (S (ticks world0)) - now_sample (ticks world0)
    ∧ run_ocr_used stored = 0
    ∧ run_input_type stored = js "text"
    ∧ run_provider stored = js "openai"
    ∧ run_model stored = js "gpt-4o-mini".
Proof.
  apply (success_row_agrees_with_response lower_latin1 parse_sample stringify_sample
           (js "openai") (js "gpt-4o-mini") (js "Now extract from this document: ")
           chat_sample now_sample insert_works request_hotel world0).
  - vm_compute; reflexivity.
  - vm_compute; reflexivity.
  - reflexivity.
Defined.

(** ** Trimming and squeezing *)

Lemma trimStart_suffix (l : jsstring) : ∃ pre, l = pre ++ trimStart l.
Proof.
  induction l as [|c l [pre IH]]; [by exists []|]. cbn [trimStart].
  destruct (is_space c); [|by exists []].
  exists (c :: pre). by rewrite <- app_comm_cons, <- IH.
Qed.

Lemma trimEnd_prefix (l : jsstring) : ∃ post, l = trimEnd l ++ post.
Proof.
  induction l as [|c l [post IH]]; [by exists []|]. cbn [trimEnd].
  destruct (trimEnd l) as [|a r] eqn:E.
  - destruct (is_space c); [by exists (c :: l)|].
    exists post. cbn [app] in *. by rewrite <- IH.
  - exists post. rewrite <- app_comm_cons. by rewrite <- IH.
Qed.

Lemma trimStart_head (l : jsstring) :
  match trimStart l with a :: _ => is_space a = false | [] => True end.
Proof.
  induction l as [|c l IH]; [done|]. cbn [trimStart].
  by destruct (is_space c) eqn:E.
Qed.

Lemma trimEnd_head (l : jsstring) :
  trimEnd l ≠ [] → head (trimEnd l) = head l.
Proof.
  destruct l as [|c l]; [done|]. cbn [trimEnd].
  destruct (trimEnd l); [|done]. by destruct (is_space c).
Qed.

Lemma trimEnd_last (l : jsstring) :
  match last (trimEnd l) with Some b => is_space b = false | None => True end.
Proof.
  induction l as [|c l IH]; [done|]. cbn [trimEnd].
  destruct (trimEnd l) as [|a r] eqn:E.
  - by destruct (is_space c) eqn:Ec; cbn; rewrite ?Ec.
  - by rewrite last_cons_cons.
Qed.

(** [trim] leaves nothing, or a string that begins and ends with
    something else than white space. *)
Lemma trim_ends_outside (l : jsstring) : ends_outside is_space (trim l).
Proof.
  unfold trim, ends_outside.
  destruct (trimEnd (trimStart l)) as [|a r] eqn:E; [done|]. split.
  - pose proof (trimEnd_head (trimStart l)) as Hh. rewrite E in Hh.
    specialize (Hh ltac:(done)). pose proof (trimStart_head l) as Hs.
    destruct (trimStart l); [done|]. cbn in Hh. by injection Hh as ->.
  - pose proof (trimEnd_last (trimStart l)) as Hl. rewrite E in Hl.
    destruct (last (a :: r)) as [b|] eqn:El; [eauto|].
    by apply last_None in El.
Qed.

Lemma no_double_tail (p : code_unit → bool) (a : code_unit) (l : jsstring) :
  no_double p (a :: l) = true → no_double p l = true.
Proof. cbn [no_double]. by intros [_ ?]%andb_true_iff. Qed.

Lemma no_double_suffix (p : code_unit → bool) (pre l : jsstring) :
  no_double p (pre ++ l) = true → no_double p l = true.
Proof.
  induction pre as [|a pre IH]; [done|]. intros H. by apply IH, (no_double_tail p a).
Qed.

Lemma no_double_prefix (p : code_unit → bool) (l post : jsstring) :
  no_double p (l ++ post) = true → no_double p l = true.
Proof.
  induction l as [|a l IH]; [done|]. cbn [app no_double].
  intros [Ha Hl]%andb_true_iff. rewrite (IH Hl), andb_true_r.
  destruct l as [|b l]; [by rewrite andb_false_r | done].
Qed.

Lemma no_double_trim (l : jsstring) (p : code_unit → bool) :
  no_double p l = true → no_double p (trim l) = true.
Proof.
  intros H. unfold trim.
  destruct (trimStart_suffix l) as [pre Hpre].
  destruct (trimEnd_prefix (trimStart l)) as [post Hpost].
  rewrite Hpre in H. apply no_double_suffix in H.
  rewrite Hpost in H. by apply no_double_prefix in H.
Qed.

Lemma trim_Forall (P : code_unit → Prop) (l : jsstring) :
  Forall P l → Forall P (trim l).
Proof. intros H. by apply trimEnd_Forall, trimStart_Forall. Qed.

Lemma squeeze_replace (p : code_unit → bool) (c : code_unit) (s : jsstring)
    (prev : option code_unit) :
  replace_go (Rep 1 p) [c] 0 prev s = squeeze p c false s
  ∧ replace_go (Rep 1 p) [c] (run_length p s) prev s = squeeze p c true s.
Proof.
  revert prev. induction s as [|x s IH]; intros prev; [done|].
  assert (replace_go (Rep 1 p) [c] 0 prev (x :: s) = squeeze p c false (x :: s)) as H0.
  { cbn [replace_go squeeze]. unfold match_here. cbn [run].
    rewrite rep_class_greedy. cbn [run_length].
    destruct (p x).
    - rewrite decide_True by lia. cbn [Nat.add app]. f_equal. apply IH.
    - rewrite decide_False by lia. f_equal. apply IH. }
  split; [exact H0|].
  cbn [run_length]. destruct (p x) eqn:E.
  - cbn [replace_go squeeze]. rewrite E. apply IH.
  - rewrite H0. cbn [squeeze]. by rewrite E.
Qed.

Lemma collapse_squeeze (in_run : bool) (s : jsstring) :
  collapse in_run s = squeeze is_space space in_run s.
Proof.
  revert in_run. induction s as [|c s IH]; intros in_run; [done|].
  cbn [collapse squeeze]. by rewrite !IH.
Qed.

(** After squeezing with a code unit of the class, no two neighbours
    are in the class, and every code unit of the class is that one. *)
Lemma squeeze_shape (p : code_unit → bool) (c : code_unit) (s : jsstring) (in_run : bool) :
  p c = true →
  no_double p (squeeze p c in_run s) = true
  ∧ (in_run = true → match squeeze p c in_run s with a :: _ => p a = false | [] => True end)
  ∧ Forall (fun a => p a = true → a = c) (squeeze p c in_run s).
Proof.
  intros Hc. revert in_run. induction s as [|x s IH]; intros in_run; [done|].
  cbn [squeeze]. destruct (p x) eqn:Ex.
  - destruct in_run.
    + apply IH.
    + destruct (IH true) as (Hn & Hh & Hf). split; [|split; [done|by constructor]].
      cbn [no_double]. rewrite Hn, andb_true_r. specialize (Hh eq_refl).
      destruct (squeeze p c true s); [by rewrite andb_false_r|]. by rewrite Hh, andb_false_r.
  - destruct (IH false) as (Hn & _ & Hf). split; [|split; [done|]].
    + cbn [no_double]. by rewrite Ex, Hn.
    + constructor; [congruence | done].
Qed.

Lemma squeeze_Forall (P : code_unit → Prop) (p : code_unit → bool) (c : code_unit)
    (s : jsstring) (in_run : bool) :
  P c → Forall P s → Forall P (squeeze p c in_run s).
Proof.
  intros Hc Hs. revert in_run. induction Hs as [|x s Hx Hs IH]; intros in_run; [done|].
  cbn [squeeze]. destruct (p x); [destruct in_run|]; auto.
Qed.

Lemma squeeze_filter (q p : code_unit → bool) (c : code_unit) (s : jsstring) (in_run : bool) :
  q c = false → (∀ a, p a = true → q a = false) →
  filter (fun a => q a = true) (squeeze p c in_run s) = filter (fun a => q a = true) s.
Proof.
  intros Hc Hpq. revert in_run. induction s as [|x s IH]; intros in_run; [done|].
  cbn [squeeze]. destruct (p x) eqn:Ex.
  - rewrite (filter_cons_False _ x s) by (rewrite (Hpq x Ex); done).
    destruct in_run; [apply IH|].
    rewrite filter_cons_False by (rewrite Hc; done). apply IH.
  - rewrite !filter_cons. by rewrite IH.
Qed.

Lemma trim_filter (q : code_unit → bool) (l : jsstring) :
  (∀ a, is_space a = true → q a = false) →
  filter (fun a => q a = true) (trim l) = filter (fun a => q a = true) l.
Proof.
  intros Hq. unfold trim.
  assert (∀ x, filter (fun a => q a = true) (trimStart x) = filter (fun a => q a = true) x)
    as Hstart.
  { induction x as [|c x IH]; [done|]. cbn [trimStart]. destruct (is_space c) eqn:E; [|done].
    rewrite filter_cons_False by (rewrite (Hq c E); done). exact IH. }
  assert (∀ x, filter (fun a => q a = true) (trimEnd x) = filter (fun a => q a = true) x)
    as Hend.
  { induction x as [|c x IH]; [done|]. cbn [trimEnd].
    destruct (trimEnd x) as [|a r] eqn:E.
    - destruct (is_space c) eqn:Ec.
      + rewrite filter_cons_False by (rewrite (Hq c Ec); done). by rewrite <- IH.
      + rewrite !filter_cons. by rewrite <- IH.
    - rewrite !filter_cons. by rewrite <- IH. }
  by rewrite Hend, Hstart.
Qed.

(** ** Ticket numbers *)

Lemma in_range_spec (lo hi c : code_unit) :
  in_range lo hi c = true ↔ (lo ≤ c ≤ hi)%N.
Proof. unfold in_range. rewrite andb_true_iff, !N.leb_le. done. Qed.

Lemma is_space_cases (c : code_unit) :
  is_space c = true →
  (9 ≤ c ≤ 13 ∨ c = 32 ∨ c = 160 ∨ 5760 ≤ c)%N.
Proof.
  unfold is_space. intros H.
  repeat (apply orb_true_iff in H as [H|H]);
    try (apply in_range_spec in H); try (apply N.eqb_eq in H); lia.
Qed.

Lemma space_is_space : is_space space = true.
Proof. reflexivity. Qed.

Lemma digit_not_space (c : code_unit) : is_digit c = true → is_space c = false.
Proof.
  intros Hd%in_range_spec. destruct (is_space c) eqn:E; [|done].
  apply is_space_cases in E. lia.
Qed.

Lemma space_not_digit (c : code_unit) : is_space c = true → is_digit c = false.
Proof.
  intros Hs. destruct (is_digit c) eqn:E; [|done].
  apply digit_not_space in E. congruence.
Qed.

(** The two replacements and the trim of [cleanTicketNumber]. *)
Lemma ticket_digits_text (s : jsstring) :
  trim (replace_all re_spaces (js " ") (replace_all re_not_digit_space (js " ") s))
  = trim (squeeze is_space space false
            ((fun c => if negb (is_digit c || is_space c) then space else c) <$> s)).
Proof.
  unfold re_not_digit_space.
  by rewrite replace_all_Chr_space, replace_all_spaces, collapse_squeeze.
Qed.

Lemma cleanTicketNumber_text (s : jsstring) :
  text_of (cleanTicketNumber (Some (VStr s)))
  = trim (squeeze is_space space false
            ((fun c => if negb (is_digit c || is_space c) then space else c) <$> s)).
Proof.
  unfold cleanTicketNumber. rewrite ticket_digits_text.
  destruct s as [|c s]; [reflexivity|]. cbn [truthy negb].
  by destruct (trim _).
Qed.

Lemma cleanTicketNumber_null_or_text (t : option value) :
  cleanTicketNumber t = VNull
  ∨ ∃ s d, t = Some (VStr s) ∧ d ≠ [] ∧ cleanTicketNumber t = VStr d
           ∧ d = text_of (cleanTicketNumber (Some (VStr s))).
Proof.
  destruct t as [[| | |s| |]|]; try (by left).
  destruct (cleanTicketNumber (Some (VStr s))) as [| | |d| |] eqn:E;
    try (by left);
    try (unfold cleanTicketNumber in E; destruct (negb _); [done|];
         by destruct (truthy _)).
  right. exists s, d. split; [reflexivity|].
  split; [|split; [reflexivity | by rewrite E]].
  unfold cleanTicketNumber in E. destruct (negb _); [done|].
  destruct (trim _) as [|a r]; [done|]. cbn [truthy] in E. by injection E as <-.
Qed.

(** What is known of a cleaned ticket number that is not null. *)
Lemma cleanTicketNumber_parts (s d : jsstring) :
  d ≠ [] →
  d = text_of (cleanTicketNumber (Some (VStr s))) →
  Forall (fun c => is_digit c = true ∨ c = space) d
  ∧ no_double is_space d = true
  ∧ (∃ a, head d = Some a ∧ is_digit a = true)
  ∧ (∃ b, last d = Some b ∧ is_digit b = true).
Proof.
  intros Hne Hd. rewrite cleanTicketNumber_text in Hd.
  set (m := (fun c => if negb (is_digit c || is_space c) then space else c) <$> s) in *.
  destruct (squeeze_shape is_space space m false space_is_space) as (Hnd & _ & Hsp).
  assert (Forall (fun c => is_digit c = true ∨ is_space c = true) m) as Hm.
  { apply Forall_fmap, Forall_forall. intros c _. unfold compose.
    destruct (is_digit c) eqn:Ed; [by left|]. destruct (is_space c) eqn:Es; by right. }
  assert (Forall (fun c => is_digit c = true ∨ c = space) d) as Hall.
  { rewrite Hd. apply trim_Forall.
    pose proof (squeeze_Forall _ is_space space m false (or_intror space_is_space) Hm) as H1.
    rewrite Forall_forall in *. intros c Hc.
    destruct (H1 c Hc) as [?|Hs]; [by left|]. right. by apply (Hsp c Hc). }
  split; [done|]. split; [rewrite Hd; by apply no_double_trim|].
  pose proof (trim_ends_outside (squeeze is_space space false m)) as Hends.
  rewrite <- Hd in Hends. unfold ends_outside in Hends.
  destruct d as [|a d']; [done|]. destruct Hends as [Ha (b & Hb & Hbs)].
  rewrite Forall_forall in Hall. split.
  - exists a. split; [done|]. destruct (Hall a) as [?| ->]; [left | done | done].
  - exists b. split; [done|].
    destruct (Hall b) as [?| ->]; [by eapply last_Some_elem_of | done | done].
Qed.

(** X13: a cleaned ticket number is null, or a string that is not
    empty, made of digits and spaces, without two spaces in a row, and
    with a digit at both ends. *)
Theorem cleanTicketNumber_shape (t : option value) :
  cleanTicketNumber t = VNull
  ∨ ∃ d, cleanTicketNumber t = VStr d
         ∧ d ≠ []
         ∧ Forall (fun c => is_digit c = true ∨ c = space) d
         ∧ no_double is_space d = true
         ∧ (∃ a, head d = Some a ∧ is_digit a = true)
         ∧ (∃ b, last d = Some b ∧ is_digit b = true).
Proof.
  destruct (cleanTicketNumber_null_or_text t) as [?|(s & d & -> & Hne & Heq & Hd)];
    [by left|].
  right. exists d. split; [done|]. split; [done|].
  by apply (cleanTicketNumber_parts s).
Qed.

(** X14: ticket cleanup keeps every digit, in order, and nothing else
    but spaces; the outcome is null exactly when the input has no
    digit. *)
Theorem cleanTicketNumber_digits (s : jsstring) :
  filter (fun c => is_digit c = true) (text_of (cleanTicketNumber (Some (VStr s))))
  = filter (fun c => is_digit c = true) s
  ∧ (cleanTicketNumber (Some (VStr s)) = VNull
     ↔ filter (fun c => is_digit c = true) s = []).
Proof.
  assert (filter (fun c => is_digit c = true) (text_of (cleanTicketNumber (Some (VStr s))))
          = filter (fun c => is_digit c = true) s) as Hf.
  { rewrite cleanTicketNumber_text.
    rewrite trim_filter by apply space_not_digit.
    rewrite squeeze_filter by (reflexivity || apply space_not_digit).
    induction s as [|c s IH]; [done|]. rewrite fmap_cons, !filter_cons, IH.
    destruct (is_digit c) eqn:Ed; cbn [orb negb]; [by rewrite Ed|].
    destruct (is_space c) eqn:Es; cbn [negb]; [by rewrite Ed | done]. }
  split; [exact Hf|]. rewrite <- Hf. split; [by intros ->|].
  intros Hnil.
  destruct (cleanTicketNumber_null_or_text (Some (VStr s)))
    as [?|(s' & d & [= <-] & Hne & Heq & Hd)]; [done|].
  destruct (cleanTicketNumber_parts s d Hne Hd) as (_ & _ & (a & Ha & Had) & _).
  rewrite Heq in Hnil. cbn [text_of] in Hnil.
  destruct d as [|a' d]; [done|]. injection Ha as ->.
  rewrite filter_cons_True in Hnil by done. done.
Qed.

(** ** Names *)

Lemma in_range_not (lo hi c : code_unit) :
  in_range lo hi c = false ↔ (c < lo ∨ hi < c)%N.
Proof. unfold in_range. rewrite andb_false_iff, !N.leb_gt. done. Qed.

Ltac code_units :=
  repeat match goal with
         | H : in_range _ _ _ = true |- _ => apply in_range_spec in H
         | H : in_range _ _ _ = false |- _ => apply in_range_not in H
         | H : N.eqb _ _ = true |- _ => apply N.eqb_eq in H
         | H : N.eqb _ _ = false |- _ => apply N.eqb_neq in H
         | H : is_space _ = true |- _ => apply is_space_cases in H
         end.

Ltac not_space :=
  match goal with
  | |- is_space ?x = false =>
      let E := fresh in destruct (is_space x) eqn:E; [code_units; lia | reflexivity]
  end.

(** Upper-casing leaves white space alone and never makes any. *)
Lemma upper_code_unit_space (c : code_unit) :
  is_space c = true → upper_code_unit c = [c].
Proof.
  intros H. unfold upper_code_unit.
  repeat case_match; code_units; try lia; reflexivity.
Qed.

Lemma upper_code_unit_not_space (c : code_unit) :
  is_space c = false →
  upper_code_unit c ≠ [] ∧ Forall (fun x => is_space x = false) (upper_code_unit c).
Proof.
  intros H. unfold upper_code_unit.
  repeat case_match; (split; [done|]); repeat constructor;
    try assumption; try reflexivity; not_space.
Qed.

Lemma upper_name_char (c : code_unit) :
  name_class c = true → (is_space c = true → c = space) →
  Forall (fun x => cleaned_name_char x = true) (upper_code_unit c).
Proof.
  intros Hn Hs. destruct (is_space c) eqn:Es.
  { rewrite (Hs eq_refl). by repeat constructor. }
  clear Hs. unfold name_class in Hn. rewrite Es, orb_false_r in Hn.
  repeat (apply orb_true_iff in Hn as [Hn|Hn]);
    unfold upper_code_unit; repeat case_match; code_units; try lia;
    repeat constructor; try reflexivity;
    unfold cleaned_name_char; rewrite !orb_true_iff, !in_range_spec, !N.eqb_eq; lia.
Qed.

Lemma no_double_app_outside (p : code_unit → bool) (u v : jsstring) :
  Forall (fun x => p x = false) u → no_double p (u ++ v) = no_double p v.
Proof.
  induction 1 as [|a u Ha Hu IH]; [done|]. cbn [app no_double]. by rewrite Ha, IH.
Qed.

(** A map of each code unit to a string that keeps the class [p] (one
    of the class stays as it is, another gives a string that is not
    empty and has none of the class) keeps the shape of the text. *)
Lemma bind_no_double (p : code_unit → bool) (f : code_unit → jsstring) (l : jsstring) :
  (∀ c, p c = true → f c = [c]) →
  (∀ c, p c = false → f c ≠ [] ∧ Forall (fun x => p x = false) (f c)) →
  no_double p l = true → no_double p (l ≫= f) = true.
Proof.
  intros Hin Hout. induction l as [|a l IH]; [done|].
  cbn [no_double]. intros [Ha Hl]%andb_true_iff. rewrite bind_cons.
  destruct (p a) eqn:Ea.
  - rewrite (Hin a Ea). cbn [app no_double]. rewrite (IH Hl), andb_true_r, Ea.
    destruct l as [|b l]; [done|]. cbn [andb negb] in Ha.
    apply negb_true_iff in Ha. rewrite bind_cons.
    destruct (Hout b Ha) as [Hne Hall]. destruct Hall as [|x xs Hx _]; [done|].
    cbn [app]. by rewrite Hx.
  - destruct (Hout a Ea) as [_ Hall]. rewrite (no_double_app_outside p _ _ Hall). auto.
Qed.

Lemma bind_ends_outside (p : code_unit → bool) (f : code_unit → jsstring) (l : jsstring) :
  (∀ c, p c = false → f c ≠ [] ∧ Forall (fun x => p x = false) (f c)) →
  ends_outside p l → ends_outside p (l ≫= f).
Proof.
  intros Hout. unfold ends_outside at 1. destruct l as [|a l]; [done|].
  intros [Ha (b & Hb & Hpb)].
  apply last_Some in Hb as [l0 Hl0].
  assert ((a :: l) ≫= f = (l0 ≫= f) ++ f b) as Hlast.
  { rewrite Hl0, bind_app, bind_cons. cbn [mbind list_bind]. by rewrite app_nil_r. }
  destruct (Hout a Ha) as [Hne Hall].
  assert (∃ x r, (a :: l) ≫= f = x :: r ∧ p x = false) as (x & r & Hx & Hpx).
  { rewrite bind_cons. destruct Hall as [|x xs Hx Hxs]; [done|].
    by exists x, (xs ++ l ≫= f). }
  rewrite Hx. cbn [ends_outside]. split; [exact Hpx|]. rewrite <- Hx, Hlast.
  destruct (Hout b Hpb) as [Hnb Hallb].
  destruct (last (f b)) as [y|] eqn:Ey; [|by apply last_None in Ey].
  exists y. split; [by rewrite last_app, Ey|].
  rewrite Forall_forall in Hallb. by eapply Hallb, last_Some_elem_of.
Qed.

(** What [cleanNameAllCaps] hands to [toUpperCase]. *)
Lemma name_stripped_shape (x : jsstring) :
  let t := trim (replace_all re_spaces (js " ") (replace_all re_not_name (js " ") x)) in
  Forall (fun c => name_class c = true ∧ (is_space c = true → c = space)) t
  ∧ no_double is_space t = true
  ∧ ends_outside is_space t.
Proof.
  cbv zeta. rewrite replace_all_spaces, collapse_squeeze.
  unfold re_not_name. rewrite replace_all_Chr_space.
  set (m := (fun c => if negb (name_class c) then space else c) <$> x).
  destruct (squeeze_shape is_space space m false space_is_space) as (Hnd & _ & Hsp).
  split; [|split; [by apply no_double_trim | apply trim_ends_outside]].
  apply trim_Forall, Forall_and. split; [|exact Hsp].
  apply squeeze_Forall; [reflexivity|].
  apply Forall_fmap, Forall_forall. intros c _. unfold compose.
  by destruct (name_class c) eqn:E.
Qed.

(** The value of [cleanNameAllCaps]: null, or the capitals of a
    stripped text that is not empty. *)
Lemma cleanNameAllCaps_value (name : option value) :
  cleanNameAllCaps name = VNull
  ∨ ∃ x, trim (replace_all re_spaces (js " ") (replace_all re_not_name (js " ") x)) ≠ []
         ∧ cleanNameAllCaps name
           = VStr (toUpperCase
                     (trim (replace_all re_spaces (js " ")
                              (replace_all re_not_name (js " ") x)))).
Proof.
  destruct name as [[| | |s| |]|]; try (by left).
  unfold cleanNameAllCaps. destruct (negb (truthy (VStr s))); [by left|].
  cbv zeta. generalize (replace_all re_honorific [] s). intros x.
  destruct (trim _) as [|a t] eqn:E; [by left|]. cbn [truthy negb].
  right. exists x. by rewrite E.
Qed.

(** Upper-casing a stripped text that is not empty. *)
Lemma toUpperCase_name_shape (t : jsstring) :
  t ≠ [] →
  Forall (fun c => name_class c = true ∧ (is_space c = true → c = space)) t →
  no_double is_space t = true →
  ends_outside is_space t →
  toUpperCase t ≠ []
  ∧ Forall (fun c => cleaned_name_char c = true) (toUpperCase t)
  ∧ no_double is_space (toUpperCase t) = true
  ∧ ends_outside is_space (toUpperCase t).
Proof.
  intros Hne Hf Hn He.
  assert (∀ c, is_space c = false →
            upper_code_unit c ≠ [] ∧ Forall (fun x => is_space x = false) (upper_code_unit c))
    as Hout by apply upper_code_unit_not_space.
  split; [|split; [|split]].
  - destruct t as [|a t]; [done|]. destruct He as [Ha _]. destruct (Hout a Ha) as [Hu _].
    unfold toUpperCase. rewrite bind_cons. by destruct (upper_code_unit a).
  - unfold toUpperCase. apply Forall_bind. eapply Forall_impl; [exact Hf|].
    intros c [Hc Hs]. by apply upper_name_char.
  - by apply bind_no_double; [apply upper_code_unit_space|..].
  - by apply bind_ends_outside.
Qed.

(** X15: a cleaned name is null, or a string that is not empty, made of
    capitals, spaces, apostrophes and hyphens (no digit, no small
    letter), without two spaces in a row and without a space at either
    end. *)
Theorem cleanNameAllCaps_shape (name : option value) :
  cleanNameAllCaps name = VNull
  ∨ ∃ d, cleanNameAllCaps name = VStr d
         ∧ d ≠ []
         ∧ Forall (fun c => cleaned_name_char c = true) d
         ∧ no_double is_space d = true
         ∧ ends_outside is_space d.
Proof.
  destruct (cleanNameAllCaps_value name) as [Hnull|(x & Hne & Hval)]; [by left|].
  right. destruct (name_stripped_shape x) as (Hf & Hn & He). cbv zeta in Hf, Hn, He.
  exists (toUpperCase (trim (replace_all re_spaces (js " ")
                               (replace_all re_not_name (js " ") x)))).
  split; [exact Hval|]. by apply toUpperCase_name_shape.
Qed.

(** ** Runs of one code unit *)

Lemma run_length_le (p : code_unit → bool) (s : jsstring) :
  (run_length p s ≤ length s)%nat.
Proof. induction s as [|x s IH]; cbn [run_length length]; [lia|]. destruct (p x); lia. Qed.

Lemma run_length_take (p : code_unit → bool) (s : jsstring) :
  Forall (fun x => p x = true) (take (run_length p s) s).
Proof.
  induction s as [|x s IH]; cbn [run_length]; [constructor|].
  destruct (p x) eqn:E; cbn [take]; by constructor.
Qed.

Lemma run_length_drop (p : code_unit → bool) (s : jsstring) :
  run_length p (drop (run_length p s) s) = 0%nat.
Proof.
  induction s as [|x s IH]; cbn [run_length]; [done|].
  destruct (p x) eqn:E; cbn [drop run_length]; [done | by rewrite E].
Qed.

Lemma run_length_app (p : code_unit → bool) (u v : jsstring) :
  Forall (fun x => p x = true) u →
  run_length p (u ++ v) = (length u + run_length p v)%nat.
Proof.
  induction 1 as [|x u Hx Hu IH]; [done|]. cbn [app run_length length]. rewrite Hx, IH. lia.
Qed.

Lemma run_length_prefix (p : code_unit → bool) (l post : jsstring) :
  (run_length p l ≤ run_length p (l ++ post))%nat.
Proof.
  induction l as [|x l IH]; cbn [app run_length]; [lia|]. destruct (p x); lia.
Qed.

Lemma runs_below_suffix (p : code_unit → bool) (n : nat) (pre l : jsstring) :
  runs_below p n (pre ++ l) = true → runs_below p n l = true.
Proof.
  induction pre as [|a pre IH]; [done|]. cbn [app runs_below].
  intros [_ H]%andb_true_iff. by apply IH.
Qed.

Lemma runs_below_prefix (p : code_unit → bool) (n : nat) (l post : jsstring) :
  runs_below p n (l ++ post) = true → runs_below p n l = true.
Proof.
  induction l as [|a l IH]; [done|]. cbn [app runs_below].
  intros [Ha Hl]%andb_true_iff. rewrite (IH Hl), andb_true_r.
  apply Nat.ltb_lt in Ha. apply Nat.ltb_lt.
  pose proof (run_length_prefix p (a :: l) post). cbn [app] in *. lia.
Qed.

(** The replacement of [/c{3,}/g] by two [c], step by step: a run
    shorter than three is copied, a longer one becomes two. *)
Lemma cap_runs_ind (c : code_unit) (Q : jsstring → jsstring → Prop) :
  Q [] [] →
  (∀ x s o, (run_length (N.eqb c) (x :: s) < 3)%nat → Q s o → Q (x :: s) (x :: o)) →
  (∀ u v o, (3 ≤ length u)%nat → Forall (fun x => x = c) u →
            run_length (N.eqb c) v = 0%nat → Q v o → Q (u ++ v) (c :: c :: o)) →
  ∀ s prev, Q s (replace_go (Rep 3 (N.eqb c)) [c; c] 0 prev s).
Proof.
  intros Hnil Hcopy Hcap s.
  remember (length s) as n eqn:Hn. revert s Hn.
  induction n as [n IH] using lt_wf_ind. intros s Hn prev.
  destruct s as [|x s]; [exact Hnil|].
  cbn [replace_go]. unfold match_here. cbn [run]. rewrite rep_class_greedy.
  destruct (decide (3 ≤ run_length (N.eqb c) (x :: s))%nat) as [Hlong|Hshort].
  - destruct (run_length (N.eqb c) (x :: s)) as [|k] eqn:Ek; [lia|].
    cbn [Nat.add app].
    assert (N.eqb c x = true ∧ k = run_length (N.eqb c) s) as [Hx Hk].
    { cbn [run_length] in Ek. destruct (N.eqb c x); [split; [done | lia] | done]. }
    pose proof (run_length_le (N.eqb c) s) as Hle.
    assert (replace_go (Rep 3 (N.eqb c)) [c; c] k (Some x) s
            = replace_go (Rep 3 (N.eqb c)) [c; c] 0
                (prev_after (Some x) (take k s)) (drop k s)) as ->.
    { rewrite <- (replace_go_skip _ _ (take k s) (drop k s)).
      by rewrite take_drop, length_take_le by lia. }
    replace (x :: s) with ((x :: take k s) ++ drop k s)
      by (cbn [app]; by rewrite take_drop).
    apply Hcap.
    + cbn [length]. rewrite length_take_le by lia. lia.
    + constructor; [symmetry; by apply N.eqb_eq|].
      rewrite Hk. eapply Forall_impl; [apply run_length_take|].
      intros y Hy. symmetry. by apply N.eqb_eq.
    + rewrite Hk. apply run_length_drop.
    + apply (IH (length (drop k s))); [|done].
      rewrite Hn, length_drop. cbn [length]. lia.
  - apply Hcopy; [lia|]. apply (IH (length s)); [|done]. rewrite Hn. cbn [length]. lia.
Qed.

Lemma no_double_weaken (p q : code_unit → bool) (l : jsstring) :
  (∀ c, q c = true → p c = true) →
  no_double p l = true → no_double q l = true.
Proof.
  intros Hqp. induction l as [|a l IH]; [done|]. cbn [no_double].
  intros [Ha Hl]%andb_true_iff. rewrite (IH Hl), andb_true_r.
  apply negb_true_iff. apply negb_true_iff in Ha.
  destruct (q a) eqn:Ea; [|done]. rewrite (Hqp a Ea) in Ha. cbn [andb] in *.
  destruct l as [|b l]; [done|]. destruct (q b) eqn:Eb; [|done].
  by rewrite (Hqp b Eb) in Ha.
Qed.

(** What the replacement of runs of three and more does to a text. *)
Lemma cap_runs_shape (c : code_unit) (s : jsstring) (prev : option code_unit) :
  let o := replace_go (Rep 3 (N.eqb c)) [c; c] 0 prev s in
  head o = head s
  ∧ run_length (N.eqb c) o = Nat.min 2 (run_length (N.eqb c) s)
  ∧ runs_below (N.eqb c) 3 o = true
  ∧ (∀ q, q c = false → no_double q s = true → no_double q o = true)
  ∧ (runs_below (N.eqb c) 3 s = true → o = s).
Proof.
  cbv zeta. revert s prev.
  apply (cap_runs_ind c (fun s o =>
    head o = head s
    ∧ run_length (N.eqb c) o = Nat.min 2 (run_length (N.eqb c) s)
    ∧ runs_below (N.eqb c) 3 o = true
    ∧ (∀ q, q c = false → no_double q s = true → no_double q o = true)
    ∧ (runs_below (N.eqb c) 3 s = true → o = s))).
  - by repeat split.
  - intros x s o Hshort (Hh & Hr & Hb & Hq & Hfix). split; [done|].
    assert (run_length (N.eqb c) (x :: o)
            = Nat.min 2 (run_length (N.eqb c) (x :: s))) as Hrl.
    { cbn [run_length] in *. destruct (N.eqb c x); lia. }
    split; [exact Hrl|]. split; [|split].
    + cbn [runs_below]. rewrite Hb, andb_true_r. apply Nat.ltb_lt. lia.
    + intros q Hqc. cbn [no_double]. intros [Hx Hs]%andb_true_iff.
      rewrite (Hq q Hqc Hs), andb_true_r.
      destruct o as [|b o], s as [|b' s]; try done. by injection Hh as ->.
    + cbn [runs_below]. intros [_ Hs]%andb_true_iff. by rewrite (Hfix Hs).
  - intros u v o Hu Hall Hv (Hh & Hr & Hb & Hq & Hfix).
    assert (Forall (fun x => N.eqb c x = true) u) as Hall'.
    { eapply Forall_impl; [exact Hall|]. intros x ->. apply N.eqb_refl. }
    assert (run_length (N.eqb c) o = 0%nat) as Ho by (rewrite Hr, Hv; done).
    split; [|split; [|split; [|split]]].
    + destruct Hall as [|x u Hx _]; [cbn [length] in Hu; lia|]. by rewrite Hx.
    + rewrite run_length_app by done. cbn [run_length]. rewrite N.eqb_refl, Ho. lia.
    + cbn [runs_below run_length]. rewrite N.eqb_refl, Ho, Hb. done.
    + intros q Hqc Hs. apply no_double_suffix in Hs.
      cbn [no_double]. rewrite Hqc. cbn [andb negb]. auto.
    + intros Hs. destruct u as [|x u]; [cbn [length] in Hu; lia|].
      cbn [app runs_below] in Hs. apply andb_true_iff in Hs as [Hs _].
      apply Nat.ltb_lt in Hs.
      pose proof (run_length_app (N.eqb c) (x :: u) v Hall') as Happ.
      cbn [app] in Happ. lia.
Qed.

(** A replacement adds only code units of the replacement. *)
Lemma replace_go_Forall (P : code_unit → Prop) (r : regex) (by_ : jsstring) (skip : nat)
    (prev : option code_unit) (s : jsstring) :
  Forall P by_ → Forall P s → Forall P (replace_go r by_ skip prev s).
Proof.
  intros Hby Hs. revert skip prev.
  induction Hs as [|c s Hc Hs IH]; intros skip prev.
  - destruct skip; cbn [replace_go]; [|done].
    destruct (match_here r prev []) as [[|]|]; rewrite ?app_nil_r; done.
  - destruct skip; cbn [replace_go]; [|apply IH].
    destruct (match_here r prev (c :: s)) as [[|n]|];
      repeat first [apply Forall_app_2 | apply Forall_cons_2]; auto.
Qed.

(** ** Fixed points of the cleaning steps *)

Lemma squeeze_fixed (p : code_unit → bool) (c : code_unit) (l : jsstring) :
  no_double p l = true → Forall (fun a => p a = true → a = c) l →
  squeeze p c false l = l
  ∧ (match l with a :: _ => p a = false | [] => True end → squeeze p c true l = l).
Proof.
  intros Hn Hf. induction Hf as [|a l Ha Hf IH]; [done|].
  cbn [no_double] in Hn. apply andb_true_iff in Hn as [Hh Hn].
  destruct (IH Hn) as [IH0 IH1]. cbn [squeeze]. destruct (p a) eqn:Ea.
  - split; [|done]. rewrite (Ha eq_refl). f_equal. apply IH1.
    destruct l as [|b l]; [done|]. cbn [andb] in Hh. by apply negb_true_iff in Hh.
  - rewrite IH0. by split.
Qed.

Lemma trimStart_fixed (l : jsstring) :
  match l with a :: _ => is_space a = false | [] => True end → trimStart l = l.
Proof. destruct l as [|a l]; [done|]. cbn [trimStart]. by intros ->. Qed.

Lemma trimEnd_fixed (l : jsstring) :
  (∀ b, last l = Some b → is_space b = false) → trimEnd l = l.
Proof.
  induction l as [|a l IH]; [done|]. intros Hlast. cbn [trimEnd].
  destruct l as [|b l].
  - cbn [trimEnd]. by rewrite (Hlast a eq_refl).
  - rewrite IH; [done|]. intros y Hy. apply Hlast. by rewrite last_cons, Hy.
Qed.

Lemma trim_fixed (l : jsstring) : ends_outside is_space l → trim l = l.
Proof.
  intros H. unfold trim. rewrite (trimStart_fixed l).
  - apply trimEnd_fixed. destruct l as [|a l]; [done|].
    destruct H as [_ (b & Hb & Hs)]. intros y Hy. congruence.
  - destruct l; [done|]. apply H.
Qed.

Lemma trim_infix (l : jsstring) : ∃ pre post, l = pre ++ trim l ++ post.
Proof.
  destruct (trimStart_suffix l) as [pre Hpre].
  destruct (trimEnd_prefix (trimStart l)) as [post Hpost].
  exists pre, post. unfold trim. by rewrite <- Hpost.
Qed.

Lemma runs_below_trim (p : code_unit → bool) (n : nat) (l : jsstring) :
  runs_below p n l = true → runs_below p n (trim l) = true.
Proof.
  destruct (trim_infix l) as (pre & post & Hl). rewrite Hl at 1.
  intros H%runs_below_suffix. by apply runs_below_prefix in H.
Qed.

Lemma slice_0 (s : jsstring) (max : Z) :
  0 ≤ max → slice s 0 max = take (Z.to_nat max) s.
Proof.
  intros Hmax. unfold slice.
  replace (0 <? 0) with false by done.
  replace (max <? 0) with false by (symmetry; apply Z.ltb_ge; lia).
  rewrite (Z.min_l 0) by lia. rewrite Z.sub_0_r, Z2Nat.inj_0, drop_0.
  destruct (decide (max ≤ Z.of_nat (length s))) as [Hle|Hgt].
  - by rewrite Z.min_l by lia.
  - rewrite Z.min_r by lia. rewrite Nat2Z.id.
    rewrite (take_ge s (length s)) by lia.
    by rewrite (take_ge s (Z.to_nat max)) by lia.
Qed.

(** ** The cleaning chain of [normalizeText] *)

(** The three replacements and the trim, before the cut. *)
Lemma clean_chain_shape (text : jsstring) :
  let u := trim (replace_all re_newlines [newline; newline]
                   (replace_all re_blanks (js " ")
                      (replace_all re_nbsp (js " ") text))) in
  Forall (fun c => c ≠ 160%N ∧ (is_blank c = true → c = space)) u
  ∧ no_double is_blank u = true
  ∧ runs_below (N.eqb newline) 3 u = true
  ∧ ends_outside is_space u.
Proof.
  cbv zeta. unfold re_nbsp, chr. rewrite replace_all_Chr_space.
  set (x1 := (fun c => if N.eqb 160 c then space else c) <$> text).
  assert (Forall (fun c => c ≠ 160%N) x1) as H1.
  { apply Forall_fmap, Forall_forall. intros c _. unfold compose.
    destruct (N.eqb 160 c) eqn:E; [done|]. apply N.eqb_neq in E. congruence. }
  assert (replace_all re_blanks (js " ") x1 = squeeze is_blank space false x1) as ->
    by apply squeeze_replace.
  set (x2 := squeeze is_blank space false x1).
  destruct (squeeze_shape is_blank space x1 false eq_refl) as (Hnd & _ & Hsp).
  fold x2 in Hnd, Hsp.
  assert (Forall (fun c => c ≠ 160%N) x2) as H2 by (by apply squeeze_Forall).
  unfold replace_all, re_newlines.
  destruct (cap_runs_shape newline x2 None) as (_ & _ & Hb & Hq & _).
  cbv zeta in Hb, Hq. split; [|split; [|split]].
  - apply trim_Forall, replace_go_Forall; [by repeat constructor|].
    apply Forall_and. by split.
  - by apply no_double_trim, Hq.
  - by apply runs_below_trim.
  - apply trim_ends_outside.
Qed.

(** A text of that shape goes through the chain unchanged. *)
Lemma clean_chain_fixed (u : jsstring) :
  Forall (fun c => c ≠ 160%N ∧ (is_blank c = true → c = space)) u →
  no_double is_blank u = true →
  runs_below (N.eqb newline) 3 u = true →
  ends_outside is_space u →
  trim (replace_all re_newlines [newline; newline]
          (replace_all re_blanks (js " ")
             (replace_all re_nbsp (js " ") u))) = u.
Proof.
  intros Hf Hn Hb He. apply Forall_and in Hf as [H160 Hsp].
  unfold re_nbsp, chr. rewrite replace_all_Chr_space.
  assert ((fun c => if N.eqb 160 c then space else c) <$> u = u) as ->.
  { rewrite <- (list_fmap_id u) at 2. apply Forall_fmap_ext_1.
    eapply Forall_impl; [exact H160|]. intros c Hc. cbv beta.
    destruct (N.eqb 160 c) eqn:E; [|done]. apply N.eqb_eq in E. congruence. }
  assert (replace_all re_blanks (js " ") u = squeeze is_blank space false u) as ->
    by apply squeeze_replace.
  destruct (squeeze_fixed is_blank space u Hn Hsp) as [-> _].
  unfold replace_all, re_newlines.
  destruct (cap_runs_shape newline u None) as (_ & _ & _ & _ & Hfix).
  cbv zeta in Hfix. change (Rep 3 (N.eqb 10)) with (Rep 3 (N.eqb newline)).
  rewrite (Hfix Hb). by apply trim_fixed.
Qed.

(** X16: for a bound that is not negative, [normalizeText] returns at
    most [max] code units, with no no-break space and no tab, no two
    spaces in a row, no three line feeds in a row, and no white space
    at the start. *)
Theorem normalizeText_shape (text : jsstring) (max : Z) :
  0 ≤ max →
  Z.of_nat (length (normalizeText text max)) ≤ max
  ∧ Forall (fun c => c ≠ 160%N ∧ c ≠ 9%N) (normalizeText text max)
  ∧ no_double (N.eqb space) (normalizeText text max) = true
  ∧ runs_below (N.eqb newline) 3 (normalizeText text max) = true
  ∧ match normalizeText text max with a :: _ => is_space a = false | [] => True end.
Proof.
  intros Hmax. unfold normalizeText. rewrite slice_0 by done.
  destruct (clean_chain_shape text) as (Hf & Hn & Hb & He). cbv zeta in Hf, Hn, Hb, He.
  change [10%N; 10%N] with [newline; newline].
  set (u := trim _) in *. set (n := Z.to_nat max).
  split; [|split; [|split; [|split]]].
  - rewrite length_take. lia.
  - apply Forall_take. eapply Forall_impl; [exact Hf|]. intros c [H160 Hsp].
    split; [done|]. intros ->. by specialize (Hsp eq_refl).
  - apply (no_double_weaken is_blank).
    + intros c Hc%N.eqb_eq. by rewrite <- Hc.
    + apply (no_double_prefix _ _ (drop n u)). by rewrite take_drop.
  - apply (runs_below_prefix _ _ _ (drop n u)). by rewrite take_drop.
  - destruct u as [|a u']; [by rewrite take_nil|]. destruct n; [done|]. apply He.
Qed.

(** X17: the text that [extractTextFromPdf] returns, and the text that
    the web client sends, are already clean: [normalizeText] does
    nothing to them but cut them at [max]. *)
Theorem normalizeText_of_clean_text (pages : list (list value)) (text : jsstring)
    (max : Z) :
  normalizeText (extractTextFromPdf pages) max = slice (extractTextFromPdf pages) 0 max
  ∧ normalizeText (normalized text) max = slice (normalized text) 0 max.
Proof.
  unfold normalizeText, extractTextFromPdf, normalized. cbv zeta.
  generalize (foldl (fun fullText items =>
                       fullText ++ join (js " ") (str_of_item <$> items)
                       ++ [newline; newline]) [] pages).
  intros fullText.
  destruct (clean_chain_shape fullText) as (Hf & Hn & Hb & He).
  destruct (clean_chain_shape text) as (Hf' & Hn' & Hb' & He').
  split; f_equal; by apply clean_chain_fixed.
Qed.

Lemma normalizeText_shape_witness :
  Z.of_nat (length (normalizeText text_ragged 12000)) ≤ 12000
  ∧ Forall (fun c => c ≠ 160%N ∧ c ≠ 9%N) (normalizeText text_ragged 12000)
  ∧ no_double (N.eqb space) (normalizeText text_ragged 12000) = true
  ∧ runs_below (N.eqb newline) 3 (normalizeText text_ragged 12000) = true
  ∧ match normalizeText text_ragged 12000 with
    | a :: _ => is_space a = false
    | [] => True
    end.
Proof. apply (normalizeText_shape text_ragged 12000). lia. Defined.

(** ** Code fences *)

(** A replacement by the empty string returns a subsequence. *)
Lemma replace_go_remove_sublist (r : regex) (skip : nat) (prev : option code_unit)
    (s : jsstring) :
  replace_go r [] skip prev s `sublist_of` s.
Proof.
  revert skip prev. induction s as [|c s IH]; intros skip prev.
  - destruct skip; cbn [replace_go]; [|done].
    by destruct (match_here r prev []) as [[|]|].
  - destruct skip; cbn [replace_go]; [|apply sublist_cons, IH].
    destruct (match_here r prev (c :: s)) as [[|n]|]; cbn [app].
    + apply sublist_skip, IH.
    + apply sublist_cons, IH.
    + apply sublist_skip, IH.
Qed.

Lemma trim_sublist (l : jsstring) : trim l `sublist_of` l.
Proof.
  destruct (trim_infix l) as (pre & post & Hl). rewrite Hl at 2.
  by apply sublist_inserts_l, sublist_inserts_r.
Qed.

Lemma match_here_fence (prev : option code_unit) (s : jsstring) :
  match_here re_fence prev s = if starts_with fence s then Some 3%nat else None.
Proof.
  change re_fence with (Cat (chr 96) (Cat (chr 96) (Cat (chr 96) Eps))).
  unfold match_here, chr, fence, backtick.
  destruct s as [|a s]; cbn [run starts_with]; [done|].
  destruct (N.eqb 96 a); cbn [andb]; [|done].
  destruct s as [|b s]; cbn [run starts_with]; [done|].
  destruct (N.eqb 96 b); cbn [andb]; [|done].
  destruct s as [|c s]; cbn [run starts_with]; [done|].
  by destruct (N.eqb 96 c).
Qed.

Lemma starts_with_fence (s : jsstring) :
  starts_with fence s = true ↔ ∃ v, s = fence ++ v.
Proof.
  unfold fence. split.
  - destruct s as [|a [|b [|c v]]]; cbn [starts_with]; rewrite ?andb_true_iff;
      try (intros [? ?]; discriminate); try discriminate; try (intros (? & ? & ?); discriminate).
    intros (Ha%N.eqb_eq & Hb%N.eqb_eq & Hc%N.eqb_eq & _). subst. by exists v.
  - intros [v ->]. cbn [app starts_with]. by rewrite !N.eqb_refl.
Qed.

Lemma fence_run (s : jsstring) :
  starts_with fence s = true ↔ (3 ≤ run_length (N.eqb backtick) s)%nat.
Proof.
  unfold fence.
  destruct s as [|a [|b [|c v]]]; cbn [starts_with run_length];
    repeat (destruct (N.eqb backtick _); cbn [andb]); split; (done || lia).
Qed.

(** The removal of the fences, step by step. *)
Lemma remove_fences_ind (Q : jsstring → jsstring → Prop) :
  Q [] [] →
  (∀ x s o, starts_with fence (x :: s) = false → Q s o → Q (x :: s) (x :: o)) →
  (∀ s o, Q s o → Q (fence ++ s) o) →
  ∀ s prev, Q s (replace_go re_fence [] 0 prev s).
Proof.
  intros Hnil Hcopy Hcut s.
  remember (length s) as n eqn:Hn. revert s Hn.
  induction n as [n IH] using lt_wf_ind. intros s Hn prev.
  destruct s as [|x s].
  { cbn [replace_go]. rewrite match_here_fence. exact Hnil. }
  cbn [replace_go]. rewrite match_here_fence.
  destruct (starts_with fence (x :: s)) eqn:E.
  - apply starts_with_fence in E as [v Hv]. unfold fence in Hv. cbn [app] in Hv.
    injection Hv as -> ->. cbn [app replace_go].
    apply (Hcut v). apply (IH (length v)); [|done]. rewrite Hn. cbn [length]. lia.
  - apply Hcopy; [done|]. apply (IH (length s)); [|done]. rewrite Hn. cbn [length]. lia.
Qed.

(** After the removal no run of backticks is as long as a fence. *)
Lemma remove_fences_runs (s : jsstring) (prev : option code_unit) :
  let o := replace_go re_fence [] 0 prev s in
  (run_length (N.eqb backtick) o ≤ run_length (N.eqb backtick) s)%nat
  ∧ runs_below (N.eqb backtick) 3 o = true.
Proof.
  cbv zeta. revert s prev.
  apply (remove_fences_ind (fun s o =>
    (run_length (N.eqb backtick) o ≤ run_length (N.eqb backtick) s)%nat
    ∧ runs_below (N.eqb backtick) 3 o = true)).
  - done.
  - intros x s o Hno [Hle Hb].
    assert (run_length (N.eqb backtick) (x :: s) < 3)%nat as Hshort.
    { destruct (decide (3 ≤ run_length (N.eqb backtick) (x :: s))%nat) as [H|H]; [|lia].
      apply fence_run in H. congruence. }
    assert (run_length (N.eqb backtick) (x :: o)
            ≤ run_length (N.eqb backtick) (x :: s))%nat as Hle'.
    { cbn [run_length]. destruct (N.eqb backtick x); lia. }
    split; [exact Hle'|]. cbn [runs_below]. rewrite Hb, andb_true_r.
    apply Nat.ltb_lt. lia.
  - intros s o [Hle Hb]. split; [|done].
    unfold fence. cbn [app run_length]. rewrite N.eqb_refl. lia.
Qed.

(** X18: what [stripCodeFences] returns holds no fence; it is a
    subsequence of the input, and has no white space at either end. *)
Theorem stripCodeFences_no_fence (s : jsstring) :
  (∀ pre post, stripCodeFences s ≠ pre ++ fence ++ post)
  ∧ stripCodeFences s `sublist_of` s
  ∧ ends_outside is_space (stripCodeFences s).
Proof.
  unfold stripCodeFences. destruct (negb (truthy (VStr s))).
  { split; [|split; [apply sublist_nil_l | done]].
    intros pre post H. by destruct pre. }
  generalize (replace_go_remove_sublist re_fence_json 0 None s).
  fold (replace_all re_fence_json [] s).
  generalize (replace_all re_fence_json [] s). intros y Hy.
  split; [|split].
  - intros pre post H.
    destruct (remove_fences_runs y None) as [_ Hb]. cbv zeta in Hb.
    apply runs_below_trim in Hb. unfold replace_all in H. rewrite H in Hb.
    apply runs_below_suffix in Hb. unfold fence in Hb.
    cbn [app runs_below run_length] in Hb. rewrite N.eqb_refl in Hb.
    by destruct (run_length _ post).
  - etrans; [apply trim_sublist|]. etrans; [|exact Hy].
    apply replace_go_remove_sublist.
  - apply trim_ends_outside.
Qed.

(** ** The client on the responses of the server *)

Lemma assertValidOutput_Ok_type (stringify : value → jsstring) (obj : value) :
  assertValidOutput stringify obj = Ok () →
  (is_string (type_of_record obj) (js "flight")
   || is_string (type_of_record obj) (js "hotel"))%bool = true.
Proof.
  unfold assertValidOutput. cbv zeta.
  destruct (is_string (type_of_record obj) (js "flight"));
    destruct (is_string (type_of_record obj) (js "hotel")); cbn [negb andb orb];
    first [reflexivity | discriminate].
Qed.

Section ClientOfServer.

Variable toLowerCase : jsstring → jsstring.
Variable JSON_parse : jsstring → option value.
Variable JSON_stringify : value → jsstring.
Variables PROVIDER MODEL PROMPT_HEAD : jsstring.
Variable chat : jsstring → chat_reply.
Variable recognize : jsstring → Result jsstring.
Variable now : nat → Z.
Variable insert_outcome : nat → option error.
Variable parse_reply : jsstring → option value.
Variable ToString : value → jsstring.
Variable Number_toString : Z → jsstring.

#[local] Abbreviation extraction' :=
  (extraction toLowerCase JSON_parse JSON_stringify PROMPT_HEAD chat).
#[local] Abbreviation attempt' :=
  (attempt toLowerCase JSON_parse JSON_stringify PROMPT_HEAD chat recognize).
#[local] Abbreviation serve' :=
  (serve toLowerCase JSON_parse JSON_stringify PROVIDER MODEL PROMPT_HEAD chat recognize
     now insert_outcome).
#[local] Abbreviation read_reply' := (read_reply parse_reply ToString Number_toString).

Lemma extraction_Ok_type (text data : value) :
  extraction' text = Ok data →
  (is_string (type_of_record data) (js "flight")
   || is_string (type_of_record data) (js "hotel"))%bool = true.
Proof.
  unfold extraction.
  destruct (callLLM _ _ _ text) as [d0|]; [rewrite bind_Ok | by rewrite bind_Throw].
  cbv zeta beta.
  destruct (assertValidOutput _ (ensureRequiredKeys d0)) as [[]|];
    [rewrite bind_Ok | by rewrite bind_Throw].
  destruct (is_string (type_of_record (ensureRequiredKeys d0)) (js "flight")).
  - destruct (postProcessFlight _ _ _) as [out|];
      [rewrite fmap_Ok, bind_Ok | by rewrite fmap_Throw, bind_Throw].
    remember (ensureRequiredKeys (VObj out)) as d eqn:Hd.
    destruct (assertValidOutput _ d) as [[]|] eqn:Hv;
      [rewrite bind_Ok | by rewrite bind_Throw].
    intros [= <-]. exact (assertValidOutput_Ok_type _ _ Hv).
  - rewrite bind_Ok.
    remember (ensureRequiredKeys (ensureRequiredKeys d0)) as d eqn:Hd.
    destruct (assertValidOutput _ d) as [[]|] eqn:Hv;
      [rewrite bind_Ok | by rewrite bind_Throw].
    intros [= <-]. exact (assertValidOutput_Ok_type _ _ Hv).
Qed.

Lemma attempt_Ok_type (r : request) (data : value) :
  attempt' r = Some (Ok data) →
  (is_string (type_of_record data) (js "flight")
   || is_string (type_of_record data) (js "hotel"))%bool = true.
Proof.
  destruct r as [req|[f|]]; unfold attempt.
  - destruct (truthy _); [|discriminate]. intros [= H]. exact (extraction_Ok_type _ _ H).
  - destruct (starts_with _ _); [|discriminate].
    destruct (recognize (path f)) as [ocrText|]; [rewrite bind_Ok | by rewrite bind_Throw].
    intros [= H]. exact (extraction_Ok_type _ _ H).
  - discriminate.
Qed.

Lemma read_reply_error (failed : jsstring) (rep : http_reply) (msg : jsstring) :
  reply_status rep = 400 ∨ reply_status rep = 500 →
  reply_text rep ≠ [] →
  parse_reply (reply_text rep) = Some (error_body msg) →
  read_reply' failed rep = inl msg.
Proof.
  intros Hst Htext Hparse. unfold read_reply. rewrite Hparse.
  destruct (reply_text rep) as [|c t]; [done|]. cbn [truthy]. cbv zeta.
  assert (reply_ok rep = false) as -> by (unfold reply_ok; by destruct Hst as [-> | ->]).
  cbn [negb]. unfold error_body. cbn [props_of].
  by rewrite lookup_singleton_eq.
Qed.

Lemma read_reply_data (failed : jsstring) (rep : http_reply) (data : value) :
  reply_status rep = 200 →
  reply_text rep ≠ [] →
  parse_reply (reply_text rep) = Some (ok_body data) →
  (is_string (type_of_record data) (js "flight")
   || is_string (type_of_record data) (js "hotel"))%bool = true →
  read_reply' failed rep = inr data.
Proof.
  intros Hst Htext Hparse Htype. unfold read_reply. rewrite Hparse.
  destruct (reply_text rep) as [|c t]; [done|]. cbn [truthy]. cbv zeta.
  assert (reply_ok rep = true) as -> by (unfold reply_ok; by rewrite Hst).
  cbn [negb]. unfold ok_body. cbn [props_of].
  rewrite lookup_insert_eq. cbn [truthy_prop truthy negb].
  rewrite lookup_insert_ne by key_ne. rewrite lookup_singleton_eq.
  destruct data as [| | | | |props]; try discriminate Htype.
  cbn [type_of_record props_of] in *. rewrite Htype. cbn [negb orb].
  assert (truthy_prop (props !! js "type") = true) as ->; [|done].
  unfold is_string in Htype. destruct (props !! js "type") as [[| | |x| |]|]; try done.
  apply orb_true_iff in Htype as [H|H]; apply bool_decide_eq_true_1 in H; by subst x.
Qed.

(** X19: when the reply that the client reads carries the response of
    the server, [callTextExtraction] and [callFileOcrExtraction] return
    the data of a 200 response, which is the outcome of the extraction,
    and throw the error message of a 400 or 500 response as it is: on a
    response of this server the client never reports invalid data and
    never uses a message of its own. *)
Theorem client_reads_response (r : request) (w : world) (resp : response)
    (rep : http_reply) :
  fst (serve' r w) = Ok resp →
  carries parse_reply rep resp →
  (∃ data, attempt' r = Some (Ok data)
           ∧ resp = Response 200 (ok_body data)
           ∧ callTextExtraction parse_reply ToString Number_toString rep = inr data
           ∧ callFileOcrExtraction parse_reply ToString Number_toString rep = inr data)
  ∨ (∃ msg, (status resp = 400 ∨ status resp = 500)
            ∧ body resp = error_body msg
            ∧ callTextExtraction parse_reply ToString Number_toString rep = inl msg
            ∧ callFileOcrExtraction parse_reply ToString Number_toString rep = inl msg).
Proof.
  intros Hserve (Hst & Htext & Hparse).
  pose proof (serve_served toLowerCase JSON_parse JSON_stringify PROVIDER MODEL
                PROMPT_HEAD chat recognize now insert_outcome r w) as H.
  destruct (serve' r w) as [res w'].
  cbn [fst] in Hserve. subst res.
  unfold callTextExtraction, callFileOcrExtraction.
  inversion H as [msg w1 Ha Hdb | data stored w1 Ha Hrec Hdb Hs
                 | e stored w1 Ha Hrec Hdb Hs Hp
                 | data e stored w1 Ha Hrec1 Hrec2 Hdb Hs Hp | |]; subst; cbn [status body] in *.
  - right. exists msg. split; [by left|]. split; [done|].
    split; apply read_reply_error; auto.
  - left. exists data. split; [done|]. split; [done|].
    pose proof (attempt_Ok_type r data Ha) as Htype.
    split; by apply read_reply_data.
  - right. exists (message e). split; [by right|]. split; [done|].
    split; apply read_reply_error; auto.
  - right. exists (message e). split; [by right|]. split; [done|].
    split; apply read_reply_error; auto.
Qed.

End ClientOfServer.

Lemma client_reads_response_witness :
  (∃ data, attempt lower_latin1 parse_sample stringify_sample
             (js "Now extract from this document: ") chat_sample recognize_sample
             (PostExtract request_hotel) = Some (Ok data)
           ∧ Response 200 (ok_body (ensureRequiredKeys hotel_parsed))
             = Response 200 (ok_body data)
           ∧ callTextExtraction parse_reply_sample (fun _ => []) (fun _ => [])
               reply_sample = inr data
           ∧ callFileOcrExtraction parse_reply_sample (fun _ => []) (fun _ => [])
               reply_sample = inr data)
  ∨ (∃ msg, (status (Response 200 (ok_body (ensureRequiredKeys hotel_parsed))) = 400
             ∨ status (Response 200 (ok_body (ensureRequiredKeys hotel_parsed))) = 500)
            ∧ body (Response 200 (ok_body (ensureRequiredKeys hotel_parsed)))
              = error_body msg
            ∧ callTextExtraction parse_reply_sample (fun _ => []) (fun _ => [])
                reply_sample = inl msg
            ∧ callFileOcrExtraction parse_reply_sample (fun _ => []) (fun _ => [])
                reply_sample = inl msg).
Proof.
  apply (client_reads_response lower_latin1 parse_sample stringify_sample
           (js "openai") (js "gpt-4o-mini") (js "Now extract from this document: ")
           chat_sample recognize_sample now_sample insert_works
           parse_reply_sample (fun _ => []) (fun _ => [])
           (PostExtract request_hotel) world0).
  - vm_compute; reflexivity.
  - split; [reflexivity|]. split; [discriminate|]. vm_compute; reflexivity.
Defined.

(** ** The fields of a flight that the pipeline returns *)

Lemma cleanNameAllCaps_clean (name : option value) : clean_name (cleanNameAllCaps name).
Proof.
  destruct (cleanNameAllCaps_value name) as [Hnull|(x & Hne & Hval)]; [by left|].
  right. destruct (name_stripped_shape x) as (Hf & Hn & He). cbv zeta in Hf, Hn, He.
  eexists. split; [exact Hval|]. by apply toUpperCase_name_shape.
Qed.

Lemma cleanTicketNumber_clean (t : option value) : clean_ticket (cleanTicketNumber t).
Proof.
  destruct (cleanTicketNumber_null_or_text t) as [?|(s & d & -> & Hne & Heq & Hd)];
    [by left|].
  right. exists d. split; [done|]. split; [done|].
  destruct (cleanTicketNumber_parts s d Hne Hd) as (Hall & Hnd & (a & Ha & Hda) & (b & Hb & Hdb)).
  split; [done|]. split; [done|].
  destruct d as [|a' d']; [done|]. cbn [ends_outside]. cbn [head] in Ha.
  injection Ha as ->. split; [by apply digit_not_space|].
  exists b. split; [done | by apply digit_not_space].
Qed.

Lemma cleaned_fields (flightObj : object) :
  cleaned flightObj !! js "passengerName"
  = Some (cleanNameAllCaps (flightObj !! js "passengerName"))
  ∧ cleaned flightObj !! js "ticketNumber"
    = Some (cleanTicketNumber (flightObj !! js "ticketNumber")).
Proof.
  unfold cleaned. split.
  - rewrite !lookup_insert_ne by key_ne. apply lookup_insert_eq.
  - rewrite lookup_insert_ne by key_ne. apply lookup_insert_eq.
Qed.

Section FlightFields.

Variable toLowerCase : jsstring → jsstring.
Variable JSON_parse : jsstring → option value.
Variable JSON_stringify : value → jsstring.
Variable PROMPT_HEAD : jsstring.
Variable chat : jsstring → chat_reply.

#[local] Abbreviation extraction' :=
  (extraction toLowerCase JSON_parse JSON_stringify PROMPT_HEAD chat).

(** X20: in a flight that the pipeline returns, the passenger name is
    null or a cleaned name, and the ticket number is null or groups of
    digits, whatever the model answered for them. *)
Theorem flight_fields_clean (text data : value) :
  extraction' text = Ok data →
  is_string (type_of_record data) (js "flight") = true →
  (∃ n, props_of data !! js "passengerName" = Some n ∧ clean_name n)
  ∧ (∃ t, props_of data !! js "ticketNumber" = Some t ∧ clean_ticket t).
Proof.
  unfold extraction.
  destruct (callLLM _ _ _ text) as [d0|]; [rewrite bind_Ok | by rewrite bind_Throw].
  cbv zeta beta.
  destruct (assertValidOutput _ (ensureRequiredKeys d0)) as [[]|];
    [rewrite bind_Ok | by rewrite bind_Throw].
  destruct (is_string (type_of_record (ensureRequiredKeys d0)) (js "flight")) eqn:Ef.
  - destruct (postProcessFlight _ _ _) as [out|] eqn:Hp;
      [rewrite fmap_Ok, bind_Ok | by rewrite fmap_Throw, bind_Throw].
    remember (ensureRequiredKeys (VObj out)) as d eqn:Hd.
    destruct (assertValidOutput _ d) as [[]|] eqn:Hv;
      [rewrite bind_Ok | by rewrite bind_Throw].
    intros [= <-] _. rewrite Hd.
    set (flightObj := props_of (ensureRequiredKeys d0)) in *.
    destruct (cleaned_fields flightObj) as [Hname Hticket].
    assert (out !! js "passengerName"
            = Some (cleanNameAllCaps (flightObj !! js "passengerName"))
            ∧ out !! js "ticketNumber"
              = Some (cleanTicketNumber (flightObj !! js "ticketNumber"))) as [Hn Ht].
    { apply postProcessFlight_Ok in Hp as [-> | [-> | ->]];
        rewrite ?lookup_insert_ne by key_ne; by split. }
    split.
    + eexists. split; [by apply ensureRequiredKeys_keeps|]. apply cleanNameAllCaps_clean.
    + eexists. split; [by apply ensureRequiredKeys_keeps|]. apply cleanTicketNumber_clean.
  - rewrite bind_Ok.
    remember (ensureRequiredKeys (ensureRequiredKeys d0)) as d eqn:Hd.
    destruct (assertValidOutput _ d) as [[]|] eqn:Hv;
      [rewrite bind_Ok | by rewrite bind_Throw].
    intros [= <-]. rewrite Hd, type_of_ensureRequiredKeys. intros H.
    rewrite H in Ef. discriminate Ef.
Qed.

End FlightFields.

Lemma flight_fields_clean_witness :
  (∃ n, props_of flight_served !! js "passengerName" = Some n ∧ clean_name n)
  ∧ (∃ t, props_of flight_served !! js "ticketNumber" = Some t ∧ clean_ticket t).
Proof.
  apply (flight_fields_clean lower_latin1 parse_flight_sample stringify_sample
           (js "Now extract from this document: ") chat_flight_sample
           (VStr text_round_trip) flight_served).
  - vm_compute; reflexivity.
  - vm_compute; reflexivity.
Defined.

(** ** The batch runner on the responses of the server *)

Section BatchOfServer.

Variable toLowerCase : jsstring → jsstring.
Variable JSON_parse : jsstring → option value.
Variable JSON_stringify : value → jsstring.
Variables PROVIDER MODEL PROMPT_HEAD : jsstring.
Variable chat : jsstring → chat_reply.
Variable recognize : jsstring → Result jsstring.
Variable now : nat → Z.
Variable insert_outcome : nat → option error.
Variable parse_reply : jsstring → option value.
Variable ToString : value → jsstring.
Variable Number_toString : Z → jsstring.
Variable fetch : extract_request → Result http_reply.

#[local] Abbreviation attempt' :=
  (attempt toLowerCase JSON_parse JSON_stringify PROMPT_HEAD chat recognize).
#[local] Abbreviation serve' :=
  (serve toLowerCase JSON_parse JSON_stringify PROVIDER MODEL PROMPT_HEAD chat recognize
     now insert_outcome).
#[local] Abbreviation batch_file' :=
  (batch_file parse_reply ToString Number_toString fetch).

Lemma postExtract_error (text fileName : jsstring) (rep : http_reply) (msg : jsstring) :
  fetch (ExtractRequest (Some (VStr text)) (Some (VStr fileName))) = Ok rep →
  reply_status rep = 400 ∨ reply_status rep = 500 →
  ∃ m, postExtract parse_reply ToString Number_toString fetch text fileName = inl m.
Proof.
  intros Hfetch Hst. unfold postExtract. rewrite Hfetch. cbv zeta.
  assert (reply_ok rep = false) as -> by (unfold reply_ok; by destruct Hst as [-> | ->]).
  cbn [negb orb]. eauto.
Qed.

Lemma postExtract_data (text fileName : jsstring) (rep : http_reply) (data : value) :
  fetch (ExtractRequest (Some (VStr text)) (Some (VStr fileName))) = Ok rep →
  reply_status rep = 200 →
  parse_reply (reply_text rep) = Some (ok_body data) →
  postExtract parse_reply ToString Number_toString fetch text fileName = inr (Some data).
Proof.
  intros Hfetch Hst Hparse. unfold postExtract. rewrite Hfetch, Hparse. cbv zeta.
  assert (reply_ok rep = true) as -> by (unfold reply_ok; by rewrite Hst).
  unfold ok_body. cbn [props_of negb orb].
  rewrite lookup_insert_eq. cbn [truthy_prop truthy negb].
  rewrite lookup_insert_ne by key_ne. by rewrite lookup_singleton_eq.
Qed.

(** X21: for a file whose text has at least 40 code units, the request
    of the batch runner is never turned away; when the server answers
    it, one row is added to the table, and the line that the runner
    prints agrees with the row: OK with success 1, FAIL with success
    0. *)
Theorem batch_line_agrees_with_row (text fileName : jsstring) (w : world)
    (resp : response) (rep : http_reply) :
  40 ≤ Z.of_nat (length text) →
  fst (serve' (PostExtract (ExtractRequest (Some (VStr text)) (Some (VStr fileName)))) w)
  = Ok resp →
  fetch (ExtractRequest (Some (VStr text)) (Some (VStr fileName))) = Ok rep →
  carries parse_reply rep resp →
  ∃ stored,
    db (snd (serve' (PostExtract (ExtractRequest (Some (VStr text)) (Some (VStr fileName))))
               w))
    = db w ++ [stored]
    ∧ ((batch_file' (Ok text) fileName = LineOk ∧ run_success stored = 1)
       ∨ (∃ msg, batch_file' (Ok text) fileName = LineFail msg ∧ run_success stored = 0)).
Proof.
  intros Hlen Hserve Hfetch (Hst & Htext & Hparse).
  set (req := ExtractRequest (Some (VStr text)) (Some (VStr fileName))) in *.
  pose proof (serve_served toLowerCase JSON_parse JSON_stringify PROVIDER MODEL
                PROMPT_HEAD chat recognize now insert_outcome (PostExtract req) w) as H.
  destruct (serve' (PostExtract req) w) as [res w'].
  cbn [fst] in Hserve. cbn [snd]. subst res.
  assert (batch_file' (Ok text) fileName
          = match postExtract parse_reply ToString Number_toString fetch text fileName with
            | inl msg => LineFail msg
            | inr _ => LineOk
            end) as Hline.
  { unfold batch_file. destruct text as [|c t]; [cbn [length] in Hlen; lia|].
    cbn [truthy negb orb].
    by replace (Z.of_nat (length (c :: t)) <? 40) with false
      by (symmetry; apply Z.ltb_ge; lia). }
  inversion H as [msg w1 Ha Hdb | data stored w1 Ha Hrec Hdb Hs
                 | e stored w1 Ha Hrec Hdb Hs Hp
                 | data e stored w1 Ha Hrec1 Hrec2 Hdb Hs Hp | |]; subst;
    cbn [status body] in *.
  - exfalso. unfold attempt, req in Ha. cbn [body_text nullish_or] in Ha.
    destruct text as [|c t]; [cbn [length] in Hlen; lia | discriminate Ha].
  - exists stored. split; [done|]. left. split; [|done].
    rewrite Hline. by rewrite (postExtract_data text fileName rep data).
  - exists stored. split; [done|]. right.
    destruct (postExtract_error text fileName rep (message e) Hfetch) as [m Hm]; [auto|].
    exists m. split; [|done]. by rewrite Hline, Hm.
  - exists stored. split; [done|]. right.
    destruct (postExtract_error text fileName rep (message e) Hfetch) as [m Hm]; [auto|].
    exists m. split; [|done]. by rewrite Hline, Hm.
Qed.

End BatchOfServer.

Lemma batch_line_agrees_with_row_witness :
  ∃ stored,
    db (snd (serve_sample insert_works
               (PostExtract (ExtractRequest (Some (VStr text_round_trip))
                               (Some (VStr (js "ticket.pdf"))))) world0))
    = db world0 ++ [stored]
    ∧ ((batch_file parse_reply_sample (fun _ => []) (fun _ => []) fetch_sample
          (Ok text_round_trip) (js "ticket.pdf") = LineOk
        ∧ run_success stored = 1)
       ∨ (∃ msg, batch_file parse_reply_sample (fun _ => []) (fun _ => []) fetch_sample
                   (Ok text_round_trip) (js "ticket.pdf") = LineFail msg
                 ∧ run_success stored = 0)).
Proof.
  apply (batch_line_agrees_with_row lower_latin1 parse_sample stringify_sample
           (js "openai") (js "gpt-4o-mini") (js "Now extract from this document: ")
           chat_sample recognize_sample now_sample insert_works
           parse_reply_sample (fun _ => []) (fun _ => []) fetch_sample
           text_round_trip (js "ticket.pdf") world0
           (Response 200 (ok_body (ensureRequiredKeys hotel_parsed))) reply_sample).
  - vm_compute; discriminate.
  - vm_compute; reflexivity.
  - reflexivity.
  - split; [reflexivity|]. split; [discriminate|]. vm_compute; reflexivity.
Defined.

(** ** Name cleanup, in the words of the claim *)

Lemma is_word_name_word (c : code_unit) : is_word c = true → is_name_word c = true.
Proof.
  unfold is_word, is_name_word, is_letter, is_digit.
  destruct (in_range 65 90 c), (in_range 97 122 c), (in_range 48 57 c), (N.eqb c 95);
    cbn [orb]; intros H; rewrite ?orb_true_r; done.
Qed.

Lemma accented_not_word (c : code_unit) :
  accented c = true → is_word c = false ∧ is_name_word c = true.
Proof.
  unfold accented. intros [[Hr H1]%andb_true_iff H2]%andb_true_iff. split.
  - destruct (is_word c) eqn:E; [|done]. unfold is_word in E.
    repeat (apply orb_true_iff in E as [E|E]); code_units; lia.
  - unfold is_name_word, is_letter. by rewrite Hr, H1, H2, !orb_true_r.
Qed.

Lemma name_word_accented (c : code_unit) :
  is_name_word c = true → is_word c = false → accented c = true.
Proof.
  unfold is_name_word, is_letter, is_word, is_digit, accented.
  destruct (in_range 65 90 c), (in_range 97 122 c), (in_range 48 57 c), (N.eqb c 95);
    cbn [orb]; try done.
  by rewrite !orb_false_r.
Qed.

Lemma not_name_word (c : code_unit) :
  is_name_word c = false → is_word c = false ∧ accented c = false.
Proof.
  intros H. split.
  - destruct (is_word c) eqn:E; [|done]. apply is_word_name_word in E. congruence.
  - destruct (accented c) eqn:E; [|done]. apply accented_not_word in E as [_ E].
    congruence.
Qed.

Lemma starts_in_name_word (rest : jsstring) :
  starts_in is_name_word rest = false → word_here rest = false.
Proof.
  destruct rest as [|d rest]; [done|]. cbn [starts_in word_here].
  intros H. by apply not_name_word in H as [H _].
Qed.

Lemma span_name_word (s : jsstring) :
  ∃ w rest, s = w ++ rest ∧ Forall (fun c => is_name_word c = true) w
            ∧ starts_in is_name_word rest = false.
Proof.
  induction s as [|c s (w & rest & -> & Hw & Hrest)].
  - by exists [], [].
  - destruct (is_name_word c) eqn:E.
    + exists (c :: w), rest. split; [done|]. split; [by constructor | done].
    + exists [], (c :: w ++ rest). split; [done|]. split; [constructor | done].
Qed.

Lemma name_tokens_sep (c : code_unit) (s : jsstring) :
  is_name_word c = false → name_tokens (c :: s) = Sep c :: name_tokens s.
Proof. intros E. cbn [name_tokens]. by rewrite E. Qed.

Lemma name_tokens_word (w rest : jsstring) :
  w ≠ [] → Forall (fun c => is_name_word c = true) w →
  starts_in is_name_word rest = false →
  name_tokens (w ++ rest) = Word w :: name_tokens rest.
Proof.
  intros Hne Hw Hrest. induction Hw as [|c w Hc Hw IH]; [done|].
  cbn [app name_tokens]. rewrite Hc. destruct w as [|c' w].
  - cbn [app]. destruct rest as [|d rest]; [done|].
    cbn [starts_in] in Hrest. by rewrite name_tokens_sep.
  - by rewrite IH.
Qed.

(** An honorific is made of ASCII letters. *)
Lemma is_honorific_word (w : jsstring) :
  is_honorific w = true → Forall (fun c => is_word c = true) w.
Proof.
  unfold is_honorific. intros H%bool_decide_eq_true_1.
  assert (Forall (Forall (fun x => in_range 65 90 x = true)) honorifics) as Hcap
    by (apply (bool_decide_unpack _); vm_compute; exact I).
  rewrite Forall_forall in Hcap. specialize (Hcap _ H).
  apply Forall_fmap in Hcap. eapply Forall_impl; [exact Hcap|].
  intros c Hc. by apply (fold_case_word c (fold_case c)).
Qed.

Lemma pure_or_accented (u : jsstring) :
  Forall (fun c => is_name_word c = true) u →
  Forall (fun c => is_word c = true) u ∨ Exists (fun c => accented c = true) u.
Proof.
  induction 1 as [|c u Hc Hu [IH|IH]]; [by left| |right; by apply Exists_cons_tl].
  destruct (is_word c) eqn:E; [left; by constructor|].
  right. apply Exists_cons_hd. by apply name_word_accented.
Qed.

Lemma accented_not_honorific (u : jsstring) :
  Exists (fun c => accented c = true) u → is_honorific u = false.
Proof.
  intros Hacc. destruct (is_honorific u) eqn:E; [|done].
  apply is_honorific_word in E. rewrite Forall_forall in E.
  apply Exists_exists in Hacc as (c & Hc & Ha).
  apply accented_not_word in Ha as [Ha _]. rewrite (E c Hc) in Ha. done.
Qed.

Lemma honorifics_apart_start (f : bool) (rest : jsstring) :
  starts_in is_name_word rest = false →
  honorifics_apart f (tokens rest) = honorifics_apart false (tokens rest).
Proof.
  destruct rest as [|d rest]; [done|]. cbn [starts_in]. intros [Hd _]%not_name_word.
  by rewrite tokens_sep.
Qed.

(** Inside a word that holds an accented letter, the words of the
    expression are no honorifics, and the expression leaves the word as
    it is. *)
Lemma strip_in_accented_word (n : nat) (u rest : jsstring) (f : bool) :
  (length u ≤ n)%nat →
  Forall (fun c => is_name_word c = true) u →
  starts_in is_name_word rest = false →
  f = true ∨ Exists (fun c => accented c = true) u →
  honorifics_apart f (tokens (u ++ rest)) = true →
  drop_honorifics (tokens (u ++ rest)) ≫= token_text
  = u ++ (drop_honorifics (tokens rest) ≫= token_text)
  ∧ honorifics_apart false (tokens rest) = true.
Proof.
  revert u f. induction n as [|n IH]; intros u f Hlen Hu Hrest Hpre Hap.
  { destruct u; [|cbn [length] in Hlen; lia]. cbn [app] in *.
    split; [done|]. by rewrite <- (honorifics_apart_start f). }
  destruct (span_word u) as (w & u' & -> & Hw & Hu').
  apply Forall_app in Hu as [Huw Hu'w].
  destruct w as [|c w].
  - cbn [app] in *. destruct u' as [|a u''].
    { cbn [app] in *. split; [done|]. by rewrite <- (honorifics_apart_start f). }
    cbn [word_here] in Hu'. apply Forall_cons in Hu'w as [Ha Hu''].
    pose proof (name_word_accented a Ha Hu') as Hacc.
    cbn [app] in *. rewrite tokens_sep in * by done.
    cbn [honorifics_apart drop_honorifics] in *. rewrite Hacc in Hap.
    destruct (IH u'' true) as [Hflat Hrest']; [cbn [length] in Hlen; lia|done|done|by left|done|].
    split; [|done]. rewrite bind_cons, Hflat. reflexivity.
  - assert (word_here (u' ++ rest) = false) as Hhere.
    { destruct u' as [|a u'']; [by apply starts_in_name_word | done]. }
    rewrite <- app_assoc in *.
    rewrite (tokens_word (c :: w) (u' ++ rest)) in * by done.
    cbn [honorifics_apart] in Hap. apply andb_true_iff in Hap as [Hh Hap].
    assert (is_honorific (c :: w) = false) as Hnot.
    { destruct (is_honorific (c :: w)) eqn:E; [|done]. exfalso.
      destruct u' as [|a u''].
      - destruct Hpre as [->|Hacc]; [done|]. rewrite app_nil_r in Hacc.
        apply accented_not_honorific in Hacc. congruence.
      - cbn [word_here] in Hu'. apply Forall_cons in Hu'w as [Ha _].
        pose proof (name_word_accented a Ha Hu') as Hacc.
        cbn [app] in Hh. rewrite tokens_sep in Hh by done. rewrite Hacc in Hh.
        by rewrite orb_true_r in Hh. }
    cbn [drop_honorifics]. rewrite Hnot, bind_cons. cbn [token_text].
    destruct u' as [|a u''].
    + cbn [app] in *. rewrite app_nil_r. by split.
    + cbn [word_here] in Hu'. pose proof Hu'w as Hu'w'.
      apply Forall_cons in Hu'w' as [Ha _].
      pose proof (name_word_accented a Ha Hu') as Hacc.
      destruct (IH (a :: u'') false) as [Hflat Hrest'];
        [rewrite length_app in Hlen; cbn [length] in *; lia | done | done
        | right; by apply Exists_cons_hd | done |].
      split; [|done]. rewrite Hflat. by rewrite app_assoc.
Qed.

(** Where no honorific touches an accented letter, the words of the
    expression and the words of the claim give the same text. *)
Lemma strip_honorifics_words (n : nat) (s : jsstring) :
  (length s ≤ n)%nat →
  honorifics_apart false (tokens s) = true →
  strip_honorifics s = strip_honorific_words s.
Proof.
  unfold strip_honorifics, strip_honorific_words.
  revert s. induction n as [|n IH]; intros s Hlen Hap.
  { by destruct s; [|cbn [length] in Hlen; lia]. }
  destruct (span_name_word s) as (u & rest & -> & Hu & Hrest).
  destruct u as [|c u].
  - cbn [app] in *. destruct rest as [|d rest]; [done|].
    cbn [starts_in] in Hrest. pose proof (not_name_word d Hrest) as [Hd Hacc].
    rewrite tokens_sep in * by done. rewrite name_tokens_sep by done.
    cbn [honorifics_apart drop_honorifics] in *. rewrite Hacc in Hap.
    rewrite !bind_cons. f_equal. apply IH; [cbn [length] in Hlen; lia | done].
  - rewrite (name_tokens_word (c :: u) rest) by done.
    assert (length rest ≤ n)%nat as Hlen'
      by (rewrite length_app in Hlen; cbn [length] in Hlen; lia).
    destruct (pure_or_accented (c :: u) Hu) as [Hpure|Hacc].
    + rewrite (tokens_word (c :: u) rest) in *
        by (done || by apply starts_in_name_word).
      cbn [honorifics_apart] in Hap. apply andb_true_iff in Hap as [Hh Hap].
      destruct (is_honorific (c :: u)) eqn:Eh.
      * destruct rest as [|d rest].
        { cbn [tokens name_tokens drop_honorifics]. by rewrite Eh. }
        cbn [starts_in] in Hrest. pose proof (not_name_word d Hrest) as [Hd Hacc].
        rewrite tokens_sep in * by done. rewrite name_tokens_sep by done.
        cbn [honorifics_apart] in Hap. rewrite Hacc in Hap.
        cbn [drop_honorifics]. rewrite Eh.
        assert (drop_honorifics (tokens rest) ≫= token_text
                = drop_honorifics (name_tokens rest) ≫= token_text) as Hrec
          by (apply IH; [cbn [length] in Hlen'; lia | done]).
        destruct (N.eqb d full_stop); [done|]. by rewrite !bind_cons, Hrec.
      * cbn [drop_honorifics]. rewrite Eh, !bind_cons. f_equal. by apply IH.
    + destruct (strip_in_accented_word (length (c :: u)) (c :: u) rest false)
        as [Hflat Hap']; [done | done | done | by right | done |].
      rewrite Hflat. cbn [drop_honorifics].
      rewrite (accented_not_honorific _ Hacc), bind_cons. cbn [token_text].
      f_equal. by apply IH.
Qed.

(** C9 (amended): on an input without the signs U+00D7 and U+00F7, in
    which no honorific stands directly next to an accented letter,
    [cleanNameAllCaps] drops the honorific words MR, MRS, MS, MISS, DR
    and PROF (in either case; a word is a maximal run of letters,
    accented ones included, digits and underscores) with the full stop
    that follows, puts a space in place of every character that is not
    a letter, white space, a hyphen or an apostrophe, collapses white
    space, trims, and upper-cases; an empty outcome is null. An input
    without letters, hyphens and apostrophes gives null. *)
Theorem cleanNameAllCaps_spec (s : jsstring) :
  Forall (fun c => c ≠ 215%N ∧ c ≠ 247%N) s →
  honorifics_apart false (tokens s) = true →
  cleanNameAllCaps (Some (VStr s)) = cleanName_spec s
  ∧ (Forall (fun c => is_letter c = false ∧ c ≠ hyphen ∧ c ≠ apostrophe) s →
     cleanNameAllCaps (Some (VStr s)) = VNull).
Proof.
  intros Hs Hap. rewrite cleanNameAllCaps_refines by done.
  unfold cleanName_steps, cleanName_spec.
  rewrite <- (strip_honorifics_words (length s) s) by done.
  split; [reflexivity|].
  intros Hno.
  assert (Forall (fun c => is_space c = true)
            (restrict_to_name (strip_honorifics s))) as Hsp.
  { unfold restrict_to_name. apply Forall_fmap.
    rewrite <- replace_all_honorific. apply replace_go_remove_Forall.
    eapply Forall_impl; [exact Hno|]. intros c (Hl & Hh & Ha). unfold compose.
    unfold name_char. rewrite Hl.
    destruct (N.eqb_spec c hyphen); [done|]. destruct (N.eqb_spec c apostrophe); [done|].
    rewrite !orb_false_r. cbn [orb]. by destruct (is_space c) eqn:E. }
  by destruct (collapse_spaces _ Hsp) as [_ [-> | ->]].
Qed.

Lemma cleanNameAllCaps_spec_witness :
  cleanNameAllCaps (Some (VStr (js "MR. JOHN A. SMITH"))) = VStr (js "JOHN A SMITH")
  ∧ cleanNameAllCaps (Some (VStr (js "Dr. Jos" ++ [233%N] ++ js " Andr" ++ [233%N]
                                  ++ js "s")))
    = VStr (js "JOS" ++ [201%N] ++ js " ANDR" ++ [201%N] ++ js "S")
  ∧ cleanNameAllCaps (Some (VStr (js "...!?"))) = VNull.
Proof.
  split; [|split].
  - destruct (cleanNameAllCaps_spec (js "MR. JOHN A. SMITH")) as [H _].
    + apply (bool_decide_unpack _). vm_compute. exact I.
    + vm_compute. reflexivity.
    + rewrite H. vm_compute. reflexivity.
  - destruct (cleanNameAllCaps_spec
                (js "Dr. Jos" ++ [233%N] ++ js " Andr" ++ [233%N] ++ js "s")) as [H _].
    + apply (bool_decide_unpack _). vm_compute. exact I.
    + vm_compute. reflexivity.
    + rewrite H. vm_compute. reflexivity.
  - destruct (cleanNameAllCaps_spec (js "...!?")) as [_ H].
    + apply (bool_decide_unpack _). vm_compute. exact I.
    + vm_compute. reflexivity.
    + apply H. apply (bool_decide_unpack _). vm_compute. exact I.
Defined.

(** ** The decoder on fenced replies *)




















(** ** Trimming around a text that begins and ends outside white space *)






Section DecoderSpec.

Variable JSON_parse : jsstring → option value.


End DecoderSpec.


